(** * The BOBJ streaming mesh loader of [frontend/src/game/Model.ts]

    A shallow embedding of [loadBOBJ]: the closure variables of one load are a
    record, the [DataView] accessors are partial functions on byte lists, a
    thrown JavaScript exception is an explicit completion, and the recursive
    promise chain [readChunk -> appendChunks -> readChunk] is a fold over the
    chunks the stream reader still has to deliver. *)

From Stdlib Require Import ZArith Lia Bool.
From Stdlib Require Import Floats.SpecFloat.
From Stdlib Require Import Strings.Byte.
From Stdlib Require String DecimalString.
From stdpp Require Import base decidable list.
Import String.StringSyntax.
Delimit Scope string_scope with string.

Local Open Scope Z_scope.

(** ** Bytes, exceptions and the DataView accessors *)

Abbreviation byte := Byte.byte.

Definition byteval (b : byte) : Z := Z.of_N (Byte.to_N b).

(** The exceptions the loader can meet: [RangeError] from a [DataView] read
    past the end of its buffer, [TypeError] from an element store into an
    [undefined] array, and the plain [Error] that [readChunks] throws for a
    failed response. *)
Inductive JsError : Type :=
| RangeError
| TypeError
| FetchError.

Inductive Completion (A : Type) : Type :=
| Normal (a : A)
| Throw (e : JsError).
Arguments Normal {A} a.
Arguments Throw {A} e.

Definition bindC {A B : Type} (m : Completion A) (k : A -> Completion B)
  : Completion B :=
  match m with
  | Normal a => k a
  | Throw e => Throw e
  end.

Notation "'let!' x ':=' m 'in' k" := (bindC m (fun x => k))
  (at level 10, x pattern, m at level 100, k at level 200).

(** [sliceBytes view i n] is the run of at most [n] bytes of [view] that
    starts at offset [i]. *)
Definition sliceBytes (view : list byte) (i : Z) (n : nat) : list byte :=
  take n (drop (Z.to_nat i) view).

(** Little-endian value of a run of bytes. *)
Definition leValue (bs : list byte) : Z :=
  foldr (fun b acc => byteval b + 256 * acc) 0 bs.

Definition byteLength (view : list byte) : Z := Z.of_nat (length view).

(** A [DataView] read of [n] bytes at [i] throws unless it lies inside the
    buffer. *)
Definition inBounds (view : list byte) (i : Z) (n : nat) : bool :=
  (0 <=? i) && (i + Z.of_nat n <=? byteLength view).

Definition getUint (n : nat) (view : list byte) (i : Z) : Completion Z :=
  if inBounds view i n then Normal (leValue (sliceBytes view i n))
  else Throw RangeError.

Definition getUint8 := getUint 1.
Definition getUint16 := getUint 2.
Definition getUint32 := getUint 4.

(** ** IEEE-754 values

    A JavaScript number read by [getFloat64]/[getFloat32] is the value of its
    bit pattern; [spec_float] is the Standard Library's specification of
    binary floating point. [mw] is the width of the trailing significand,
    [ew] the width of the exponent field. *)
Definition decodeIEEE (mw ew : Z) (bits : Z) : spec_float :=
  let sign := Z.testbit bits (mw + ew) in
  let e := Z.land (Z.shiftr bits mw) (Z.ones ew) in
  let m := Z.land bits (Z.ones mw) in
  let bias := Z.ones (ew - 1) in
  if e =? 0 then
    match m with
    | Zpos p => S754_finite sign p (1 - bias - mw)
    | _ => S754_zero sign
    end
  else if e =? Z.ones ew then
    if m =? 0 then S754_infinity sign else S754_nan
  else
    match m + 2 ^ mw with
    | Zpos p => S754_finite sign p (e - bias - mw)
    | _ => S754_nan
    end.

Definition float64_of_bits : Z -> spec_float := decodeIEEE 52 11.
Definition float32_of_bits : Z -> spec_float := decodeIEEE 23 8.

Definition getFloat64 (view : list byte) (i : Z) : Completion spec_float :=
  let! bits := getUint 8 view i in Normal (float64_of_bits bits).

Definition getFloat32 (view : list byte) (i : Z) : Completion spec_float :=
  let! bits := getUint 4 view i in Normal (float32_of_bits bits).

(** A non-negative integer below 2^53 as a double, and the double division
    of [vertexBufferSize / stride] and [indexCount / 3]. *)
Definition numberOfZ (n : Z) : spec_float := binary_normalize 53 1024 n 0 false.
Definition numberDiv (a b : Z) : spec_float :=
  SFdiv 53 1024 (numberOfZ a) (numberOfZ b).

(** ** Typed arrays *)

Inductive TypedArray : Type :=
| Uint8Array (data : list Z)
| Uint16Array (data : list Z)
| Uint32Array (data : list Z).

Definition elements (a : TypedArray) : list Z :=
  match a with
  | Uint8Array l | Uint16Array l | Uint32Array l => l
  end.

Definition bytesPerElement (a : TypedArray) : Z :=
  match a with
  | Uint8Array _ => 1
  | Uint16Array _ => 2
  | Uint32Array _ => 4
  end.

(** [new UintNArray(n)]: [n] zero elements. *)
Definition zeros (n : Z) : list Z := replicate (Z.to_nat n) 0.

(** [a[i] = v]: the value wraps to the element width; a store outside the
    array leaves it as it is. *)
Definition storeElement (a : TypedArray) (i v : Z) : TypedArray :=
  let put (w : Z) (l : list Z) :=
    if 0 <=? i then <[Z.to_nat i := v mod 2 ^ w]> l else l in
  match a with
  | Uint8Array l => Uint8Array (put 8 l)
  | Uint16Array l => Uint16Array (put 16 l)
  | Uint32Array l => Uint32Array (put 32 l)
  end.

(** A store through a variable that is still [undefined] throws. *)
Definition storeInto (a : option TypedArray) (i v : Z)
  : Completion TypedArray :=
  match a with
  | Some a => Normal (storeElement a i v)
  | None => Throw TypeError
  end.

(** ** The closure variables of [loadBOBJ] *)

Inductive ModelReadState : Type :=
| IndexSize
| VertexComponents
| ScaleFactor
| ModelOffset
| VertexCount
| IndexCount
| VertexData
| IndexData
| Done.

Global Instance ModelReadState_eq_dec : EqDecision ModelReadState.
Proof. solve_decision. Defined.

(** [let x: number;] without an initialiser is [undefined] until the first
    assignment: such variables are options. [trailingChunkData] belongs to
    [readChunks] and lives as long as the others. *)
Record Loader : Type := mkLoader {
  readState : ModelReadState;
  indexSize : option Z;
  hasColor : option bool;
  hasUV : option bool;
  hasNormal : option bool;
  scale : spec_float;
  offset : spec_float * spec_float * spec_float;
  vertexCount : option spec_float;
  vertexBufferSize : option Z;
  vertices : option TypedArray;
  vertexWriteIndex : Z;
  triangleCount : option spec_float;
  indexCount : option Z;
  indices : option TypedArray;
  indicesWriteIndex : Z;
  trailingChunkData : option (list byte)
}.

Definition SF_one : spec_float := S754_finite false 4503599627370496 (-52).
Definition SF_zero : spec_float := S754_zero false.

Definition initialLoader : Loader := {|
  readState := IndexSize;
  indexSize := None;
  hasColor := None;
  hasUV := None;
  hasNormal := None;
  scale := SF_one;
  offset := (SF_zero, SF_zero, SF_zero);
  vertexCount := None;
  vertexBufferSize := None;
  vertices := None;
  vertexWriteIndex := 0;
  triangleCount := None;
  indexCount := None;
  indices := None;
  indicesWriteIndex := 0;
  trailingChunkData := None
|}.

Definition set_readState (v : ModelReadState) (d : Loader) : Loader :=
  mkLoader v (indexSize d) (hasColor d) (hasUV d) (hasNormal d) (scale d)
    (offset d) (vertexCount d) (vertexBufferSize d) (vertices d)
    (vertexWriteIndex d) (triangleCount d) (indexCount d) (indices d)
    (indicesWriteIndex d) (trailingChunkData d).

Definition set_indexSize (v : Z) (d : Loader) : Loader :=
  mkLoader (readState d) (Some v) (hasColor d) (hasUV d) (hasNormal d)
    (scale d) (offset d) (vertexCount d) (vertexBufferSize d) (vertices d)
    (vertexWriteIndex d) (triangleCount d) (indexCount d) (indices d)
    (indicesWriteIndex d) (trailingChunkData d).

Definition set_components (color normal uv : bool) (d : Loader) : Loader :=
  mkLoader (readState d) (indexSize d) (Some color) (Some uv) (Some normal)
    (scale d) (offset d) (vertexCount d) (vertexBufferSize d) (vertices d)
    (vertexWriteIndex d) (triangleCount d) (indexCount d) (indices d)
    (indicesWriteIndex d) (trailingChunkData d).

Definition set_scale (v : spec_float) (d : Loader) : Loader :=
  mkLoader (readState d) (indexSize d) (hasColor d) (hasUV d) (hasNormal d)
    v (offset d) (vertexCount d) (vertexBufferSize d) (vertices d)
    (vertexWriteIndex d) (triangleCount d) (indexCount d) (indices d)
    (indicesWriteIndex d) (trailingChunkData d).

Definition set_offset (v : spec_float * spec_float * spec_float) (d : Loader)
  : Loader :=
  mkLoader (readState d) (indexSize d) (hasColor d) (hasUV d) (hasNormal d)
    (scale d) v (vertexCount d) (vertexBufferSize d) (vertices d)
    (vertexWriteIndex d) (triangleCount d) (indexCount d) (indices d)
    (indicesWriteIndex d) (trailingChunkData d).

(** [vertexBufferSize], [vertexCount] and [vertices] are assigned together. *)
Definition set_vertexBuffer (size : Z) (count : spec_float) (d : Loader)
  : Loader :=
  mkLoader (readState d) (indexSize d) (hasColor d) (hasUV d) (hasNormal d)
    (scale d) (offset d) (Some count) (Some size)
    (Some (Uint32Array (zeros size)))
    (vertexWriteIndex d) (triangleCount d) (indexCount d) (indices d)
    (indicesWriteIndex d) (trailingChunkData d).

(** [indexCount], [triangleCount] and [indices] are assigned together. *)
Definition set_indexBuffer (count : Z) (triangles : spec_float)
  (buffer : TypedArray) (d : Loader) : Loader :=
  mkLoader (readState d) (indexSize d) (hasColor d) (hasUV d) (hasNormal d)
    (scale d) (offset d) (vertexCount d) (vertexBufferSize d) (vertices d)
    (vertexWriteIndex d) (Some triangles) (Some count) (Some buffer)
    (indicesWriteIndex d) (trailingChunkData d).

(** [vertices[vertexWriteIndex] = vertex; vertexWriteIndex += 1]. *)
Definition set_vertexWritten (buffer : TypedArray) (d : Loader) : Loader :=
  mkLoader (readState d) (indexSize d) (hasColor d) (hasUV d) (hasNormal d)
    (scale d) (offset d) (vertexCount d) (vertexBufferSize d) (Some buffer)
    (vertexWriteIndex d + 1) (triangleCount d) (indexCount d) (indices d)
    (indicesWriteIndex d) (trailingChunkData d).

(** [indices[indicesWriteIndex] = index; indicesWriteIndex += 1]. *)
Definition set_indexWritten (buffer : TypedArray) (d : Loader) : Loader :=
  mkLoader (readState d) (indexSize d) (hasColor d) (hasUV d) (hasNormal d)
    (scale d) (offset d) (vertexCount d) (vertexBufferSize d) (vertices d)
    (vertexWriteIndex d) (triangleCount d) (indexCount d) (Some buffer)
    (indicesWriteIndex d + 1) (trailingChunkData d).

Definition set_trailingChunkData (v : option (list byte)) (d : Loader)
  : Loader :=
  mkLoader (readState d) (indexSize d) (hasColor d) (hasUV d) (hasNormal d)
    (scale d) (offset d) (vertexCount d) (vertexBufferSize d) (vertices d)
    (vertexWriteIndex d) (triangleCount d) (indexCount d) (indices d)
    (indicesWriteIndex d) v.

(** ** One pass of [appendChunks]

    Inside a pass the loader reads the merged chunk [value] through [view]
    and keeps the local [readIndex]; a stage takes and returns the closure
    variables together with [readIndex]. The chunk handed over by the reader
    is taken to own its buffer, so [value.buffer] holds exactly the bytes of
    [value]. *)

Definition Pass : Type := Loader * Z.

(** Truthiness of a flag that may still be [undefined]. *)
Definition truthy (b : option bool) : bool := default false b.

(** [a >= b] and [a < b] where [b] may be [undefined]: both are false then. *)
Definition geNumber (a : Z) (b : option Z) : bool :=
  match b with Some b => a >=? b | None => false end.
Definition ltNumber (a : Z) (b : option Z) : bool :=
  match b with Some b => a <? b | None => false end.

Definition inState (d : Loader) (s : ModelReadState) : bool :=
  bool_decide (readState d = s).

Section Stages.
Variable view : list byte.
Variable chunkSize : Z.

Definition stageIndexSize (p : Pass) : Completion Pass :=
  let '(d, readIndex) := p in
  if inState d IndexSize && (chunkSize >=? 1) then
    let d := set_readState VertexComponents d in
    let! b := getUint8 view 0 in
    Normal (set_indexSize b d, readIndex + 1)
  else Normal p.

Definition stageVertexComponents (p : Pass) : Completion Pass :=
  let '(d, readIndex) := p in
  if inState d VertexComponents && (chunkSize >=? 1) then
    let d := set_readState ScaleFactor d in
    let! componentMask := getUint8 view readIndex in
    Normal (set_components (negb (Z.land componentMask 4 =? 0))
                           (negb (Z.land componentMask 2 =? 0))
                           (negb (Z.land componentMask 1 =? 0)) d,
            readIndex + 1)
  else Normal p.

Definition stageScaleFactor (p : Pass) : Completion Pass :=
  let '(d, readIndex) := p in
  if inState d ScaleFactor && (chunkSize - readIndex >=? 8) then
    let d := set_readState ModelOffset d in
    let! x := getFloat64 view readIndex in
    Normal (set_scale x d, readIndex + 8)
  else Normal p.

Definition stageModelOffset (p : Pass) : Completion Pass :=
  let '(d, readIndex) := p in
  if inState d ModelOffset && (chunkSize - readIndex >=? 12) then
    let d := set_readState VertexCount d in
    let! x := getFloat32 view readIndex in
    let! y := getFloat32 view (readIndex + 4) in
    let! z := getFloat32 view (readIndex + 8) in
    Normal (set_offset (x, y, z) d, readIndex + 12)
  else Normal p.

(** Words per vertex: [hasUV && hasNormal ? 4 : hasUV || hasNormal ? 3 : 2]. *)
Definition stride (d : Loader) : Z :=
  if truthy (hasUV d) && truthy (hasNormal d) then 4
  else if truthy (hasUV d) || truthy (hasNormal d) then 3
  else 2.

Definition stageVertexCount (p : Pass) : Completion Pass :=
  let '(d, readIndex) := p in
  if inState d VertexCount && (chunkSize - readIndex >=? 4) then
    let d := set_readState IndexCount d in
    let! size := getUint32 view readIndex in
    Normal (set_vertexBuffer size (numberDiv size (stride d)) d,
            readIndex + 4)
  else Normal p.

(** The [switch (indexSize)] that allocates [indices]. *)
Definition newIndices (size : option Z) (count : Z) : TypedArray :=
  match size with
  | Some 1 => Uint8Array (zeros count)
  | Some 2 => Uint16Array (zeros count)
  | _ => Uint32Array (zeros count)
  end.

Definition stageIndexCount (p : Pass) : Completion Pass :=
  let '(d, readIndex) := p in
  if inState d IndexCount && (chunkSize - readIndex >=? 4) then
    let d := set_readState VertexData d in
    let! count := getUint32 view readIndex in
    Normal (set_indexBuffer count (numberDiv count 3)
                            (newIndices (indexSize d) count) d,
            readIndex + 4)
  else Normal p.

(** The first [while]. Every turn that does not leave the loop moves
    [readIndex] four bytes on, so the loop runs at most once more than
    there are bytes left. *)
Fixpoint whileVertexData (fuel : nat) (p : Pass) : Completion Pass :=
  match fuel with
  | O => Normal p
  | S fuel =>
    let '(d, readIndex) := p in
    if inState d VertexData && (chunkSize - readIndex >=? 4) then
      if geNumber (vertexWriteIndex d) (vertexBufferSize d) then
        Normal (set_readState IndexData d, readIndex)
      else
        let! vertex := getUint32 view readIndex in
        let! buffer := storeInto (vertices d) (vertexWriteIndex d) vertex in
        whileVertexData fuel (set_vertexWritten buffer d, readIndex + 4)
    else Normal p
  end.

(** The [switch (indexSize)] that reads one index. *)
Definition getIndex (size : Z) (readIndex : Z) : Completion Z :=
  if size =? 1 then getUint8 view readIndex
  else if size =? 2 then getUint16 view readIndex
  else getUint32 view readIndex.

(** [chunkSize - readIndex >= indexSize], false while [indexSize] is
    [undefined]. *)
Definition enoughForIndex (d : Loader) (readIndex : Z) : bool :=
  match indexSize d with
  | Some size => chunkSize - readIndex >=? size
  | None => false
  end.

(** The second [while]. Every turn adds one to [indicesWriteIndex], so the
    loop runs at most [indexCount - indicesWriteIndex] times. *)
Fixpoint whileIndexData (fuel : nat) (p : Pass) : Completion Pass :=
  match fuel with
  | O => Normal p
  | S fuel =>
    let '(d, readIndex) := p in
    if inState d IndexData && enoughForIndex d readIndex
       && ltNumber (indicesWriteIndex d) (indexCount d) then
      let size := default 0 (indexSize d) in
      let! index := getIndex size readIndex in
      let! buffer := storeInto (indices d) (indicesWriteIndex d) index in
      let d := set_indexWritten buffer d in
      let readIndex := readIndex + size in
      let d := if geNumber (indicesWriteIndex d) (indexCount d)
               then set_readState Done d else d in
      whileIndexData fuel (d, readIndex)
    else Normal p
  end.

Definition vertexFuel (p : Pass) : nat :=
  S (Z.to_nat (chunkSize - snd p)).
Definition indexFuel (p : Pass) : nat :=
  Z.to_nat (default 0 (indexCount (fst p)) - indicesWriteIndex (fst p)).

(** The stages in the order of the source. *)
Definition stages (p : Pass) : Completion Pass :=
  let! p := stageIndexSize p in
  let! p := stageVertexComponents p in
  let! p := stageScaleFactor p in
  let! p := stageModelOffset p in
  let! p := stageVertexCount p in
  let! p := stageIndexCount p in
  let! p := whileVertexData (vertexFuel p) p in
  whileIndexData (indexFuel p) p.
End Stages.

(** [if (trailingChunkData && trailingChunkData.length > 0)]: the kept tail
    goes in front of the new chunk and the variable is cleared. *)
Definition mergeTrailing (d : Loader) (value : list byte)
  : Loader * list byte :=
  match trailingChunkData d with
  | Some t =>
    if 0 <? byteLength t then (set_trailingChunkData None d, t ++ value)
    else (d, value)
  | None => (d, value)
  end.

(** [if (readIndex < chunkSize) trailingChunkData = value.buffer.slice(readIndex)]. *)
Definition keepTrailing (value : list byte) (p : Pass) : Loader :=
  let '(d, readIndex) := p in
  if readIndex <? byteLength value
  then set_trailingChunkData (Some (drop (Z.to_nat readIndex) value)) d
  else d.

(** [appendChunks] for a read result that carries a chunk, up to the call of
    [readChunk] that ends it. *)
Definition appendChunks (d : Loader) (value : list byte) : Completion Loader :=
  let '(d, value) := mergeTrailing d value in
  let! p := stages value (byteLength value) (d, 0) in
  Normal (keepTrailing value p).

(** ** The read loop

    The reader is the list of chunks it has yet to deliver; [reader.read()]
    on the empty list resolves with [done]. The log records, for every
    [reader.read()] the loader issues, the [readState] it was issued in. *)
Definition ReadLog : Type := list ModelReadState.

Fixpoint readChunk (reader : list (list byte)) (d : Loader) (log : ReadLog)
  : Completion (Loader * ReadLog) :=
  let log := log ++ [readState d] in
  match reader with
  | [] => Normal (d, log)
  | value :: reader =>
    let! d := appendChunks d value in
    readChunk reader d log
  end.

(** ** The promise of [loadBOBJ] *)

Inductive GLenum : Type :=
| UNSIGNED_BYTE
| UNSIGNED_SHORT
| UNSIGNED_INT.

(** What the load resolves with: the two arrays handed to [gl.bufferData]
    and the fields of [ModelData] that do not name a GPU object. *)
Record ModelData : Type := mkModelData {
  vertexData : option TypedArray;
  indexData : option TypedArray;
  md_vertexCount : option spec_float;
  md_triangleCount : option spec_float;
  md_indexCount : option Z;
  md_indexType : GLenum;
  md_scale : spec_float;
  md_offset : spec_float * spec_float * spec_float;
  md_hasColor : option bool;
  md_hasUV : option bool;
  md_hasNormal : option bool
}.

Definition indexTypeOf (size : option Z) : GLenum :=
  match size with
  | Some 1 => UNSIGNED_BYTE
  | Some 2 => UNSIGNED_SHORT
  | _ => UNSIGNED_INT
  end.

Definition modelDataOf (d : Loader) : ModelData := {|
  vertexData := vertices d;
  indexData := indices d;
  md_vertexCount := vertexCount d;
  md_triangleCount := triangleCount d;
  md_indexCount := indexCount d;
  md_indexType := indexTypeOf (indexSize d);
  md_scale := scale d;
  md_offset := offset d;
  md_hasColor := hasColor d;
  md_hasUV := hasUV d;
  md_hasNormal := hasNormal d
|}.

Inductive Settled : Type :=
| Resolved (m : ModelData)
| Rejected (e : JsError).

(** The response of [fetch]: its [ok] flag and its body, a stream of chunks
    or [null]. *)
Record Response : Type := mkResponse {
  ok : bool;
  body : option (list (list byte))
}.

Definition readChunks (response : Response) : Completion (Loader * ReadLog) :=
  match ok response, body response with
  | true, Some reader => readChunk reader initialLoader []
  | _, _ => Throw FetchError
  end.

Definition loadBOBJ (response : Response) : Settled :=
  match readChunks response with
  | Normal (d, _) => Resolved (modelDataOf d)
  | Throw e => Rejected e
  end.

(** A response that delivers the given chunks. *)
Definition delivered (chunks : list (list byte)) : Response :=
  mkResponse true (Some chunks).

(** ** The stream of the specification's scenario *)

Definition bytesOf (l : list Z) : list byte :=
  map (fun z => default Byte.x00 (Byte.of_N (Z.to_N z))) l.

(** indexWidth 1, bitmask 1, scale 1.5, offset (0,0,0), six vertex words,
    three indices; then the words 1..6 and the indices 0,1,0. *)
Definition scenarioHeader : list byte :=
  bytesOf [1; 1;
           0; 0; 0; 0; 0; 0; 248; 63;
           0; 0; 0; 0; 0; 0; 0; 0; 0; 0; 0; 0;
           6; 0; 0; 0;
           3; 0; 0; 0].

Definition scenarioPayload : list byte :=
  bytesOf [1; 0; 0; 0; 2; 0; 0; 0; 3; 0; 0; 0;
           4; 0; 0; 0; 5; 0; 0; 0; 6; 0; 0; 0;
           0; 1; 0].

Definition scenarioStream : list byte := scenarioHeader ++ scenarioPayload.


(** ** The pass as a pipeline of ranked stages

    Every stage of a pass belongs to one read state and leaves the pass
    alone in any other. [rank] numbers the read states in the order of the
    enumeration. *)

Definition Stage : Type := list byte -> Pass -> Completion Pass.

Definition rank (s : ModelReadState) : nat :=
  match s with
  | IndexSize => 1
  | VertexComponents => 2
  | ScaleFactor => 3
  | ModelOffset => 4
  | VertexCount => 5
  | IndexCount => 6
  | VertexData => 7
  | IndexData => 8
  | Done => 9
  end%nat.

Definition prank (p : Pass) : nat := rank (readState (fst p)).

Definition onIndexSize : Stage := fun v => stageIndexSize v (byteLength v).
Definition onVertexComponents : Stage :=
  fun v => stageVertexComponents v (byteLength v).
Definition onScaleFactor : Stage := fun v => stageScaleFactor v (byteLength v).
Definition onModelOffset : Stage := fun v => stageModelOffset v (byteLength v).
Definition onVertexCount : Stage := fun v => stageVertexCount v (byteLength v).
Definition onIndexCount : Stage := fun v => stageIndexCount v (byteLength v).
Definition onVertexData : Stage :=
  fun v p => whileVertexData v (byteLength v) (vertexFuel (byteLength v) p) p.
Definition onIndexData : Stage :=
  fun v p => whileIndexData v (byteLength v) (indexFuel p) p.

Fixpoint runStages (l : list (nat * Stage)) (v : list byte) (p : Pass)
  : Completion Pass :=
  match l with
  | [] => Normal p
  | (_, f) :: l => let! p := f v p in runStages l v p
  end.

Definition headerStages : list (nat * Stage) :=
  [(1%nat, onIndexSize); (2%nat, onVertexComponents); (3%nat, onScaleFactor);
   (4%nat, onModelOffset); (5%nat, onVertexCount); (6%nat, onIndexCount)].

Definition payloadStages : list (nat * Stage) :=
  [(7%nat, onVertexData); (8%nat, onIndexData)].

Definition stageList : list (nat * Stage) := headerStages ++ payloadStages.

(** The guard of the stage a read state belongs to, on the bytes from
    [readIndex] on. *)
Definition canAdvance (v : list byte) (p : Pass) : bool :=
  let '(d, readIndex) := p in
  let chunkSize := byteLength v in
  match readState d with
  | IndexSize => chunkSize >=? 1
  | VertexComponents => chunkSize >=? 1
  | ScaleFactor => chunkSize - readIndex >=? 8
  | ModelOffset => chunkSize - readIndex >=? 12
  | VertexCount => chunkSize - readIndex >=? 4
  | IndexCount => chunkSize - readIndex >=? 4
  | VertexData => chunkSize - readIndex >=? 4
  | IndexData => enoughForIndex chunkSize d readIndex
                 && ltNumber (indicesWriteIndex d) (indexCount d)
  | Done => false
  end.

(** The index size byte is never negative. *)
Definition sizeOk (d : Loader) : Prop :=
  forall size, indexSize d = Some size -> 0 <= size.

(** Past its first state the loader knows the index size. *)
Definition sizeKnown (d : Loader) : Prop :=
  readState d <> IndexSize -> indexSize d <> None.

(** [readIndex] lies inside the chunk, and is still 0 where nothing was
    read. *)
Definition good (v : list byte) (p : Pass) : Prop :=
  0 <= snd p <= byteLength v /\ sizeOk (fst p) /\
  (readState (fst p) = IndexSize -> snd p = 0) /\ sizeKnown (fst p).

(** The same outcome with [readIndex] counted from [i] bytes earlier. *)
Definition shiftC (i : nat) (m : Completion Pass) : Completion Pass :=
  match m with
  | Normal (d, j) => Normal (d, j + Z.of_nat i)
  | Throw e => Throw e
  end.

(** What the pipeline lemmas need of a stage of rank [r]. *)
Record Ranked (r : nat) (f : Stage) : Prop := mkRanked {
  ranked_fire : forall v p p',
    f v p = Normal p' -> p' = p \/ (prank p = r /\ (r <= prank p')%nat);
  ranked_skip : forall v p, prank p <> r -> f v p = Normal p;
  ranked_extend : forall v b p p',
    f v p = Normal p' -> f (v ++ b) p = f (v ++ b) p';
  ranked_good : forall v p p', f v p = Normal p' -> good v p -> good v p';
  ranked_stuck : forall v p p',
    f v p = Normal p' -> prank p' = r -> canAdvance v p' = false;
  ranked_shift : forall w i d j,
    (3 <= r)%nat -> (i <= length w)%nat -> good (drop i w) (d, j) ->
    f w (d, j + Z.of_nat i) = shiftC i (f (drop i w) (d, j));
  ranked_trailing : forall v p p',
    f v p = Normal p' ->
    trailingChunkData (fst p') = trailingChunkData (fst p)
}.

(** All chunks of a stream, one pass each. *)
Fixpoint feedChunks (d : Loader) (chunks : list (list byte))
  : Completion Loader :=
  match chunks with
  | [] => Normal d
  | value :: chunks => let! d := appendChunks d value in feedChunks d chunks
  end.

(** The loader states a load can be in between two reads. *)
Definition reachable (d : Loader) : Prop :=
  exists chunks, feedChunks initialLoader chunks = Normal d.

(** The kept tail as a byte sequence, empty for [null]. *)
Definition carry (d : Loader) : list byte := default [] (trailingChunkData d).

(** What every loader state between two reads satisfies: the index size is
    a byte value, known once the first byte was read, and the kept tail is
    [null] or holds at least one byte. *)
Definition wellFormed (d : Loader) : Prop :=
  sizeOk d /\ trailingChunkData d <> Some [] /\ sizeKnown d.

(** The guard and one turn of the first [while], with the rest of the loop
    as the continuation [k]. *)
Definition vertexGuard (v : list byte) (p : Pass) : bool :=
  inState (fst p) VertexData && (byteLength v - snd p >=? 4).

Definition vertexTurn (v : list byte) (p : Pass) (k : Pass -> Completion Pass)
  : Completion Pass :=
  if geNumber (vertexWriteIndex (fst p)) (vertexBufferSize (fst p)) then
    Normal (set_readState IndexData (fst p), snd p)
  else
    let! vertex := getUint32 v (snd p) in
    let! buffer :=
      storeInto (vertices (fst p)) (vertexWriteIndex (fst p)) vertex in
    k (set_vertexWritten buffer (fst p), snd p + 4).

(** The guard and one turn of the second [while]. *)
Definition indexGuard (v : list byte) (p : Pass) : bool :=
  inState (fst p) IndexData && enoughForIndex (byteLength v) (fst p) (snd p)
  && ltNumber (indicesWriteIndex (fst p)) (indexCount (fst p)).

Definition afterIndex (buffer : TypedArray) (d : Loader) : Loader :=
  let d := set_indexWritten buffer d in
  if geNumber (indicesWriteIndex d) (indexCount d)
  then set_readState Done d else d.

Definition indexTurn (v : list byte) (p : Pass) (k : Pass -> Completion Pass)
  : Completion Pass :=
  let size := default 0 (indexSize (fst p)) in
  let! index := getIndex v size (snd p) in
  let! buffer :=
    storeInto (indices (fst p)) (indicesWriteIndex (fst p)) index in
  k (afterIndex buffer (fst p), snd p + size).

(** A list of stages, each with the rank it is declared with, in ascending
    order of rank. *)
Definition AllRanked (l : list (nat * Stage)) : Prop :=
  Forall (fun rf => Ranked (fst rf) (snd rf)) l.

Fixpoint ascending (k : nat) (l : list (nat * Stage)) : Prop :=
  match l with
  | [] => True
  | (r, _) :: l => (k < r)%nat /\ ascending r l
  end.



(** The chunkings of the scenario: every byte a chunk of its own, and the
    stream cut at bytes 10 and 24. *)
Definition byteChunks (stream : list byte) : list (list byte) :=
  map (fun b => [b]) stream.

Definition cutAt (i j : nat) (stream : list byte) : list (list byte) :=
  [take i stream; take (j - i) (drop i stream); drop j stream].

(** The loader after the scenario stream arrived as one chunk, and after it
    arrived with one more byte behind it. *)
Definition afterScenario : Loader :=
  Eval vm_compute in
    match feedChunks initialLoader [scenarioStream] with
    | Normal d => d
    | Throw _ => initialLoader
    end.

Definition afterScenarioAndOne : Loader :=
  Eval vm_compute in
    match feedChunks initialLoader [scenarioStream ++ bytesOf [9]] with
    | Normal d => d
    | Throw _ => initialLoader
    end.

(** 1.5 as a double. *)
Definition SF_1_5 : spec_float := S754_finite false 6755399441055744 (-52).

(** A stream like the scenario's with six indices 0,1,0,1,0,1 in place of
    three. *)
Definition sixIndexStream : list byte :=
  bytesOf [1; 1;
           0; 0; 0; 0; 0; 0; 248; 63;
           0; 0; 0; 0; 0; 0; 0; 0; 0; 0; 0; 0;
           6; 0; 0; 0;
           6; 0; 0; 0;
           1; 0; 0; 0; 2; 0; 0; 0; 3; 0; 0; 0;
           4; 0; 0; 0; 5; 0; 0; 0; 6; 0; 0; 0;
           0; 1; 0; 0; 1; 0].

(** What the scenario is expected to resolve with, but for the indices. *)
Definition scenarioData (indices : list Z) : ModelData := {|
  vertexData := Some (Uint32Array [1; 2; 3; 4; 5; 6]);
  indexData := Some (Uint8Array indices);
  md_vertexCount := Some (numberOfZ 2);
  md_triangleCount := Some (numberDiv (Z.of_nat (length indices)) 3);
  md_indexCount := Some (Z.of_nat (length indices));
  md_indexType := UNSIGNED_BYTE;
  md_scale := SF_1_5;
  md_offset := (SF_zero, SF_zero, SF_zero);
  md_hasColor := Some false;
  md_hasUV := Some true;
  md_hasNormal := Some false
|}.



(** ** The header as the wire format lays it out

    Section 6 of the specification: the field of [size] bytes at [offset],
    little-endian. *)
Definition fieldAt (stream : list byte) (offset : Z) (size : nat) : Z :=
  leValue (sliceBytes stream offset size).

Record WireHeader : Type := mkWireHeader {
  wh_indexWidth : Z;
  wh_hasUV : bool;
  wh_hasNormal : bool;
  wh_hasColor : bool;
  wh_scale : spec_float;
  wh_offset : spec_float * spec_float * spec_float;
  wh_vertexWordCount : Z;
  wh_indexCount : Z
}.

Definition wireHeader (stream : list byte) : WireHeader := {|
  wh_indexWidth := fieldAt stream 0 1;
  wh_hasUV := Z.testbit (fieldAt stream 1 1) 0;
  wh_hasNormal := Z.testbit (fieldAt stream 1 1) 1;
  wh_hasColor := Z.testbit (fieldAt stream 1 1) 2;
  wh_scale := float64_of_bits (fieldAt stream 2 8);
  wh_offset := (float32_of_bits (fieldAt stream 10 4),
                float32_of_bits (fieldAt stream 14 4),
                float32_of_bits (fieldAt stream 18 4));
  wh_vertexWordCount := fieldAt stream 22 4;
  wh_indexCount := fieldAt stream 26 4
|}.

(** Words per vertex record: 4 with both normal and UV, 3 with exactly one,
    2 with neither. *)
Definition wireStride (h : WireHeader) : Z :=
  match wh_hasNormal h, wh_hasUV h with
  | true, true => 4
  | true, false | false, true => 3
  | false, false => 2
  end.

(** The loader the six header stages leave behind when the chunk holds the
    whole header. *)
Definition headerLoader (c : list byte) : Loader :=
  let mask := fieldAt c 1 1 in
  let color := negb (Z.land mask 4 =? 0) in
  let normal := negb (Z.land mask 2 =? 0) in
  let uv := negb (Z.land mask 1 =? 0) in
  {| readState := VertexData;
     indexSize := Some (fieldAt c 0 1);
     hasColor := Some color;
     hasUV := Some uv;
     hasNormal := Some normal;
     scale := float64_of_bits (fieldAt c 2 8);
     offset := (float32_of_bits (fieldAt c 10 4),
                float32_of_bits (fieldAt c 14 4),
                float32_of_bits (fieldAt c 18 4));
     vertexCount :=
       Some (numberDiv (fieldAt c 22 4)
               (if uv && normal then 4 else if uv || normal then 3 else 2));
     vertexBufferSize := Some (fieldAt c 22 4);
     vertices := Some (Uint32Array (zeros (fieldAt c 22 4)));
     vertexWriteIndex := 0;
     triangleCount := Some (numberDiv (fieldAt c 26 4) 3);
     indexCount := Some (fieldAt c 26 4);
     indices := Some (newIndices (Some (fieldAt c 0 1)) (fieldAt c 26 4));
     indicesWriteIndex := 0;
     trailingChunkData := None |}.

(** A stream whose first byte is 7: no vertex word, one index, and seven
    bytes of index data. *)
Definition widthSevenStream : list byte :=
  bytesOf [7; 0;
           0; 0; 0; 0; 0; 0; 240; 63;
           0; 0; 0; 0; 0; 0; 0; 0; 0; 0; 0; 0;
           0; 0; 0; 0;
           1; 0; 0; 0;
           5; 0; 0; 0; 9; 9; 9].

(** What the loader keeps of the header once it is read, with the element
    width of the index array. *)
Definition headerFields (d : Loader) :=
  (indexSize d, hasColor d, hasUV d, hasNormal d, scale d, offset d,
   vertexCount d, vertexBufferSize d, triangleCount d, indexCount d,
   option_map bytesPerElement (indices d)).

(** ** What the vertex loop writes

    The [k] little-endian words of [v] from offset [j] on, and a list with
    the words [ws] stored from position [w] on. *)
Definition wordsFrom (v : list byte) (j : Z) (k : nat) : list Z :=
  map (fun i => fieldAt v (j + 4 * Z.of_nat i) 4) (seq 0 k).



(** ** Chunkings

    The offset in the stream at which a header field starts, by the read
    state that waits for it; [VertexData] starts behind the header. *)
Definition headerOffset (s : ModelReadState) : Z :=
  match s with
  | IndexSize => 0
  | VertexComponents => 1
  | ScaleFactor => 2
  | ModelOffset => 10
  | VertexCount => 22
  | IndexCount => 26
  | _ => 30
  end.

(** A pass that started at the first byte of the stream and is still in the
    header, or just behind it. *)
Definition aligned (p : Pass) : Prop :=
  snd p = headerOffset (readState (fst p)) /\ (prank p <= 7)%nat.

(** The first chunk that is not empty holds more than one byte. *)
Fixpoint firstChunkOk (chunks : list (list byte)) : Prop :=
  match chunks with
  | [] => True
  | [] :: chunks => firstChunkOk chunks
  | [_] :: _ => False
  | (_ :: _ :: _) :: _ => True
  end.


(** The index sizes for which one index never needs more bytes than the
    loop asks for: 1 and 2 read that many, every other size reads 4. *)
Definition safeSize (size : Z) : Prop := size = 1 \/ size = 2 \/ 4 <= size.

(** The loader after the scenario's header, two vertex words and one byte
    of the third; and after the scenario stream with 21 bytes behind it. *)
Definition afterTwoWords : Loader :=
  Eval vm_compute in
    match feedChunks initialLoader [scenarioHeader ++ take 9 scenarioPayload]
    with
    | Normal d => d
    | Throw _ => initialLoader
    end.


(** ** What a run has decoded

    The position in the stream up to which a loader state has consumed it:
    the header fields behind the read state, four bytes for every vertex
    word written and [indexSize] bytes for every index written. *)
Definition consumed (d : Loader) : Z :=
  headerOffset (readState d) + 4 * vertexWriteIndex d
  + default 0 (indexSize d) * indicesWriteIndex d.

(** The number of bytes [getIndex] reads for an index size: the [switch]
    reads one byte for 1, two for 2 and four for every other size. *)
Definition indexWidth (size : Z) : nat :=
  if size =? 1 then 1%nat else if size =? 2 then 2%nat else 4%nat.

(** The [k] indices of [v] from offset [j] on, [size] bytes apart. *)
Definition indicesFrom (v : list byte) (j size : Z) (k : nat) : list Z :=
  map (fun i => fieldAt v (j + size * Z.of_nat i) (indexWidth size))
      (seq 0 k).

(** The array of the kind [newIndices] allocates for an index size, with
    the given elements. *)
Definition indexArray (size : Z) (l : list Z) : TypedArray :=
  if size =? 1 then Uint8Array l
  else if size =? 2 then Uint16Array l
  else Uint32Array l.

(** The size in bytes of one index of a GL index type. *)
Definition glTypeSize (t : GLenum) : Z :=
  match t with
  | UNSIGNED_BYTE => 1
  | UNSIGNED_SHORT => 2
  | UNSIGNED_INT => 4
  end.

(** What holds of the closure variables during a pass that started in the
    initial state at the first byte of the stream [s]: every header field
    behind the read state has the value of its bytes, the write indices
    count what was stored, the arrays hold the words and indices of the
    stream up to the write indices and zeros behind them, and the last index
    was read inside the stream. *)
Definition decoded (s : list byte) (d : Loader) : Prop :=
  let h := headerLoader s in
  let r := rank (readState d) in
  let n := fieldAt s 22 4 in
  let c := fieldAt s 26 4 in
  let size := fieldAt s 0 1 in
  (0 <= vertexWriteIndex d /\ 0 <= indicesWriteIndex d) /\
  ((r <= 6)%nat -> vertexWriteIndex d = 0) /\
  ((r <= 7)%nat -> indicesWriteIndex d = 0) /\
  ((2 <= r)%nat -> indexSize d = Some size) /\
  ((3 <= r)%nat -> hasColor d = hasColor h /\ hasUV d = hasUV h /\
                   hasNormal d = hasNormal h) /\
  ((4 <= r)%nat -> scale d = scale h) /\
  ((5 <= r)%nat -> offset d = offset h) /\
  ((r <= 5)%nat -> vertices d = None) /\
  ((6 <= r)%nat ->
     vertexBufferSize d = Some n /\ vertexCount d = vertexCount h /\
     vertexWriteIndex d <= n /\
     vertices d
     = Some (Uint32Array (wordsFrom s 30 (Z.to_nat (vertexWriteIndex d))
                          ++ zeros (n - vertexWriteIndex d)))) /\
  ((r <= 6)%nat -> indices d = None) /\
  ((7 <= r)%nat ->
     indexCount d = Some c /\ triangleCount d = triangleCount h /\
     indicesWriteIndex d <= c /\
     indices d
     = Some (indexArray size
               (indicesFrom s (30 + 4 * n) size
                  (Z.to_nat (indicesWriteIndex d))
                ++ zeros (c - indicesWriteIndex d)))) /\
  ((8 <= r)%nat -> vertexWriteIndex d = n /\ 34 + 4 * n <= byteLength s) /\
  (readState d = Done -> indicesWriteIndex d = c /\ 0 < c) /\
  (0 < indicesWriteIndex d ->
     30 + 4 * n + size * (indicesWriteIndex d - 1)
     + Z.of_nat (indexWidth size) <= byteLength s).

(** The invariant of a pass: the loader is as decoded from [s] and
    [readIndex] is the position it has consumed [s] to. *)
Definition decodedPass (s : list byte) (p : Pass) : Prop :=
  decoded s (fst p) /\ snd p = consumed (fst p).

(** A list of chunks without its empty chunks. *)
Definition nonEmptyChunks (chunks : list (list byte)) : list (list byte) :=
  filter (fun c => c <> []) chunks.

(** How many vertex words and how many indices of a stream the loader gets
    to store: the vertex loop takes a word for every four bytes behind the
    header, up to the declared count; the index loop is entered only with
    four bytes or more behind the last vertex word, and takes an index for
    every [indexSize] bytes from there on, up to the declared count. *)
Definition wordsReceived (s : list byte) : Z :=
  Z.min (fieldAt s 22 4) ((byteLength s - 30) / 4).

Definition indicesReceived (s : list byte) : Z :=
  let n := fieldAt s 22 4 in
  let c := fieldAt s 26 4 in
  let size := fieldAt s 0 1 in
  if byteLength s <? 34 + 4 * n then 0
  else if size =? 0 then c
  else Z.min c ((byteLength s - 30 - 4 * n) / size).

(** A stream with the index size 3: no vertex word, two indices, and the
    six bytes of the two. *)
Definition widthThreeStream : list byte :=
  bytesOf [3; 0;
           0; 0; 0; 0; 0; 0; 240; 63;
           0; 0; 0; 0; 0; 0; 0; 0; 0; 0; 0; 0;
           0; 0; 0; 0;
           2; 0; 0; 0;
           1; 0; 0; 2; 0; 0].

(** ** The error of a failed response

    [readChunks] throws [new Error(`Failed to load model: ${url}` +
    !response.ok && `. Server responded with status ${response.status}.`)].
    [+] binds tighter than [&&]: the left operand of [&&] is the template
    with the negated flag appended as text, and the message is the right
    operand when that string is truthy. *)
Definition booleanToString (b : bool) : String.string :=
  if b then "true"%string else "false"%string.

Definition numberToString (n : N) : String.string :=
  DecimalString.NilZero.string_of_uint (N.to_uint n).

(** A string is truthy unless it is empty. *)
Definition truthyString (s : String.string) : bool :=
  match s with
  | String.EmptyString => false
  | String.String _ _ => true
  end.

Definition failureMessage (url : String.string) (ok : bool) (status : N)
  : String.string :=
  let left :=
    String.append (String.append "Failed to load model: " url)
                  (booleanToString (negb ok)) in
  if truthyString left
  then String.append ". Server responded with status "
         (String.append (numberToString status) ".")
  else left.

(** The guard of [readChunks], and the text the promise of [loadBOBJ] is
    rejected with for an [Error] with the given message:
    [`Error loading file ${url}, ${err}`]. *)
Definition responseFails (response : Response) : bool :=
  negb (ok response) || bool_decide (body response = None).

Definition errorToString (message : String.string) : String.string :=
  match message with
  | String.EmptyString => "Error"%string
  | _ => String.append "Error: " message
  end.

Definition rejectionText (url message : String.string) : String.string :=
  String.append "Error loading file "
    (String.append url (String.append ", " (errorToString message))).

(** ** The calls on the GL context

    The calls [loadBOBJ] and [Model.draw] make on the rendering context, in
    the order they are made. A [create...] call stands with the object it
    returned; objects, programs and locations are numbers. *)
Inductive BufferTarget : Type :=
| ARRAY_BUFFER
| ELEMENT_ARRAY_BUFFER.

Inductive TextureUnit : Type :=
| TEXTURE4
| TEXTURE5
| TEXTURE6
| TEXTURE7.

Inductive GLCall : Type :=
| CreateVertexArray (result : nat)
| BindVertexArray (array : option nat)
| CreateBuffer (result : nat)
| BindBuffer (target : BufferTarget) (buffer : nat)
| BufferData (target : BufferTarget) (data : option TypedArray)
| VertexAttribIPointer (index size : Z) (type : GLenum) (stride offset : Z)
| EnableVertexAttribArray (index : Z)
| DisableVertexAttribArray (index : Z)
| UseProgram (program : nat)
| ActiveTexture (unit : TextureUnit)
| BindTexture2D (texture : nat)
| Uniform3fv (location : nat) (value : spec_float * spec_float * spec_float)
| Uniform1f (location : nat) (value : spec_float)
| Uniform1ui (location : nat) (value : Z)
| UniformMatrix4fv (location : nat) (transpose : bool)
    (value : list spec_float)
| UniformMatrix3fv (location : nat) (transpose : bool)
    (value : list spec_float)
| DrawElementsTriangles (count : option Z) (type : GLenum) (offset : Z).

(** What the loader and the model use of a [Shader]: its program, the
    locations [attributes.vertex_xyzc], [attributes.vertex_normal] and
    [attributes.vertex_uv], and the uniforms. *)
Record Shader : Type := mkShader {
  sh_program : nat;
  attr_vertex_xyzc : Z;
  attr_vertex_normal : Z;
  attr_vertex_uv : Z;
  uni_offset : nat;
  uni_scale : nat;
  uni_model_matrix : nat;
  uni_normal_matrix : nat;
  uni_texture_component_flags : nat;
  uni_metallic : nat;
  uni_roughness : nat
}.

(** [let stride = hasUV && hasNormal ? 16 : hasUV || hasNormal ? 12 : 8]. *)
Definition byteStride (m : ModelData) : Z :=
  if truthy (md_hasUV m) && truthy (md_hasNormal m) then 16
  else if truthy (md_hasUV m) || truthy (md_hasNormal m) then 12
  else 8.

(** The first half of the handler that follows [readChunks]: the vertex
    array object of the model, with the objects in [vao], [vertexBuffer]
    and [indexBuffer]. *)
Definition uploadVAO (shader : Shader) (m : ModelData)
    (vao vertexBuffer indexBuffer : nat) : list GLCall :=
  let stride := byteStride m in
  [CreateVertexArray vao; BindVertexArray (Some vao);
   CreateBuffer vertexBuffer; BindBuffer ARRAY_BUFFER vertexBuffer;
   BufferData ARRAY_BUFFER (vertexData m);
   VertexAttribIPointer (attr_vertex_xyzc shader) 2 UNSIGNED_INT stride 0;
   EnableVertexAttribArray (attr_vertex_xyzc shader)]
  ++ (if truthy (md_hasNormal m)
      then [VertexAttribIPointer (attr_vertex_normal shader) 1 UNSIGNED_INT
              stride 8;
            EnableVertexAttribArray (attr_vertex_normal shader)]
      else [DisableVertexAttribArray (attr_vertex_normal shader)])
  ++ (if truthy (md_hasUV m)
      then
        let offset := if truthy (md_hasNormal m) then 12 else 8 in
        [VertexAttribIPointer (attr_vertex_uv shader) 1 UNSIGNED_INT
           stride offset;
         EnableVertexAttribArray (attr_vertex_uv shader)]
      else [DisableVertexAttribArray (attr_vertex_uv shader)])
  ++ [CreateBuffer indexBuffer; BindBuffer ELEMENT_ARRAY_BUFFER indexBuffer;
      BufferData ELEMENT_ARRAY_BUFFER (indexData m);
      BindVertexArray None].

(** The second half: the vertex array object of the depth pass. *)
Definition uploadDepthVAO (depthShader : Shader) (m : ModelData)
    (depthVAO depthVertexBuffer indexBuffer : nat) : list GLCall :=
  let stride := byteStride m in
  [CreateVertexArray depthVAO; BindVertexArray (Some depthVAO);
   CreateBuffer depthVertexBuffer;
   BindBuffer ARRAY_BUFFER depthVertexBuffer;
   BufferData ARRAY_BUFFER (vertexData m);
   VertexAttribIPointer (attr_vertex_xyzc depthShader) 2 UNSIGNED_INT
     stride 0;
   EnableVertexAttribArray (attr_vertex_xyzc depthShader);
   BindBuffer ELEMENT_ARRAY_BUFFER indexBuffer;
   BufferData ELEMENT_ARRAY_BUFFER (indexData m)].

(** The byte ranges of a vertex the attribute pointers of a list of calls
    name: each pointer has [size] components of four bytes from [offset]
    on. *)
Definition attributeSpans (calls : list GLCall) : list (Z * Z) :=
  omap (fun call =>
          match call with
          | VertexAttribIPointer _ size _ _ offset =>
              Some (offset, offset + 4 * size)
          | _ => None
          end) calls.

Definition attributeStrides (calls : list GLCall) : list Z :=
  omap (fun call =>
          match call with
          | VertexAttribIPointer _ _ _ stride _ => Some stride
          | _ => None
          end) calls.

(** Ranges that follow one another without a gap from [from] to [to]. *)
Fixpoint consecutive (from : Z) (spans : list (Z * Z)) (to : Z) : Prop :=
  match spans with
  | [] => from = to
  | (a, b) :: spans => a = from /\ a < b /\ consecutive b spans to
  end.

(** ** The model

    What [loadBOBJ] resolves with, with the two vertex array objects. *)
Record GpuModel : Type := mkGpuModel {
  gm_vao : nat;
  gm_depthVAO : nat;
  gm_data : ModelData
}.

(** The textures of a model: each a texture object, or [null]. *)
Record TextureResource : Type := mkTextureResource {
  tex_albedo : option nat;
  tex_normal : option nat;
  tex_metallic : option nat;
  tex_roughness : option nat
}.

(** The matrices of [Transform] the model hands to the shader. *)
Record Transform : Type := mkTransform {
  tr_matrix : list spec_float;
  tr_normalMatrix : list spec_float
}.

Record Model : Type := mkModel {
  m_shader : Shader;
  m_depthShader : Shader;
  m_modelData : option GpuModel;
  m_textures : TextureResource;
  m_transform : Transform;
  m_metallic : spec_float;
  m_roughness : spec_float;
  m_ao : spec_float
}.

(** The constructor before the load settles: [modelData] is [null],
    [metallic = 0.0], [roughness = 1.0], [ao = 1.0]. *)
Definition newModel (textures : TextureResource) (shader depthShader : Shader)
    (transform : Transform) : Model := {|
  m_shader := shader;
  m_depthShader := depthShader;
  m_modelData := None;
  m_textures := textures;
  m_transform := transform;
  m_metallic := SF_zero;
  m_roughness := SF_one;
  m_ao := SF_one
|}.

(** The handlers the constructor puts on the promise of [loadBOBJ]: a
    resolved load sets [modelData], a rejected one leaves the model as it
    is. *)
Definition settle (model : Model) (vao depthVAO : nat) (s : Settled)
  : Model :=
  match s with
  | Resolved data =>
    mkModel (m_shader model) (m_depthShader model)
      (Some (mkGpuModel vao depthVAO data)) (m_textures model)
      (m_transform model) (m_metallic model) (m_roughness model)
      (m_ao model)
  | Rejected _ => model
  end.

(** [texture && gl.isTexture(texture)], with the answers of [gl.isTexture]
    as a function of the texture object. *)
Definition usable (isTexture : nat -> bool) (texture : option nat) : bool :=
  match texture with
  | Some t => isTexture t
  | None => false
  end.

(** One of the four [if]s of the texture part of [draw]: the calls, and the
    flags with the bit of the texture set. *)
Definition bindIfUsable (isTexture : nat -> bool) (texture : option nat)
    (unit : TextureUnit) (bit : Z) (acc : list GLCall * Z)
  : list GLCall * Z :=
  match texture with
  | Some t =>
    if isTexture t
    then (fst acc ++ [ActiveTexture unit; BindTexture2D t],
          Z.lor (snd acc) bit)
    else acc
  | None => acc
  end.

Definition bindTextures (isTexture : nat -> bool) (textures : TextureResource)
  : list GLCall * Z :=
  let acc := ([], 0) in
  let acc := bindIfUsable isTexture (tex_albedo textures) TEXTURE4 1 acc in
  let acc := bindIfUsable isTexture (tex_normal textures) TEXTURE5 2 acc in
  let acc := bindIfUsable isTexture (tex_metallic textures) TEXTURE6 4 acc in
  bindIfUsable isTexture (tex_roughness textures) TEXTURE7 8 acc.

(** [1.0 / scale]. *)
Definition reciprocal (x : spec_float) : spec_float := SFdiv 53 1024 SF_one x.

(** [Model.draw]. *)
Definition draw (isTexture : nat -> bool) (model : Model) (depthOnly : bool)
  : list GLCall :=
  match m_modelData model with
  | None => []
  | Some gm =>
    let data := gm_data gm in
    (if depthOnly then
       let sh := m_depthShader model in
       [BindVertexArray (Some (gm_depthVAO gm)); UseProgram (sh_program sh);
        Uniform3fv (uni_offset sh) (md_offset data);
        Uniform1f (uni_scale sh) (reciprocal (md_scale data));
        UniformMatrix4fv (uni_model_matrix sh) false
          (tr_matrix (m_transform model))]
     else
       let sh := m_shader model in
       let '(binds, textureFlags) :=
         bindTextures isTexture (m_textures model) in
       [BindVertexArray (Some (gm_vao gm)); UseProgram (sh_program sh)]
       ++ binds
       ++ [Uniform3fv (uni_offset sh) (md_offset data);
           Uniform1f (uni_scale sh) (reciprocal (md_scale data));
           UniformMatrix4fv (uni_model_matrix sh) false
             (tr_matrix (m_transform model));
           UniformMatrix3fv (uni_normal_matrix sh) false
             (tr_normalMatrix (m_transform model));
           Uniform1ui (uni_texture_component_flags sh) textureFlags;
           Uniform1f (uni_metallic sh) (m_metallic model);
           Uniform1f (uni_roughness sh) (m_roughness model)])
    ++ [DrawElementsTriangles (md_indexCount data) (md_indexType data) 0]
  end.

(** The draw calls among a list of calls. *)
Definition isDrawCall (call : GLCall) : bool :=
  match call with
  | DrawElementsTriangles _ _ _ => true
  | _ => false
  end.

Definition touchesTextures (call : GLCall) : bool :=
  match call with
  | ActiveTexture _ | BindTexture2D _ => true
  | _ => false
  end.

(** ** The scene

    [Scene.add] and [Scene.remove] on the array of objects; an object is
    found by identity. [indexOf] is -1 for an object that is not in the
    array, and [splice] counts a negative start from the end. *)
Section SceneObjects.
Context {A : Type} `{EqDecision A}.

Fixpoint indexOfFrom (objects : list A) (obj : A) (i : Z) : Z :=
  match objects with
  | [] => -1
  | x :: objects =>
    if decide (x = obj) then i else indexOfFrom objects obj (i + 1)
  end.

Definition indexOf (objects : list A) (obj : A) : Z :=
  indexOfFrom objects obj 0.

(** [array.splice(start, deleteCount)], the array it leaves. *)
Definition splice (objects : list A) (start deleteCount : Z) : list A :=
  let len := Z.of_nat (length objects) in
  let from := if start <? 0 then Z.max (len + start) 0 else Z.min start len in
  let count := Z.min (Z.max deleteCount 0) (len - from) in
  take (Z.to_nat from) objects ++ drop (Z.to_nat (from + count)) objects.

Definition add (objects : list A) (obj : A) : list A := objects ++ [obj].

Definition remove (objects : list A) (obj : A) : list A :=
  splice objects (indexOf objects obj) 1.
End SceneObjects.

(** [Scene.drawScene]: every object draws, in the order of the array, and
    the lighting after them unless the pass is depth only. *)
Definition drawScene (isTexture : nat -> bool) (objects : list Model)
    (lightingDraw : list GLCall) (depthOnly : bool) : list GLCall :=
  flat_map (fun obj => draw isTexture obj depthOnly) objects
  ++ (if depthOnly then [] else lightingDraw).

(** ** The camera step of [Scene.draw]

    [Math.max] and [Math.min] of two numbers: [NaN] if either is, and of
    the two zeros, +0 is the greater. *)
Definition isNaN (x : spec_float) : bool :=
  match x with
  | S754_nan => true
  | _ => false
  end.

Definition mathMax (a b : spec_float) : spec_float :=
  if isNaN a || isNaN b then S754_nan
  else if SFltb a b then b
  else match a, b with
       | S754_zero true, S754_zero false => b
       | _, _ => a
       end.

Definition mathMin (a b : spec_float) : spec_float :=
  if isNaN a || isNaN b then S754_nan
  else if SFltb b a then b
  else match a, b with
       | S754_zero false, S754_zero true => b
       | _, _ => a
       end.

Definition MAX_VEL : spec_float := SF_one.
Definition ACCEL : spec_float := float64_of_bits 0x3F847AE147AE147B.
Definition MOUSE_SENSITIVITY : spec_float := numberOfZ 2.
Definition Math_PI : spec_float := float64_of_bits 0x400921FB54442D18.

Definition fadd := SFadd 53 1024.
Definition fsub := SFsub 53 1024.
Definition fmul := SFmul 53 1024.
Definition fdiv := SFdiv 53 1024.

(** One component of the velocity:
    [Math.min(MAX_VEL, Math.max(-MAX_VEL,
       vel + (accel - vel) * ACCEL * deltaTime))]. *)
Definition unclampedVelocity (vel accel deltaTime : spec_float)
  : spec_float :=
  fadd vel (fmul (fmul (fsub accel vel) ACCEL) deltaTime).

Definition nextVelocity (vel accel deltaTime : spec_float) : spec_float :=
  mathMin MAX_VEL
    (mathMax (SFopp MAX_VEL) (unclampedVelocity vel accel deltaTime)).

(** The pitch of the camera with the pointer locked:
    [Math.min(Math.PI / 2,
       Math.max(-Math.PI / 2, pitch - dy * MOUSE_SENSITIVITY))]. *)
Definition nextPitch (pitch dy : spec_float) : spec_float :=
  mathMin (fdiv Math_PI (numberOfZ 2))
    (mathMax (fdiv (SFopp Math_PI) (numberOfZ 2))
       (fsub pitch (fmul dy MOUSE_SENSITIVITY))).

(** ** The sample kernel of the constructor of [Scene]

    The length the [i]th sample is scaled to:
    [scale = i / SSAO_KERNEL_SIZE; scale = 0.1 + scale * scale * (1.0 - 0.1)]. *)
Definition SSAO_KERNEL_SIZE : nat := 32.

Definition SF_tenth : spec_float := float64_of_bits 0x3FB999999999999A.

Definition kernelScale (i : nat) : spec_float :=
  let scale :=
    fdiv (numberOfZ (Z.of_nat i)) (numberOfZ (Z.of_nat SSAO_KERNEL_SIZE)) in
  fadd SF_tenth (fmul (fmul scale scale) (fsub SF_one SF_tenth)).

(** ** Sanity of the number model *)

Example float64_one_and_a_half :
  float64_of_bits 0x3FF8000000000000 = SF_1_5.
Proof. reflexivity. Qed.

Example float64_smallest_subnormal :
  float64_of_bits 1 = S754_finite false 1 (-1074).
Proof. reflexivity. Qed.

Example float64_negative_infinity :
  float64_of_bits 0xFFF0000000000000 = S754_infinity true.
Proof. reflexivity. Qed.

Example float32_minus_two :
  float32_of_bits 0xC0000000 = S754_finite true 8388608 (-22).
Proof. reflexivity. Qed.

Example float32_nan : float32_of_bits 0x7FC00000 = S754_nan.
Proof. reflexivity. Qed.

Example six_words_of_stride_three : numberDiv 6 3 = numberOfZ 2.
Proof. reflexivity. Qed.

Example little_endian_word :
  getUint32 (bytesOf [9; 0x78; 0x56; 0x34; 0x12]) 1 = Normal 0x12345678.
Proof. reflexivity. Qed.

Example read_past_the_end :
  getUint32 (bytesOf [9; 0x78; 0x56; 0x34; 0x12]) 2 = Throw RangeError.
Proof. reflexivity. Qed.

Example store_wraps :
  storeElement (Uint8Array [0; 0]) 1 0x1FF = Uint8Array [0; 0xFF].
Proof. reflexivity. Qed.
(** ** Byte sequences and reads

    A read that succeeds in a chunk succeeds alike in a longer one, and a
    read in a chunk without its first [k] bytes is the read [k] bytes
    further on. *)

Lemma byteLength_app (v b : list byte) :
  byteLength (v ++ b) = byteLength v + byteLength b.
Proof. unfold byteLength. rewrite length_app. lia. Qed.

Lemma byteLength_nonneg (v : list byte) : 0 <= byteLength v.
Proof. unfold byteLength. lia. Qed.

Lemma byteLength_drop (v : list byte) (i : nat) :
  byteLength (drop i v) = byteLength v - Z.of_nat (i `min` length v).
Proof. unfold byteLength. rewrite length_drop. lia. Qed.

Lemma inBounds_true (v : list byte) (i : Z) (n : nat) :
  inBounds v i n = true <-> 0 <= i /\ i + Z.of_nat n <= byteLength v.
Proof. unfold inBounds. rewrite andb_true_iff, !Z.leb_le. tauto. Qed.

Lemma getUint_inside (n : nat) (v : list byte) (i : Z) :
  0 <= i -> i + Z.of_nat n <= byteLength v ->
  getUint n v i = Normal (leValue (sliceBytes v i n)).
Proof.
  intros H0 H1. unfold getUint.
  destruct (inBounds v i n) eqn:E; [done|].
  apply not_true_iff_false in E. rewrite inBounds_true in E. lia.
Qed.

Lemma sliceBytes_app (v b : list byte) (i : Z) (n : nat) :
  0 <= i -> i + Z.of_nat n <= byteLength v ->
  sliceBytes (v ++ b) i n = sliceBytes v i n.
Proof.
  unfold sliceBytes, byteLength. intros H0 H1.
  rewrite drop_app_le by lia.
  rewrite take_app_le; [done|]. rewrite length_drop. lia.
Qed.

Lemma sliceBytes_drop (w : list byte) (k : nat) (j : Z) (n : nat) :
  0 <= j -> sliceBytes (drop k w) j n = sliceBytes w (j + Z.of_nat k) n.
Proof.
  unfold sliceBytes. intros H. rewrite drop_drop. do 2 f_equal. lia.
Qed.

Lemma getUint_app (n : nat) (v b : list byte) (i : Z) (x : Z) :
  getUint n v i = Normal x -> getUint n (v ++ b) i = Normal x.
Proof.
  unfold getUint. destruct (inBounds v i n) eqn:E; [|done].
  apply inBounds_true in E as [H0 H1]. intros [= <-].
  assert (inBounds (v ++ b) i n = true) as ->.
  { apply inBounds_true. rewrite byteLength_app.
    pose proof (byteLength_nonneg b). lia. }
  by rewrite sliceBytes_app.
Qed.

Lemma getUint_drop (n : nat) (w : list byte) (k : nat) (j : Z) :
  0 <= j -> (k <= length w)%nat ->
  getUint n (drop k w) j = getUint n w (j + Z.of_nat k).
Proof.
  intros Hj Hk. unfold getUint.
  rewrite sliceBytes_drop by done.
  assert (inBounds (drop k w) j n = inBounds w (j + Z.of_nat k) n) as ->; [|done].
  apply eq_true_iff_eq. rewrite !inBounds_true, byteLength_drop.
  unfold byteLength. lia.
Qed.

Lemma byteLength_app_le (v b : list byte) : byteLength v <= byteLength (v ++ b).
Proof. rewrite byteLength_app. pose proof (byteLength_nonneg b). lia. Qed.

Lemma byteLength_drop_le (w : list byte) (i : nat) :
  (i <= length w)%nat -> byteLength (drop i w) = byteLength w - Z.of_nat i.
Proof. intros H. rewrite byteLength_drop. lia. Qed.

Lemma leValue_nonneg (bs : list byte) : 0 <= leValue bs.
Proof.
  induction bs as [|b bs IH]; simpl; [lia|].
  unfold byteval. lia.
Qed.

Lemma getUint_nonneg (n : nat) (v : list byte) (i x : Z) :
  getUint n v i = Normal x -> 0 <= x.
Proof.
  unfold getUint. destruct (inBounds v i n); [|done].
  intros [= <-]. apply leValue_nonneg.
Qed.

Lemma inState_true (d : Loader) (s : ModelReadState) :
  inState d s = true <-> readState d = s.
Proof. unfold inState. apply bool_decide_eq_true. Qed.

Lemma inState_false (d : Loader) (s : ModelReadState) :
  readState d <> s -> inState d s = false.
Proof. unfold inState. apply bool_decide_eq_false. Qed.

Lemma inState_rank (d : Loader) (s : ModelReadState) :
  rank (readState d) <> rank s -> inState d s = false.
Proof. intros H. apply inState_false. congruence. Qed.

Lemma shiftC_bind (i : nat) (m : Completion Pass) (k k' : Pass -> Completion Pass) :
  (forall d j, m = Normal (d, j) -> k (d, j + Z.of_nat i) = shiftC i (k' (d, j))) ->
  bindC (shiftC i m) k = shiftC i (bindC m k').
Proof. destruct m as [[d j]|e]; simpl; auto. Qed.

(** Splitting a guard into its facts. *)
Ltac split_guard H :=
  repeat match type of H with
  | (_ && _) = true => let H' := fresh H in apply andb_true_iff in H as [H H']; split_guard H'
  | inState _ _ = true => apply inState_true in H
  | (_ >=? _) = true => apply Z.geb_le in H
  end.

Ltac do_reads :=
  repeat match goal with
  | H : context [getUint ?n ?v ?i] |- _ =>
      match type of H with
      | _ = Normal _ =>
        lazymatch type of H with
        | getUint _ _ _ = _ => fail
        | _ =>
          let x := fresh "x" in let E := fresh "E" in
          destruct (getUint n v i) as [x|] eqn:E; simpl in H; [|discriminate H]
        end
      end
  end.

(** ** Every stage is a ranked stage *)

Ltac unfold_stage :=
  unfold onIndexSize, onVertexComponents, onScaleFactor, onModelOffset,
    onVertexCount, onIndexCount, stageIndexSize, stageVertexComponents,
    stageScaleFactor, stageModelOffset, stageVertexCount, stageIndexCount,
    getFloat64, getFloat32, getUint8, getUint16, getUint32 in *.

Tactic Notation "on_guard" hyp(H) ident(G) :=
  match type of H with
  | (if ?g then _ else _) = _ => destruct g eqn:G
  end.

Ltac fired H G := split_guard G; do_reads; injection H as <-.

Ltac use_reads b :=
  repeat match goal with
  | E : getUint _ _ _ = Normal _ |- _ =>
      rewrite (getUint_app _ _ b _ _ E); clear E; simpl
  end.

Ltac ranked_fire_tac :=
  let G := fresh "G" in
  intros v [d j] p' H; unfold prank;
  match type of H with (if ?g then _ else _) = _ => destruct g eqn:G end; [|left; congruence];
  fired H G; right; simpl; rewrite G; simpl; lia.

Ltac ranked_skip_tac :=
  let G := fresh "G" in
  intros v [d j] H; unfold prank in H; simpl in H;
  rewrite inState_rank; done.

Ltac ranked_extend_tac :=
  let G := fresh "G" in
  intros v b [d j] p' H;
  match type of H with (if ?g then _ else _) = _ => destruct g eqn:G end; [|by injection H as <-];
  fired H G; simpl;
  rewrite (proj2 (inState_true _ _) G);
  pose proof (byteLength_app_le v b);
  rewrite (proj2 (Z.geb_le _ _)) by lia; simpl;
  by use_reads b.

Ltac ranked_stuck_tac :=
  let G := fresh "G" in
  intros v [d j] p' H;
  match type of H with (if ?g then _ else _) = _ => destruct g eqn:G end;
  [ fired H G; done
  | injection H as <-; unfold prank; simpl; intros Hr;
    destruct (readState d) eqn:R; try done;
    by rewrite (proj2 (inState_true _ _) R) in G ].

Ltac ranked_trailing_tac :=
  let G := fresh "G" in
  intros v [d j] p' H;
  match type of H with (if ?g then _ else _) = _ => destruct g eqn:G end; [|by injection H as <-];
  fired H G; done.

Ltac inside :=
  repeat match goal with
  | E : getUint ?n ?v ?i = Normal _ |- _ =>
      let B := fresh "B" in
      assert (inBounds v i n = true) as B
        by (unfold getUint in E; destruct (inBounds v i n); done);
      apply inBounds_true in B; apply getUint_nonneg in E
  end.

Ltac ranked_good_tac :=
  let G := fresh "G" in
  intros v [d j] p' H (Hj & Hs & H0 & Hk);
  match type of H with (if ?g then _ else _) = _ => destruct g eqn:G end; [|by injection H as <-];
  fired H G; inside; simpl in *;
  repeat split; simpl; try lia; try done;
  try (rewrite G; done);
  try (unfold sizeKnown in *; simpl in *; intros _; apply Hk; by rewrite G).

Lemma onIndexSize_ranked : Ranked 1 onIndexSize.
Proof.
  split; unfold_stage.
  - ranked_fire_tac.
  - ranked_skip_tac.
  - ranked_extend_tac.
  - intros v [d j] p' H (Hj & Hs & H0 & Hk).
    match type of H with (if ?g then _ else _) = _ => destruct g eqn:G end; [|by injection H as <-].
    fired H G. inside. simpl in *. rewrite (H0 G).
    repeat split; simpl; try lia; try done.
    intros size [= <-]. lia.
  - ranked_stuck_tac.
  - intros; lia.
  - ranked_trailing_tac.
Qed.

Lemma onVertexComponents_ranked : Ranked 2 onVertexComponents.
Proof.
  split; unfold_stage.
  - ranked_fire_tac.
  - ranked_skip_tac.
  - ranked_extend_tac.
  - ranked_good_tac.
  - ranked_stuck_tac.
  - intros; lia.
  - ranked_trailing_tac.
Qed.

Ltac ranked_shift_tac :=
  intros w i d j _ Hi [[Hj _] _]; simpl in Hj;
  rewrite byteLength_drop_le by done;
  replace (byteLength w - (j + Z.of_nat i))
    with (byteLength w - Z.of_nat i - j) by lia;
  match goal with |- (if ?g then _ else _) = _ => destruct g end; [|done];
  rewrite ?getUint_drop by (done || lia);
  repeat match goal with
  | |- context [getUint ?n w (j + ?k + Z.of_nat i)] =>
      replace (j + k + Z.of_nat i) with (j + Z.of_nat i + k) by lia
  end;
  repeat match goal with
  | |- context [getUint ?n w ?k] =>
      destruct (getUint n w k); simpl; [|done]
  end;
  do 2 f_equal; lia.

Lemma onScaleFactor_ranked : Ranked 3 onScaleFactor.
Proof.
  split; unfold_stage.
  - ranked_fire_tac.
  - ranked_skip_tac.
  - ranked_extend_tac.
  - ranked_good_tac.
  - ranked_stuck_tac.
  - ranked_shift_tac.
  - ranked_trailing_tac.
Qed.

Lemma onModelOffset_ranked : Ranked 4 onModelOffset.
Proof.
  split; unfold_stage.
  - ranked_fire_tac.
  - ranked_skip_tac.
  - ranked_extend_tac.
  - ranked_good_tac.
  - ranked_stuck_tac.
  - ranked_shift_tac.
  - ranked_trailing_tac.
Qed.

Lemma onVertexCount_ranked : Ranked 5 onVertexCount.
Proof.
  split; unfold_stage.
  - ranked_fire_tac.
  - ranked_skip_tac.
  - ranked_extend_tac.
  - ranked_good_tac.
  - ranked_stuck_tac.
  - ranked_shift_tac.
  - ranked_trailing_tac.
Qed.

Lemma onIndexCount_ranked : Ranked 6 onIndexCount.
Proof.
  split; unfold_stage.
  - ranked_fire_tac.
  - ranked_skip_tac.
  - ranked_extend_tac.
  - ranked_good_tac.
  - ranked_stuck_tac.
  - ranked_shift_tac.
  - ranked_trailing_tac.
Qed.

Lemma geb_true (n m : Z) : m <= n -> (n >=? m) = true.
Proof. apply Z.geb_le. Qed.

Lemma geb_false (n m : Z) : n < m -> (n >=? m) = false.
Proof. intros H. destruct (Z.geb_spec n m); [lia|done]. Qed.

(** *** The vertex loop *)

(** Fuel above the bound does not change the outcome of the loop, so the
    fuel a pass gives it is never used up and the loop satisfies the
    equation of the [while]. *)
Lemma whileVertexData_fuel (v : list byte) (cs : Z) (n m : nat) (p : Pass) :
  cs - snd p < 4 * Z.of_nat n -> cs - snd p < 4 * Z.of_nat m ->
  whileVertexData v cs n p = whileVertexData v cs m p.
Proof.
  revert m p. induction n as [|n IH]; intros m [d j] Hn Hm; simpl in *.
  - destruct m as [|m]; [done|]. simpl.
    rewrite (geb_false (cs - j)) by lia. by rewrite andb_false_r.
  - destruct m as [|m]; simpl.
    { rewrite (geb_false (cs - j)) by lia. by rewrite andb_false_r. }
    destruct (inState d VertexData && _); [|done].
    destruct (geNumber _ _); [done|].
    destruct (getUint32 v j); simpl; [|done].
    destruct (storeInto _ _ _); simpl; [|done].
    apply IH; simpl; lia.
Qed.

Lemma onVertexData_unfold (v : list byte) (p : Pass) :
  onVertexData v p =
  if vertexGuard v p then vertexTurn v p (onVertexData v) else Normal p.
Proof.
  destruct p as [d j].
  unfold onVertexData at 1, vertexGuard, vertexTurn, vertexFuel. simpl.
  destruct (inState d VertexData && _) eqn:G; [|done].
  apply andb_true_iff in G as [_ G]. apply Z.geb_le in G.
  destruct (geNumber _ _); [done|].
  destruct (getUint32 v j); simpl; [|done].
  destruct (storeInto _ _ _); simpl; [|done].
  unfold onVertexData, vertexFuel.
  apply whileVertexData_fuel; simpl; lia.
Qed.

(** Induction along the turns of the vertex loop. *)
Lemma onVertexData_ind (v : list byte) (P : Pass -> Completion Pass -> Prop) :
  (forall p, vertexGuard v p = false -> P p (Normal p)) ->
  (forall p, vertexGuard v p = true ->
     geNumber (vertexWriteIndex (fst p)) (vertexBufferSize (fst p)) = true ->
     P p (Normal (set_readState IndexData (fst p), snd p))) ->
  (forall p e, vertexGuard v p = true ->
     geNumber (vertexWriteIndex (fst p)) (vertexBufferSize (fst p)) = false ->
     getUint32 v (snd p) = Throw e \/
     (exists vertex, getUint32 v (snd p) = Normal vertex /\
        storeInto (vertices (fst p)) (vertexWriteIndex (fst p)) vertex
          = Throw e) ->
     P p (Throw e)) ->
  (forall p vertex buffer, vertexGuard v p = true ->
     geNumber (vertexWriteIndex (fst p)) (vertexBufferSize (fst p)) = false ->
     getUint32 v (snd p) = Normal vertex ->
     storeInto (vertices (fst p)) (vertexWriteIndex (fst p)) vertex
       = Normal buffer ->
     let p1 := (set_vertexWritten buffer (fst p), snd p + 4) in
     P p1 (onVertexData v p1) -> P p (onVertexData v p1)) ->
  forall p, P p (onVertexData v p).
Proof.
  intros Hstop Hbreak Hthrow Hturn p.
  remember (Z.to_nat (byteLength v - snd p)) as n eqn:Hn.
  revert p Hn. induction (lt_wf n) as [n _ IH]. intros p ->.
  rewrite onVertexData_unfold.
  destruct (vertexGuard v p) eqn:G; [|by apply Hstop].
  unfold vertexTurn.
  destruct (geNumber _ _) eqn:Ge; [by apply Hbreak|].
  destruct (getUint32 v (snd p)) as [vertex|e] eqn:E; simpl.
  2:{ apply Hthrow; try done. by left. }
  destruct (storeInto _ _ _) as [buffer|e] eqn:St; simpl.
  2:{ apply Hthrow; try done. right. by exists vertex. }
  apply (Hturn p vertex buffer); try done.
  eapply IH; [|done]. simpl.
  unfold vertexGuard in G. apply andb_true_iff in G as [_ G].
  apply Z.geb_le in G. lia.
Qed.

Lemma vertexGuard_true (v : list byte) (p : Pass) :
  vertexGuard v p = true <->
  readState (fst p) = VertexData /\ 4 <= byteLength v - snd p.
Proof.
  unfold vertexGuard. by rewrite andb_true_iff, inState_true, Z.geb_le.
Qed.

Lemma vertexGuard_app (v b : list byte) (p : Pass) :
  vertexGuard v p = true -> vertexGuard (v ++ b) p = true.
Proof.
  rewrite !vertexGuard_true. pose proof (byteLength_app_le v b).
  intros [? ?]. split; [done|lia].
Qed.

Lemma onVertexData_skip (v : list byte) (p : Pass) :
  prank p <> 7%nat -> onVertexData v p = Normal p.
Proof.
  intros H. rewrite onVertexData_unfold.
  destruct (vertexGuard v p) eqn:G; [|done].
  apply vertexGuard_true in G as [G _]. unfold prank in H. by rewrite G in H.
Qed.

Lemma onVertexData_ranked : Ranked 7 onVertexData.
Proof.
  split.
  - intros v p. apply (onVertexData_ind v (fun p r => forall p',
      r = Normal p' -> p' = p \/ (prank p = 7 /\ 7 <= prank p')%nat)).
    + intros q _ p' [= <-]. by left.
    + intros q G _ p' [= <-]. apply vertexGuard_true in G as [G _].
      right. unfold prank. simpl. rewrite G. simpl. lia.
    + done.
    + intros q vertex buffer G _ _ _ p1 IH p' H.
      apply vertexGuard_true in G as [G _].
      assert (prank p1 = prank q) as Hp by done.
      assert (prank q = 7%nat) as Hq by (unfold prank; by rewrite G).
      right. split; [done|].
      destruct (IH p' H) as [->|[_ ?]]; [|done]. rewrite Hp, Hq. done.
  - apply onVertexData_skip.
  - intros v b p. apply (onVertexData_ind v (fun p r => forall p',
      r = Normal p' -> onVertexData (v ++ b) p = onVertexData (v ++ b) p')).
    + by intros q _ p' [= <-].
    + intros q G Ge p' [= <-].
      rewrite (onVertexData_skip _ (set_readState _ _, _)) by done.
      rewrite onVertexData_unfold, (vertexGuard_app _ _ _ G).
      unfold vertexTurn. by rewrite Ge.
    + done.
    + intros q vertex buffer G Ge E St p1 IH p' H.
      rewrite <- (IH p' H).
      rewrite onVertexData_unfold, (vertexGuard_app _ _ _ G).
      unfold vertexTurn. rewrite Ge.
      unfold getUint32 in *. rewrite (getUint_app _ _ _ _ _ E). simpl.
      by rewrite St.
  - intros v p. apply (onVertexData_ind v (fun p r => forall p',
      r = Normal p' -> good v p -> good v p')).
    + by intros q _ p' [= <-].
    + intros q G _ p' [= <-] (Hj & Hs & H0 & Hk).
      apply vertexGuard_true in G as [G _].
      repeat split; simpl; try done; try lia;
        first [ by rewrite G
              | unfold sizeKnown in *; simpl; intros _; apply Hk;
                by rewrite G ].
    + done.
    + intros q vertex buffer G _ _ _ p1 IH p' H (Hj & Hs & H0 & Hk).
      apply IH; [done|]. apply vertexGuard_true in G as [G G'].
      repeat split; simpl; try done; try lia;
        first [ by rewrite G
              | unfold sizeKnown in *; simpl; intros _; apply Hk;
                by rewrite G ].
  - intros v p. apply (onVertexData_ind v (fun p r => forall p',
      r = Normal p' -> prank p' = 7%nat -> canAdvance v p' = false)).
    + intros [d j] G p' [= <-] Hr. unfold prank in Hr. simpl in *.
      destruct (readState d) eqn:R; try done.
      unfold vertexGuard in G. simpl in G.
      by rewrite (proj2 (inState_true _ _) R) in G.
    + by intros q _ _ p' [= <-].
    + done.
    + intros q vertex buffer _ _ _ _ p1 IH p' H. by apply IH.
  - intros w i d j _ Hi [[Hj _] _]. simpl in Hj. revert Hj.
    change j with (snd (d, j)) at 1 2. change d with (fst (d, j)) at 2.
    generalize (d, j). clear d j. intros p.
    assert (forall q, 0 <= snd q ->
      vertexGuard w (fst q, snd q + Z.of_nat i) = vertexGuard (drop i w) q)
      as HG.
    { intros q Hq. unfold vertexGuard. simpl.
      rewrite byteLength_drop_le by done. do 2 f_equal. lia. }
    apply (onVertexData_ind (drop i w) (fun p r =>
      0 <= snd p -> onVertexData w (fst p, snd p + Z.of_nat i) = shiftC i r)).
    + intros q G Hq. rewrite onVertexData_unfold, HG, G by done.
      by destruct q.
    + intros q G Ge Hq. rewrite onVertexData_unfold, HG, G by done.
      unfold vertexTurn. simpl. by rewrite Ge.
    + intros q e G Ge Hthrow Hq.
      rewrite onVertexData_unfold, HG, G by done.
      unfold vertexTurn, getUint32 in *. simpl. rewrite Ge.
      rewrite <- getUint_drop by done.
      destruct Hthrow as [->|(vertex & -> & St)]; [done|]. simpl.
      by rewrite St.
    + intros q vertex buffer G Ge E St p1 IH Hq.
      rewrite onVertexData_unfold, HG, G by done.
      unfold vertexTurn, getUint32 in *. simpl. rewrite Ge.
      rewrite <- getUint_drop, E by done. simpl. rewrite St. simpl.
      rewrite <- IH by (simpl; lia). subst p1. simpl. do 2 f_equal. lia.
  - intros v p. apply (onVertexData_ind v (fun p r => forall p',
      r = Normal p' ->
      trailingChunkData (fst p') = trailingChunkData (fst p))).
    + by intros q _ p' [= <-].
    + by intros q _ _ p' [= <-].
    + done.
    + intros q vertex buffer _ _ _ _ p1 IH p' H. by rewrite (IH p' H).
Qed.

(** *** The index loop *)

Lemma indexFuel_afterIndex (buffer : TypedArray) (d : Loader) (j j' : Z) :
  ltNumber (indicesWriteIndex d) (indexCount d) = true ->
  indexFuel (d, j) = S (indexFuel (afterIndex buffer d, j')).
Proof.
  unfold indexFuel, afterIndex, ltNumber. simpl.
  destruct (indexCount d) as [c|] eqn:C; [|done]. intros H%Z.ltb_lt.
  destruct (geNumber _ _); simpl; rewrite C; simpl; lia.
Qed.

(** The same for the index loop: the fuel of a pass is exactly the number of
    indices still to be read. *)
Lemma whileIndexData_fuel (v : list byte) (cs : Z) (n m : nat) (p : Pass) :
  (indexFuel p <= n)%nat -> (indexFuel p <= m)%nat ->
  whileIndexData v cs n p = whileIndexData v cs m p.
Proof.
  revert m p. induction n as [|n IH]; intros m [d j] Hn Hm.
  - destruct m as [|m]; [done|]. simpl.
    destruct (ltNumber _ _) eqn:L; [|by rewrite andb_false_r].
    rewrite (indexFuel_afterIndex (Uint8Array []) d j j L) in Hn. lia.
  - destruct m as [|m]; simpl.
    { destruct (ltNumber _ _) eqn:L; [|by rewrite andb_false_r].
      rewrite (indexFuel_afterIndex (Uint8Array []) d j j L) in Hm. lia. }
    destruct (inState d IndexData && _ && _) eqn:G; [|done].
    apply andb_true_iff in G as [_ L].
    destruct (getIndex _ _ _); simpl; [|done].
    destruct (storeInto _ _ _) as [buffer|]; simpl; [|done].
    pose proof (indexFuel_afterIndex buffer d j
                  (j + default 0 (indexSize d)) L) as HF.
    unfold afterIndex in HF. simpl in HF. apply IH; lia.
Qed.

Lemma onIndexData_unfold (v : list byte) (p : Pass) :
  onIndexData v p =
  if indexGuard v p then indexTurn v p (onIndexData v) else Normal p.
Proof.
  destruct p as [d j]. unfold onIndexData at 1, indexGuard, indexTurn.
  simpl fst; simpl snd.
  destruct (inState d IndexData && _ && _) eqn:G.
  - pose proof G as G'. apply andb_true_iff in G' as [_ L].
    rewrite (indexFuel_afterIndex (Uint8Array []) d j j L). simpl.
    rewrite G.
    destruct (getIndex _ _ _); simpl; [|done].
    destruct (storeInto _ _ _) as [buffer|]; simpl; [|done].
    unfold onIndexData.
    pose proof (indexFuel_afterIndex buffer d j
                  (j + default 0 (indexSize d)) L) as HF.
    pose proof (indexFuel_afterIndex (Uint8Array []) d j j L) as HF'.
    unfold afterIndex in *. apply whileIndexData_fuel; lia.
  - destruct (indexFuel (d, j)); [done|]. simpl. by rewrite G.
Qed.

(** Induction along the turns of the index loop. *)
Lemma onIndexData_ind (v : list byte) (P : Pass -> Completion Pass -> Prop) :
  (forall p, indexGuard v p = false -> P p (Normal p)) ->
  (forall p e, indexGuard v p = true ->
     getIndex v (default 0 (indexSize (fst p))) (snd p) = Throw e \/
     (exists index,
        getIndex v (default 0 (indexSize (fst p))) (snd p) = Normal index /\
        storeInto (indices (fst p)) (indicesWriteIndex (fst p)) index
          = Throw e) ->
     P p (Throw e)) ->
  (forall p index buffer, indexGuard v p = true ->
     getIndex v (default 0 (indexSize (fst p))) (snd p) = Normal index ->
     storeInto (indices (fst p)) (indicesWriteIndex (fst p)) index
       = Normal buffer ->
     let p1 := (afterIndex buffer (fst p),
                snd p + default 0 (indexSize (fst p))) in
     P p1 (onIndexData v p1) -> P p (onIndexData v p1)) ->
  forall p, P p (onIndexData v p).
Proof.
  intros Hstop Hthrow Hturn p.
  remember (indexFuel p) as n eqn:Hn.
  revert p Hn. induction (lt_wf n) as [n _ IH]. intros p ->.
  rewrite onIndexData_unfold.
  destruct (indexGuard v p) eqn:G; [|by apply Hstop].
  unfold indexTurn.
  destruct (getIndex _ _ _) as [index|e] eqn:E; simpl.
  2:{ apply Hthrow; try done. by left. }
  destruct (storeInto _ _ _) as [buffer|e] eqn:St; simpl.
  2:{ apply Hthrow; try done. right. by exists index. }
  apply (Hturn p index buffer); try done.
  eapply IH; [|done].
  unfold indexGuard in G. apply andb_true_iff in G as [_ L].
  destruct p as [d j].
  rewrite (indexFuel_afterIndex buffer d j
             (j + default 0 (indexSize d)) L). simpl. lia.
Qed.

Lemma indexGuard_true (v : list byte) (p : Pass) :
  indexGuard v p = true <->
  readState (fst p) = IndexData /\
  enoughForIndex (byteLength v) (fst p) (snd p) = true /\
  ltNumber (indicesWriteIndex (fst p)) (indexCount (fst p)) = true.
Proof.
  unfold indexGuard. rewrite !andb_true_iff, inState_true. tauto.
Qed.

Lemma enoughForIndex_true (cs : Z) (d : Loader) (j : Z) :
  enoughForIndex cs d j = true <->
  exists size, indexSize d = Some size /\ size <= cs - j.
Proof.
  unfold enoughForIndex. destruct (indexSize d) as [size|].
  - rewrite Z.geb_le. split; [by exists size|]. by intros (? & [= <-] & ?).
  - split; [done|]. by intros (? & ? & ?).
Qed.

Lemma indexGuard_app (v b : list byte) (p : Pass) :
  indexGuard v p = true -> indexGuard (v ++ b) p = true.
Proof.
  rewrite !indexGuard_true, !enoughForIndex_true.
  pose proof (byteLength_app_le v b).
  intros (? & (size & ? & ?) & ?). repeat split; try done.
  exists size. split; [done|lia].
Qed.

Lemma getIndex_app (v b : list byte) (size j x : Z) :
  getIndex v size j = Normal x -> getIndex (v ++ b) size j = Normal x.
Proof.
  unfold getIndex, getUint8, getUint16, getUint32.
  destruct (size =? 1); [|destruct (size =? 2)]; apply getUint_app.
Qed.

Lemma getIndex_drop (w : list byte) (i : nat) (size j : Z) :
  0 <= j -> (i <= length w)%nat ->
  getIndex (drop i w) size j = getIndex w size (j + Z.of_nat i).
Proof.
  intros Hj Hi. unfold getIndex, getUint8, getUint16, getUint32.
  destruct (size =? 1); [|destruct (size =? 2)]; by apply getUint_drop.
Qed.

Lemma onIndexData_skip (v : list byte) (p : Pass) :
  prank p <> 8%nat -> onIndexData v p = Normal p.
Proof.
  intros H. rewrite onIndexData_unfold.
  destruct (indexGuard v p) eqn:G; [|done].
  apply indexGuard_true in G as [G _]. unfold prank in H. by rewrite G in H.
Qed.

Lemma afterIndex_state (buffer : TypedArray) (d : Loader) :
  readState (afterIndex buffer d) = readState d \/
  readState (afterIndex buffer d) = Done.
Proof. unfold afterIndex. simpl. destruct (geNumber _ _); simpl; auto. Qed.

Lemma afterIndex_indexSize (buffer : TypedArray) (d : Loader) :
  indexSize (afterIndex buffer d) = indexSize d.
Proof. unfold afterIndex. simpl. by destruct (geNumber _ _). Qed.

Lemma afterIndex_trailing (buffer : TypedArray) (d : Loader) :
  trailingChunkData (afterIndex buffer d) = trailingChunkData d.
Proof. unfold afterIndex. simpl. by destruct (geNumber _ _). Qed.

Lemma onIndexData_ranked : Ranked 8 onIndexData.
Proof.
  split.
  - intros v p. apply (onIndexData_ind v (fun p r => forall p',
      r = Normal p' -> p' = p \/ (prank p = 8 /\ 8 <= prank p')%nat)).
    + intros q _ p' [= <-]. by left.
    + done.
    + intros q index buffer G _ _ p1 IH p' H.
      apply indexGuard_true in G as [G _].
      assert (prank q = 8%nat) as Hq by (unfold prank; by rewrite G).
      assert (8 <= prank p1)%nat as Hp.
      { unfold prank. simpl.
        destruct (afterIndex_state buffer q.1) as [-> | ->];
          [rewrite G|]; simpl; lia. }
      right. split; [done|].
      destruct (IH p' H) as [->|[_ ?]]; done.
  - apply onIndexData_skip.
  - intros v b p. apply (onIndexData_ind v (fun p r => forall p',
      r = Normal p' -> onIndexData (v ++ b) p = onIndexData (v ++ b) p')).
    + by intros q _ p' [= <-].
    + done.
    + intros q index buffer G E St p1 IH p' H.
      rewrite <- (IH p' H).
      rewrite onIndexData_unfold, (indexGuard_app _ _ _ G).
      unfold indexTurn. rewrite (getIndex_app _ _ _ _ _ E). simpl.
      by rewrite St.
  - intros v p. apply (onIndexData_ind v (fun p r => forall p',
      r = Normal p' -> good v p -> good v p')).
    + by intros q _ p' [= <-].
    + done.
    + intros q index buffer G _ _ p1 IH p' H (Hj & Hs & H0 & Hk).
      apply IH; [done|].
      apply indexGuard_true in G as (G & (size & Hsz & G')%enoughForIndex_true & _).
      pose proof (Hs size Hsz). subst p1.
      repeat split; simpl; rewrite ?afterIndex_indexSize, ?Hsz;
        simpl; try done; try lia.
      * unfold sizeOk. by rewrite afterIndex_indexSize.
      * destruct (afterIndex_state buffer q.1) as [-> | ->];
          [by rewrite G|done].
      * unfold sizeKnown. rewrite afterIndex_indexSize. by rewrite Hsz.
  - intros v p. apply (onIndexData_ind v (fun p r => forall p',
      r = Normal p' -> prank p' = 8%nat -> canAdvance v p' = false)).
    + intros [d j] G p' [= <-] Hr. unfold prank in Hr. simpl in *.
      destruct (readState d) eqn:R; try done.
      unfold indexGuard in G. simpl in G.
      by rewrite (proj2 (inState_true _ _) R) in G.
    + done.
    + intros q index buffer _ _ _ p1 IH p' H. by apply IH.
  - intros w i d j _ Hi Hgood.
    cut (forall p, good (drop i w) p ->
           onIndexData w (fst p, snd p + Z.of_nat i)
           = shiftC i (onIndexData (drop i w) p)).
    { intros Hall. exact (Hall (d, j) Hgood). }
    clear d j Hgood. intros p.
    assert (forall q, 0 <= snd q ->
      indexGuard w (fst q, snd q + Z.of_nat i) = indexGuard (drop i w) q)
      as HG.
    { intros q Hq. unfold indexGuard, enoughForIndex. simpl.
      rewrite byteLength_drop_le by done.
      destruct (indexSize q.1); [|done]. do 3 f_equal. lia. }
    apply (onIndexData_ind (drop i w) (fun p r =>
      good (drop i w) p ->
      onIndexData w (fst p, snd p + Z.of_nat i) = shiftC i r)).
    + intros q G ((Hq & _) & _). rewrite onIndexData_unfold, HG, G by done.
      by destruct q.
    + intros q e G Hthrow ((Hq & _) & _).
      rewrite onIndexData_unfold, HG, G by done.
      unfold indexTurn. simpl.
      rewrite <- getIndex_drop by done.
      destruct Hthrow as [->|(index & -> & St)]; [done|]. simpl.
      by rewrite St.
    + intros q index buffer G E St p1 IH ((Hq & Hq') & Hs & H0 & Hk).
      rewrite onIndexData_unfold, HG, G by done.
      unfold indexTurn. simpl.
      rewrite <- getIndex_drop, E by done. simpl. rewrite St. simpl.
      apply indexGuard_true in G as (G & (size & Hsz & G')%enoughForIndex_true & _).
      pose proof (Hs size Hsz).
      rewrite <- IH.
      * subst p1. simpl. do 2 f_equal. lia.
      * subst p1. repeat split; simpl; rewrite ?afterIndex_indexSize, ?Hsz;
          simpl; try done; try lia.
        -- unfold sizeOk. by rewrite afterIndex_indexSize.
        -- destruct (afterIndex_state buffer q.1) as [-> | ->];
             [by rewrite G|done].
        -- unfold sizeKnown. rewrite afterIndex_indexSize. by rewrite Hsz.
  - intros v p. apply (onIndexData_ind v (fun p r => forall p',
      r = Normal p' ->
      trailingChunkData (fst p') = trailingChunkData (fst p))).
    + by intros q _ p' [= <-].
    + done.
    + intros q index buffer _ _ _ p1 IH p' H. rewrite (IH p' H).
      apply afterIndex_trailing.
Qed.

(** *** The pipeline *)

Lemma ascending_above (k : nat) (l : list (nat * Stage)) :
  ascending k l -> Forall (fun rf => (k < fst rf)%nat) l.
Proof.
  revert k. induction l as [|[r f] l IH]; intros k; simpl; [done|].
  intros [Hk Hl]. constructor; [done|].
  eapply Forall_impl; [by apply IH|]. simpl. intros; lia.
Qed.

Lemma stageList_ranked : AllRanked stageList.
Proof.
  unfold AllRanked, stageList, headerStages, payloadStages. simpl.
  repeat (apply Forall_cons; split); simpl; [..|by apply Forall_nil].
  - apply onIndexSize_ranked.
  - apply onVertexComponents_ranked.
  - apply onScaleFactor_ranked.
  - apply onModelOffset_ranked.
  - apply onVertexCount_ranked.
  - apply onIndexCount_ranked.
  - apply onVertexData_ranked.
  - apply onIndexData_ranked.
Qed.

Lemma stageList_ascending : ascending 0 stageList.
Proof. simpl. lia. Qed.

Lemma bindC_Normal_r {A : Type} (m : Completion A) :
  bindC m Normal = m.
Proof. by destruct m. Qed.

(** The pass of the source is the pipeline of its eight stages. *)
Lemma stages_runStages (v : list byte) (p : Pass) :
  stages v (byteLength v) p = runStages stageList v p.
Proof.
  unfold stages, stageList, headerStages, payloadStages, onIndexSize,
    onVertexComponents, onScaleFactor, onModelOffset, onVertexCount,
    onIndexCount, onVertexData, onIndexData.
  cbn [runStages app].
  repeat match goal with
  | |- bindC ?m _ = bindC ?m _ => destruct m; cbn [bindC]; [|reflexivity]
  end.
  symmetry. apply bindC_Normal_r.
Qed.


(** No stage of the list belongs to the read state: nothing happens. *)
Lemma runStages_skip (l : list (nat * Stage)) (v : list byte) (p : Pass) :
  AllRanked l -> Forall (fun rf => prank p <> fst rf) l ->
  runStages l v p = Normal p.
Proof.
  induction l as [|[r f] l IH]; simpl; [done|].
  intros [Hf Hl]%Forall_cons [Hr Hrs]%Forall_cons. simpl in *.
  rewrite (ranked_skip _ _ Hf) by done. simpl. by apply IH.
Qed.

(** The read state only moves forward, and a pass that changed anything
    ends at or behind the stage that did. *)
Lemma runStages_fire (l : list (nat * Stage)) (v : list byte) (p p' : Pass) :
  AllRanked l -> runStages l v p = Normal p' ->
  (prank p <= prank p')%nat /\
  (p' = p \/ Exists (fun rf => (fst rf <= prank p')%nat) l).
Proof.
  revert p. induction l as [|[r f] l IH]; simpl; intros p.
  { intros _ [= <-]. split; [done|by left]. }
  intros [Hf Hl]%Forall_cons H. simpl in *.
  destruct (f v p) as [p1|] eqn:E; simpl in H; [|done].
  destruct (IH p1 Hl H) as [Hm Hx].
  destruct (ranked_fire _ _ Hf _ _ _ E) as [->|[Hr Hr']].
  - split; [done|]. destruct Hx as [->|Hx]; [by left|].
    right. by apply Exists_cons_tl.
  - split; [lia|]. right. apply Exists_cons_hd. simpl. lia.
Qed.

Lemma runStages_good (l : list (nat * Stage)) (v : list byte) (p p' : Pass) :
  AllRanked l -> runStages l v p = Normal p' -> good v p -> good v p'.
Proof.
  revert p. induction l as [|[r f] l IH]; simpl; intros p.
  { by intros _ [= <-]. }
  intros [Hf Hl]%Forall_cons H Hg. simpl in *.
  destruct (f v p) as [p1|] eqn:E; simpl in H; [|done].
  apply (IH p1 Hl H). by apply (ranked_good _ _ Hf _ _ _ E).
Qed.

Lemma runStages_trailing (l : list (nat * Stage)) (v : list byte) (p p' : Pass) :
  AllRanked l -> runStages l v p = Normal p' ->
  trailingChunkData (fst p') = trailingChunkData (fst p).
Proof.
  revert p. induction l as [|[r f] l IH]; simpl; intros p.
  { by intros _ [= <-]. }
  intros [Hf Hl]%Forall_cons H. simpl in *.
  destruct (f v p) as [p1|] eqn:E; simpl in H; [|done].
  rewrite (IH p1 Hl H). by apply (ranked_trailing _ _ Hf _ _ _ E).
Qed.

(** Where a pass ends, the guard of the stage of that read state is
    false. *)
Lemma runStages_stuck (l : list (nat * Stage)) (k : nat) (v : list byte) (p p' : Pass) :
  AllRanked l -> ascending k l -> runStages l v p = Normal p' ->
  Exists (fun rf => prank p' = fst rf) l -> canAdvance v p' = false.
Proof.
  revert k p. induction l as [|[r f] l IH]; simpl; intros k p.
  { by intros _ _ _ H%Exists_nil. }
  intros [Hf Hl]%Forall_cons [Hk Ha] H Hx. simpl in *.
  destruct (f v p) as [p1|] eqn:E; simpl in H; [|done].
  apply Exists_cons in Hx as [Hx|Hx]; [|by eapply IH]. simpl in Hx.
  destruct (runStages_fire l v p1 p' Hl H) as [_ [->|Hy]].
  - by apply (ranked_stuck _ _ Hf _ _ _ E).
  - apply ascending_above in Ha.
    apply Exists_exists in Hy as ([r' f'] & Hin & Hle).
    rewrite Forall_forall in Ha. specialize (Ha _ Hin). simpl in *. lia.
Qed.

(** Over a longer chunk the pass does what it did over the shorter one and
    goes on from there. *)
Lemma runStages_extend (l : list (nat * Stage)) (k : nat) (v b : list byte)
    (p p' : Pass) :
  AllRanked l -> ascending k l -> runStages l v p = Normal p' ->
  runStages l (v ++ b) p = runStages l (v ++ b) p'.
Proof.
  revert k p. induction l as [|[r f] l IH]; simpl; intros k p.
  { by intros _ _ [= <-]. }
  intros [Hf Hl]%Forall_cons [Hk Ha] H. simpl in *.
  destruct (f v p) as [p1|] eqn:E; simpl in H; [|done].
  rewrite (ranked_extend _ _ Hf _ b _ _ E).
  pose proof (ascending_above _ _ Ha) as Hab.
  destruct (decide (prank p1 = r)) as [Hr|Hr].
  - rewrite runStages_skip in H; [by injection H as <-|done|].
    eapply Forall_impl; [exact Hab|]. simpl. intros; lia.
  - rewrite (ranked_skip _ _ Hf _ _ Hr). simpl.
    rewrite (IH r p1 Hl Ha H).
    destruct (runStages_fire l v p1 p' Hl H) as [Hm Hx].
    rewrite (ranked_skip _ _ Hf (v ++ b) p'); [done|].
    destruct Hx as [->|Hx]; [done|].
    apply Exists_exists in Hx as ([r' f'] & Hin & Hle).
    rewrite Forall_forall in Hab. specialize (Hab _ Hin). simpl in *. lia.
Qed.

(** Past the first two stages a pass sees only the bytes from [readIndex]
    on. *)
Lemma runStages_shift (l : list (nat * Stage)) (w : list byte) (i : nat)
    (d : Loader) (j : Z) :
  AllRanked l -> Forall (fun rf => (3 <= fst rf)%nat) l ->
  (i <= length w)%nat -> good (drop i w) (d, j) ->
  runStages l w (d, j + Z.of_nat i)
  = shiftC i (runStages l (drop i w) (d, j)).
Proof.
  intros Hl H3 Hi. revert d j.
  induction l as [|[r f] l IH]; simpl; intros d j Hg; [done|].
  apply Forall_cons in Hl as [Hf Hl]. apply Forall_cons in H3 as [Hr H3].
  simpl in *.
  rewrite (ranked_shift _ _ Hf) by done.
  apply shiftC_bind. intros d1 j1 E. apply IH; try done.
  by apply (ranked_good _ _ Hf _ _ _ E).
Qed.

Lemma shiftC_0 (m : Completion Pass) : shiftC 0 m = m.
Proof. destruct m as [[d j]|]; simpl; [|done]. do 2 f_equal. lia. Qed.

Lemma canAdvance_early (v : list byte) (p : Pass) :
  (prank p < 3)%nat -> canAdvance v p = false -> byteLength v = 0.
Proof.
  destruct p as [d j]. unfold prank, canAdvance. simpl.
  pose proof (byteLength_nonneg v).
  destruct (readState d); simpl; try lia;
    intros _; destruct (Z.geb_spec (byteLength v) 1); try done; lia.
Qed.

(** A pass over a longer chunk: what the pass over the shorter chunk did,
    then a fresh pass over what that one left and the added bytes. *)
Lemma runStages_app (v b : list byte) (d d' : Loader) (i' : Z) :
  sizeOk d -> sizeKnown d ->
  runStages stageList v (d, 0) = Normal (d', i') ->
  0 <= i' <= byteLength v /\
  runStages stageList (v ++ b) (d, 0)
  = shiftC (Z.to_nat i')
      (runStages stageList (drop (Z.to_nat i') v ++ b) (d', 0)).
Proof.
  intros Hs Hk H.
  assert (good v (d, 0)) as Hg.
  { repeat split; simpl; try done. apply byteLength_nonneg. }
  pose proof (runStages_good _ _ _ _ stageList_ranked H Hg)
    as ((Hi & Hi') & Hs' & H0' & Hk').
  simpl in Hi, Hi', Hs', H0'. split; [done|].
  rewrite (runStages_extend _ _ _ b _ _ stageList_ranked
             stageList_ascending H).
  destruct (decide (prank (d', i') < 3)%nat) as [Hr|Hr].
  - assert (canAdvance v (d', i') = false) as Hc.
    { apply (runStages_stuck _ _ _ _ _ stageList_ranked
               stageList_ascending H).
      unfold stageList, headerStages. simpl.
      unfold prank in *. simpl in *.
      destruct (readState d'); simpl in *; try lia;
        [apply Exists_cons_hd | apply Exists_cons_tl, Exists_cons_hd]; done. }
    pose proof (canAdvance_early _ _ Hr Hc).
    assert (i' = 0) as -> by lia. simpl. by rewrite shiftC_0.
  - assert (forall u q, (3 <= prank q)%nat ->
        runStages stageList u q = runStages (drop 2 stageList) u q) as Hdrop.
    { intros u q Hq. unfold stageList, headerStages. cbn [app drop runStages].
      rewrite (ranked_skip _ _ onIndexSize_ranked) by lia. cbn [bindC].
      rewrite (ranked_skip _ _ onVertexComponents_ranked) by lia. done. }
    rewrite !Hdrop by (unfold prank in *; simpl in *; lia).
    rewrite <- (drop_app_le v b) by (unfold byteLength in *; lia).
    rewrite <- runStages_shift.
    + do 2 f_equal. lia.
    + pose proof stageList_ranked as Hall.
      do 2 (apply Forall_cons in Hall as [_ Hall]). exact Hall.
    + unfold stageList, headerStages, payloadStages. simpl.
      repeat (apply Forall_cons; split); simpl; try lia. by apply Forall_nil.
    + rewrite length_app. unfold byteLength in *. lia.
    + repeat split; simpl; try done.
      apply byteLength_nonneg.
Qed.

(** *** Passes over a whole chunk *)

Lemma set_trailing_None (d : Loader) :
  trailingChunkData d = None -> set_trailingChunkData None d = d.
Proof. destruct d. simpl. by intros ->. Qed.

Lemma mergeTrailing_wf (d : Loader) (a : list byte) :
  trailingChunkData d <> Some [] ->
  mergeTrailing d a = (set_trailingChunkData None d, carry d ++ a).
Proof.
  unfold mergeTrailing, carry. intros H.
  destruct (trailingChunkData d) as [[|x t]|] eqn:T; simpl; try done.
  by rewrite set_trailing_None.
Qed.

Lemma appendChunks_pass (d : Loader) (a : list byte) :
  trailingChunkData d <> Some [] ->
  appendChunks d a =
  let v := carry d ++ a in
  let! p := runStages stageList v (set_trailingChunkData None d, 0) in
  Normal (keepTrailing v p).
Proof.
  intros H. unfold appendChunks. rewrite (mergeTrailing_wf _ _ H).
  by rewrite stages_runStages.
Qed.

Lemma keepTrailing_carry (v : list byte) (d : Loader) (i : Z) :
  0 <= i <= byteLength v -> trailingChunkData d = None ->
  carry (keepTrailing v (d, i)) = drop (Z.to_nat i) v /\
  set_trailingChunkData None (keepTrailing v (d, i)) = d /\
  trailingChunkData (keepTrailing v (d, i)) <> Some [].
Proof.
  intros Hi Hd. unfold keepTrailing, carry.
  destruct (Z.ltb_spec i (byteLength v)) as [Hlt|Hge]; simpl.
  - repeat split.
    + destruct d; simpl in *. by subst.
    + intros [= E]. apply (f_equal length) in E.
      rewrite length_drop in E. unfold byteLength in *. simpl in E. lia.
  - rewrite Hd. simpl. repeat split; try done.
    + rewrite drop_ge; [done|]. unfold byteLength in *. lia.
    + by apply set_trailing_None.
Qed.

Lemma keepTrailing_shift (v b : list byte) (i : nat) (d : Loader) (j : Z) :
  (i <= length v)%nat -> 0 <= j ->
  keepTrailing (v ++ b) (d, j + Z.of_nat i)
  = keepTrailing (drop i v ++ b) (d, j).
Proof.
  intros Hi Hj. unfold keepTrailing.
  rewrite <- (drop_app_le v b) by done.
  rewrite byteLength_drop_le by (rewrite length_app; lia).
  rewrite drop_drop.
  replace (Z.to_nat (j + Z.of_nat i)) with (i + Z.to_nat j)%nat by lia.
  destruct (Z.ltb_spec (j + Z.of_nat i) (byteLength (v ++ b)));
    destruct (Z.ltb_spec j (byteLength (v ++ b) - Z.of_nat i));
    try done; lia.
Qed.

Lemma appendChunks_inv (d d1 : Loader) (a : list byte) :
  wellFormed d -> appendChunks d a = Normal d1 ->
  exists d' i',
    runStages stageList (carry d ++ a) (set_trailingChunkData None d, 0)
      = Normal (d', i') /\
    good (carry d ++ a) (d', i') /\
    trailingChunkData d' = None /\
    d1 = keepTrailing (carry d ++ a) (d', i').
Proof.
  intros (Hs & Ht & Hk) H. rewrite appendChunks_pass in H by done.
  cbn zeta in H.
  destruct (runStages stageList (carry d ++ a)
              (set_trailingChunkData None d, 0))
    as [[d' i']|] eqn:E; cbn [bindC] in H; [|done].
  injection H as <-. exists d', i'.
  assert (good (carry d ++ a) (set_trailingChunkData None d, 0)) as Hg.
  { repeat split; simpl; try done. apply byteLength_nonneg. }
  split; [done|]. split; [|split; [|done]].
  - by apply (runStages_good _ _ _ _ stageList_ranked E).
  - by apply (runStages_trailing _ _ _ _ stageList_ranked E).
Qed.

Lemma appendChunks_wellFormed (d d1 : Loader) (a : list byte) :
  wellFormed d -> appendChunks d a = Normal d1 -> wellFormed d1.
Proof.
  intros Hwf H.
  destruct (appendChunks_inv _ _ _ Hwf H)
    as (d' & i' & E & (Hi & Hs & _ & Hk) & Ht & ->).
  simpl in Hi, Hs.
  destruct (keepTrailing_carry _ _ _ Hi Ht) as (_ & _ & Ht').
  split; [|split; [done|]];
    unfold keepTrailing; by destruct (_ <? _).
Qed.

(** A chunk delivered in two pieces is decoded as if delivered in one. *)
Lemma appendChunks_app (d d1 : Loader) (a b : list byte) :
  wellFormed d -> appendChunks d a = Normal d1 ->
  appendChunks d (a ++ b) = appendChunks d1 b.
Proof.
  intros Hwf H.
  pose proof (appendChunks_wellFormed _ _ _ Hwf H) as (Hs1 & Ht1 & Hk1).
  destruct (appendChunks_inv _ _ _ Hwf H)
    as (d' & i' & E & (Hi & Hs & _ & Hk) & Ht & ->).
  simpl in Hi, Hs, Hk. destruct Hwf as (Hs0 & Ht0 & Hk0).
  destruct (keepTrailing_carry _ _ _ Hi Ht) as (Hc & Hd & _).
  rewrite !appendChunks_pass by done. cbn zeta.
  rewrite Hc, Hd, app_assoc.
  destruct (runStages_app _ b (set_trailingChunkData None d) _ _ Hs0 Hk0 E)
    as [_ ->].
  set (i := Z.to_nat i'). set (v := carry d ++ a) in *.
  destruct (runStages stageList (drop i v ++ b) (d', 0))
    as [[d2 j2]|] eqn:E2; cbn [bindC shiftC]; [|done].
  f_equal. apply keepTrailing_shift.
  - unfold byteLength in *. lia.
  - assert (good (drop i v ++ b) (d', 0)) as Hg.
    { repeat split; simpl; try done. apply byteLength_nonneg. }
    by destruct (runStages_good _ _ _ _ stageList_ranked E2 Hg) as ((? & _) & _).
Qed.

(** *** Runs over several chunks *)

Lemma initialLoader_wellFormed : wellFormed initialLoader.
Proof.
  split; [|split].
  - by intros size.
  - done.
  - by intros H.
Qed.

Lemma feedChunks_wellFormed (chunks : list (list byte)) (d d' : Loader) :
  wellFormed d -> feedChunks d chunks = Normal d' -> wellFormed d'.
Proof.
  revert d. induction chunks as [|c chunks IH]; simpl; intros d Hwf H.
  { by injection H as <-. }
  destruct (appendChunks d c) as [d1|] eqn:E; simpl in H; [|done].
  apply (IH d1); [|done]. by apply (appendChunks_wellFormed d d1 c).
Qed.


Lemma feedChunks_snoc (chunks : list (list byte)) (c : list byte)
    (d : Loader) :
  feedChunks d (chunks ++ [c])
  = let! d1 := feedChunks d chunks in appendChunks d1 c.
Proof.
  revert d. induction chunks as [|c0 chunks IH]; simpl; intros d.
  { by rewrite bindC_Normal_r. }
  destruct (appendChunks d c0) as [d1|]; simpl; [|done]. apply IH.
Qed.

(** A run that completes ends in the state one pass over all the bytes ends
    in. *)
Lemma feedChunks_concat (chunks : list (list byte)) (c : list byte)
    (d d' : Loader) :
  wellFormed d -> feedChunks d (c :: chunks) = Normal d' ->
  appendChunks d (c ++ concat chunks) = Normal d'.
Proof.
  revert c d. induction chunks as [|c2 chunks IH]; intros c d Hwf H.
  - simpl in *. rewrite app_nil_r.
    by destruct (appendChunks d c) as [d1|]; simpl in H.
  - change (feedChunks d (c :: c2 :: chunks))
      with (let! d1 := appendChunks d c in feedChunks d1 (c2 :: chunks)) in H.
    destruct (appendChunks d c) as [d1|] eqn:E; cbn [bindC] in H; [|done].
    cbn [concat]. rewrite (appendChunks_app d d1 c _ Hwf E).
    apply IH; [|done]. by apply (appendChunks_wellFormed d d1 c).
Qed.

Lemma readChunk_feedChunks (reader : list (list byte)) (d d' : Loader)
    (log log' : ReadLog) :
  readChunk reader d log = Normal (d', log') ->
  feedChunks d reader = Normal d' /\
  length log' = S (length log + length reader) /\
  last log' = Some (readState d').
Proof.
  revert d log. induction reader as [|c reader IH]; simpl; intros d log H.
  - injection H as <- <-. rewrite length_app, last_snoc. simpl.
    repeat split; try done; lia.
  - destruct (appendChunks d c) as [d1|]; simpl in *; [|done].
    destruct (IH _ _ H) as (? & Hl & ?). rewrite length_app in Hl.
    simpl in Hl. repeat split; try done; lia.
Qed.


(** The chunking cannot change a result, only prevent it: a run over any
    chunks that completes ends in the state the pass over their
    concatenation, delivered as one chunk, ends in. *)
Lemma completed_run_is_single_pass (chunks : list (list byte)) (d : Loader) :
  feedChunks initialLoader chunks = Normal d ->
  appendChunks initialLoader (concat chunks) = Normal d.
Proof.
  destruct chunks as [|c chunks].
  - intros [= <-]. reflexivity.
  - apply feedChunks_concat, initialLoader_wellFormed.
Qed.


(** *** What a header stage does when it fires *)

Lemma inState_eq (d : Loader) (s : ModelReadState) :
  readState d = s -> inState d s = true.
Proof. apply inState_true. Qed.

Lemma onIndexSize_fires (v : list byte) (d : Loader) (j : Z) :
  readState d = IndexSize -> 1 <= byteLength v ->
  onIndexSize v (d, j)
  = Normal (set_indexSize (fieldAt v 0 1)
              (set_readState VertexComponents d), j + 1).
Proof.
  intros HS Hv. unfold_stage.
  rewrite (inState_eq _ _ HS), geb_true by done. cbn [andb].
  by rewrite getUint_inside by (simpl; lia).
Qed.

Lemma onVertexComponents_fires (v : list byte) (d : Loader) (j : Z) :
  readState d = VertexComponents -> 0 <= j -> j + 1 <= byteLength v ->
  onVertexComponents v (d, j)
  = Normal (set_components (negb (Z.land (fieldAt v j 1) 4 =? 0))
              (negb (Z.land (fieldAt v j 1) 2 =? 0))
              (negb (Z.land (fieldAt v j 1) 1 =? 0))
              (set_readState ScaleFactor d), j + 1).
Proof.
  intros HS Hj Hv. unfold_stage.
  rewrite (inState_eq _ _ HS), geb_true by lia. cbn [andb].
  by rewrite getUint_inside by (simpl; lia).
Qed.

Lemma onScaleFactor_fires (v : list byte) (d : Loader) (j : Z) :
  readState d = ScaleFactor -> 0 <= j -> 8 <= byteLength v - j ->
  onScaleFactor v (d, j)
  = Normal (set_scale (float64_of_bits (fieldAt v j 8))
              (set_readState ModelOffset d), j + 8).
Proof.
  intros HS Hj Hv. unfold_stage.
  rewrite (inState_eq _ _ HS), geb_true by lia. cbn [andb].
  by rewrite getUint_inside by (simpl; lia).
Qed.

Lemma onModelOffset_fires (v : list byte) (d : Loader) (j : Z) :
  readState d = ModelOffset -> 0 <= j -> 12 <= byteLength v - j ->
  onModelOffset v (d, j)
  = Normal (set_offset (float32_of_bits (fieldAt v j 4),
                        float32_of_bits (fieldAt v (j + 4) 4),
                        float32_of_bits (fieldAt v (j + 8) 4))
              (set_readState VertexCount d), j + 12).
Proof.
  intros HS Hj Hv. unfold_stage.
  rewrite (inState_eq _ _ HS), geb_true by lia. cbn [andb].
  by rewrite !getUint_inside by (simpl; lia).
Qed.

Lemma onVertexCount_fires (v : list byte) (d : Loader) (j : Z) :
  readState d = VertexCount -> 0 <= j -> 4 <= byteLength v - j ->
  onVertexCount v (d, j)
  = Normal (set_vertexBuffer (fieldAt v j 4)
              (numberDiv (fieldAt v j 4) (stride d))
              (set_readState IndexCount d), j + 4).
Proof.
  intros HS Hj Hv. unfold_stage.
  rewrite (inState_eq _ _ HS), geb_true by lia. cbn [andb].
  by rewrite getUint_inside by (simpl; lia).
Qed.

Lemma onIndexCount_fires (v : list byte) (d : Loader) (j : Z) :
  readState d = IndexCount -> 0 <= j -> 4 <= byteLength v - j ->
  onIndexCount v (d, j)
  = Normal (set_indexBuffer (fieldAt v j 4) (numberDiv (fieldAt v j 4) 3)
              (newIndices (indexSize d) (fieldAt v j 4))
              (set_readState VertexData d), j + 4).
Proof.
  intros HS Hj Hv. unfold_stage.
  rewrite (inState_eq _ _ HS), geb_true by lia. cbn [andb].
  by rewrite getUint_inside by (simpl; lia).
Qed.

(** *** The header stages on a chunk that holds the whole header *)

Lemma header_pass (c : list byte) :
  30 <= byteLength c ->
  runStages headerStages c (initialLoader, 0) = Normal (headerLoader c, 30).
Proof.
  intros Hc. unfold headerStages. cbn [runStages].
  rewrite onIndexSize_fires by (done || lia). cbn [bindC].
  rewrite onVertexComponents_fires by (done || lia). cbn [bindC].
  rewrite onScaleFactor_fires by (done || lia). cbn [bindC].
  rewrite onModelOffset_fires by (done || lia). cbn [bindC].
  rewrite onVertexCount_fires by (done || lia). cbn [bindC].
  rewrite onIndexCount_fires by (done || lia). cbn [bindC].
  reflexivity.
Qed.

(** *** The header stays as read *)

Lemma storeElement_width (a : TypedArray) (i x : Z) :
  bytesPerElement (storeElement a i x) = bytesPerElement a.
Proof. by destruct a. Qed.

Lemma onVertexData_header (v : list byte) (p p' : Pass) :
  onVertexData v p = Normal p' -> headerFields (fst p') = headerFields (fst p).
Proof.
  revert p'. apply (onVertexData_ind v (fun p r => forall p',
    r = Normal p' -> headerFields (fst p') = headerFields (fst p))).
  - by intros q _ p' [= <-].
  - by intros q _ _ p' [= <-].
  - done.
  - intros q vertex buffer _ _ _ _ p1 IH p' H. by rewrite (IH p' H).
Qed.

Lemma onIndexData_header (v : list byte) (p p' : Pass) :
  onIndexData v p = Normal p' -> headerFields (fst p') = headerFields (fst p).
Proof.
  revert p'. apply (onIndexData_ind v (fun p r => forall p',
    r = Normal p' -> headerFields (fst p') = headerFields (fst p))).
  - by intros q _ p' [= <-].
  - done.
  - intros [d j] index buffer _ _ St p1 IH p' H. rewrite (IH p' H).
    subst p1. unfold headerFields, afterIndex. cbn [fst] in *.
    unfold storeInto in St. destruct (indices d) as [a|] eqn:Ia; [|done].
    injection St as <-.
    destruct (geNumber _ _); simpl; by rewrite storeElement_width.
Qed.

Lemma payload_header (v : list byte) (p p' : Pass) :
  (7 <= prank p)%nat -> runStages stageList v p = Normal p' ->
  headerFields (fst p') = headerFields (fst p) /\ (7 <= prank p')%nat.
Proof.
  intros Hr H.
  pose proof (runStages_fire _ _ _ _ stageList_ranked H) as [Hm _].
  split; [|lia].
  unfold stageList, headerStages, payloadStages in H.
  cbn [app runStages] in H.
  rewrite (ranked_skip _ _ onIndexSize_ranked) in H by lia.
  cbn [bindC] in H.
  rewrite (ranked_skip _ _ onVertexComponents_ranked) in H by lia.
  cbn [bindC] in H.
  rewrite (ranked_skip _ _ onScaleFactor_ranked) in H by lia.
  cbn [bindC] in H.
  rewrite (ranked_skip _ _ onModelOffset_ranked) in H by lia.
  cbn [bindC] in H.
  rewrite (ranked_skip _ _ onVertexCount_ranked) in H by lia.
  cbn [bindC] in H.
  rewrite (ranked_skip _ _ onIndexCount_ranked) in H by lia.
  cbn [bindC] in H.
  destruct (onVertexData v p) as [p1|] eqn:E1; cbn [bindC] in H; [|done].
  destruct (onIndexData v p1) as [p2|] eqn:E2; cbn [bindC] in H; [|done].
  injection H as <-.
  by rewrite (onIndexData_header _ _ _ E2), (onVertexData_header _ _ _ E1).
Qed.

Lemma keepTrailing_header (v : list byte) (p : Pass) :
  headerFields (keepTrailing v p) = headerFields (fst p) /\
  readState (keepTrailing v p) = readState (fst p).
Proof. destruct p as [d j]. unfold keepTrailing. by destruct (_ <? _). Qed.

Lemma appendChunks_header (d d' : Loader) (value : list byte) :
  wellFormed d -> (7 <= rank (readState d))%nat ->
  appendChunks d value = Normal d' ->
  headerFields d' = headerFields d /\ (7 <= rank (readState d'))%nat.
Proof.
  intros Hwf Hr H.
  destruct (appendChunks_inv _ _ _ Hwf H) as (d1 & i1 & E & _ & _ & ->).
  destruct (payload_header _ (set_trailingChunkData None d, 0) _ Hr E)
    as [Hh Hr1].
  destruct (keepTrailing_header (carry d ++ value) (d1, i1)) as [-> ->].
  by rewrite Hh.
Qed.

Lemma feedChunks_header (chunks : list (list byte)) (d d' : Loader) :
  wellFormed d -> (7 <= rank (readState d))%nat ->
  feedChunks d chunks = Normal d' -> headerFields d' = headerFields d.
Proof.
  revert d. induction chunks as [|c chunks IH]; simpl; intros d Hwf Hr H.
  { by injection H as <-. }
  destruct (appendChunks d c) as [d1|] eqn:E; simpl in H; [|done].
  destruct (appendChunks_header _ _ _ Hwf Hr E) as [<- Hr1].
  apply IH; try done. by apply (appendChunks_wellFormed d d1 c).
Qed.

(** A first chunk that holds the whole header: the loader after the pass
    has the header fields the header stages read. *)
Lemma first_chunk_header (c : list byte) (d : Loader) :
  30 <= byteLength c -> appendChunks initialLoader c = Normal d ->
  headerFields d = headerFields (headerLoader c) /\
  (7 <= rank (readState d))%nat.
Proof.
  intros Hc H.
  destruct (appendChunks_inv _ _ _ initialLoader_wellFormed H)
    as (d1 & i1 & E & _ & _ & ->).
  destruct (keepTrailing_header (carry initialLoader ++ c) (d1, i1))
    as [-> ->]. cbn [fst].
  change (carry initialLoader ++ c) with c in E.
  change (set_trailingChunkData None initialLoader) with initialLoader in E.
  unfold stageList in E.
  assert (forall l1 l2 v p, runStages (l1 ++ l2) v p
                            = let! q := runStages l1 v p in runStages l2 v q)
    as Happ.
  { induction l1 as [|[r f] l1 IH]; intros l2 v p; cbn [app runStages];
      [done|].
    destruct (f v p); cbn [bindC]; [apply IH|done]. }
  rewrite Happ, (header_pass c Hc) in E. cbn [bindC] in E.
  unfold payloadStages in E. cbn [runStages] in E.
  destruct (onVertexData c (headerLoader c, 30)) as [p1|] eqn:E1;
    cbn [bindC] in E; [|done].
  destruct (onIndexData c p1) as [p2|] eqn:E2; cbn [bindC] in E; [|done].
  injection E as ->.
  pose proof (onIndexData_header _ _ _ E2) as H2.
  pose proof (onVertexData_header _ _ _ E1) as H1.
  cbn [fst] in H1, H2. rewrite H2, H1.
  split; [done|].
  assert (7 <= prank p1)%nat as Hp1.
  { by destruct (ranked_fire _ _ onVertexData_ranked _ _ _ E1)
      as [->|[_ ?]]. }
  assert (prank p1 <= prank (d1, i1))%nat as Hp2.
  { destruct (ranked_fire _ _ onIndexData_ranked _ _ _ E2)
      as [Hq|[Ha Hb]]; [by rewrite Hq|]. rewrite Ha. exact Hb. }
  unfold prank in *. cbn [fst] in *. lia.
Qed.

Lemma land_pow2_testbit (m k : Z) :
  0 <= k -> negb (Z.land m (2 ^ k) =? 0) = Z.testbit m k.
Proof.
  intros Hk. destruct (Z.testbit m k) eqn:T.
  - apply negb_true_iff, Z.eqb_neq. intros H0.
    assert (Z.testbit (Z.land m (2 ^ k)) k = true) as Hb
      by (by rewrite Z.land_spec, T, Z.pow2_bits_true).
    rewrite H0, Z.bits_0 in Hb. done.
  - apply negb_false_iff, Z.eqb_eq, Z.bits_inj'. intros n Hn.
    rewrite Z.land_spec, Z.bits_0, Z.pow2_bits_eqb by done.
    destruct (Z.eqb_spec k n) as [->|]; [by rewrite T|].
    by rewrite andb_false_r.
Qed.

Lemma land_1_testbit (m : Z) : negb (Z.land m 1 =? 0) = Z.testbit m 0.
Proof. exact (land_pow2_testbit m 0 (Z.le_refl 0)). Qed.

Lemma land_2_testbit (m : Z) : negb (Z.land m 2 =? 0) = Z.testbit m 1.
Proof. apply (land_pow2_testbit m 1). lia. Qed.

Lemma land_4_testbit (m : Z) : negb (Z.land m 4 =? 0) = Z.testbit m 2.
Proof. apply (land_pow2_testbit m 2). lia. Qed.

Lemma headerLoader_wire (c : list byte) :
  let d := headerLoader c in
  let h := wireHeader c in
  indexSize d = Some (wh_indexWidth h) /\
  hasUV d = Some (wh_hasUV h) /\
  hasNormal d = Some (wh_hasNormal h) /\
  hasColor d = Some (wh_hasColor h) /\
  scale d = wh_scale h /\
  offset d = wh_offset h /\
  vertexBufferSize d = Some (wh_vertexWordCount h) /\
  indexCount d = Some (wh_indexCount h) /\
  vertexCount d
  = Some (numberDiv (wh_vertexWordCount h) (wireStride h)) /\
  triangleCount d = Some (numberDiv (wh_indexCount h) 3).
Proof.
  unfold headerLoader, wireHeader, wireStride.
  cbn [indexSize hasUV hasNormal hasColor scale offset vertexBufferSize
       indexCount vertexCount triangleCount wh_indexWidth wh_hasUV
       wh_hasNormal wh_hasColor wh_scale wh_offset wh_vertexWordCount
       wh_indexCount].
  rewrite !land_1_testbit, !land_2_testbit, !land_4_testbit.
  repeat split.
  by destruct (Z.testbit _ 0), (Z.testbit _ 1).
Qed.

Lemma newIndices_fallback (size count : Z) :
  size <> 1 -> size <> 2 ->
  newIndices (Some size) count = Uint32Array (zeros count) /\
  indexTypeOf (Some size) = UNSIGNED_INT.
Proof.
  intros H1 H2. unfold newIndices, indexTypeOf.
  destruct size as [|[p|p|]|p]; try done; by destruct p.
Qed.

(** *** The words the vertex loop stores *)

Lemma byteval_bound (b : byte) : 0 <= byteval b < 256.
Proof.
  unfold byteval. pose proof (Byte.to_N_bounded b). lia.
Qed.

Lemma leValue_bound (bs : list byte) :
  0 <= leValue bs < 256 ^ Z.of_nat (length bs).
Proof.
  induction bs as [|b bs IH]; [simpl; lia|].
  cbn [leValue foldr length]. fold (leValue bs).
  rewrite Nat2Z.inj_succ, Z.pow_succ_r by lia.
  pose proof (byteval_bound b). lia.
Qed.

Lemma fieldAt_bound (v : list byte) (j : Z) (n : nat) :
  0 <= fieldAt v j n < 256 ^ Z.of_nat n.
Proof.
  unfold fieldAt. pose proof (leValue_bound (sliceBytes v j n)) as H.
  assert (length (sliceBytes v j n) <= n)%nat as Hl.
  { unfold sliceBytes. rewrite length_take. lia. }
  split; [lia|]. eapply Z.lt_le_trans; [apply H|].
  apply Z.pow_le_mono_r; lia.
Qed.


Lemma wordsFrom_length (v : list byte) (j : Z) (k : nat) :
  length (wordsFrom v j k) = k.
Proof. unfold wordsFrom. by rewrite length_map, length_seq. Qed.



Lemma runStages_append (l1 l2 : list (nat * Stage)) (v : list byte)
    (p : Pass) :
  runStages (l1 ++ l2) v p
  = let! q := runStages l1 v p in runStages l2 v q.
Proof.
  revert p. induction l1 as [|[r f] l1 IH]; intros p; cbn [app runStages];
    [done|].
  destruct (f v p); cbn [bindC]; [apply IH|done].
Qed.




(** *** The header stages never throw but on a one-byte chunk *)

Ltac header_total_tac :=
  let G := fresh "G" in
  intros v [d j] [Hj Hr] Hv; unfold prank in Hr; simpl in Hj, Hr;
  unfold_stage;
  match goal with
  | |- exists _, (if ?g then _ else _) = _ /\ _ => destruct g eqn:G
  end;
  [ split_guard G; rewrite G in Hj; simpl in Hj; subst j;
    rewrite ?getUint_inside by (simpl; lia); simpl;
    eexists; split; [reflexivity|]; split; unfold prank; simpl; (done || lia)
  | eexists; split; [reflexivity|]; split; unfold prank; simpl; (done || lia) ].

Lemma onIndexSize_total :
  forall v p, aligned p -> byteLength v <> 1 ->
  exists p', onIndexSize v p = Normal p' /\ aligned p'.
Proof. header_total_tac. Qed.

Lemma onVertexComponents_total :
  forall v p, aligned p -> byteLength v <> 1 ->
  exists p', onVertexComponents v p = Normal p' /\ aligned p'.
Proof. header_total_tac. Qed.

Lemma onScaleFactor_total :
  forall v p, aligned p -> byteLength v <> 1 ->
  exists p', onScaleFactor v p = Normal p' /\ aligned p'.
Proof. header_total_tac. Qed.

Lemma onModelOffset_total :
  forall v p, aligned p -> byteLength v <> 1 ->
  exists p', onModelOffset v p = Normal p' /\ aligned p'.
Proof. header_total_tac. Qed.

Lemma onVertexCount_total :
  forall v p, aligned p -> byteLength v <> 1 ->
  exists p', onVertexCount v p = Normal p' /\ aligned p'.
Proof. header_total_tac. Qed.

Lemma onIndexCount_total :
  forall v p, aligned p -> byteLength v <> 1 ->
  exists p', onIndexCount v p = Normal p' /\ aligned p'.
Proof. header_total_tac. Qed.

Lemma headerStages_total (v : list byte) :
  byteLength v <> 1 ->
  exists p, runStages headerStages v (initialLoader, 0) = Normal p /\
            aligned p.
Proof.
  intros Hv. unfold headerStages. cbn [runStages].
  assert (aligned (initialLoader, 0)) as H0
    by (split; unfold prank; simpl; (done || lia)).
  destruct (onIndexSize_total v _ H0 Hv) as (p1 & -> & H1). cbn [bindC].
  destruct (onVertexComponents_total v _ H1 Hv) as (p2 & -> & H2).
  cbn [bindC].
  destruct (onScaleFactor_total v _ H2 Hv) as (p3 & -> & H3). cbn [bindC].
  destruct (onModelOffset_total v _ H3 Hv) as (p4 & -> & H4). cbn [bindC].
  destruct (onVertexCount_total v _ H4 Hv) as (p5 & -> & H5). cbn [bindC].
  destruct (onIndexCount_total v _ H5 Hv) as (p6 & -> & H6). cbn [bindC].
  by exists p6.
Qed.

Lemma headerStages_ranked : AllRanked headerStages.
Proof.
  pose proof stageList_ranked as H. unfold stageList, AllRanked in H.
  by apply Forall_app in H as [H _].
Qed.

Lemma payloadStages_ranked : AllRanked payloadStages.
Proof.
  pose proof stageList_ranked as H. unfold stageList, AllRanked in H.
  by apply Forall_app in H as [_ H].
Qed.

Lemma good_initial (v : list byte) : good v (initialLoader, 0).
Proof.
  split; [|split; [|split]]; simpl.
  - split; [done|apply byteLength_nonneg].
  - by intros size.
  - done.
  - by intros H.
Qed.

(** A pass over fewer than 30 bytes stays in the header and completes,
    unless it is over one byte. *)
Lemma short_pass (v : list byte) :
  byteLength v <> 1 -> byteLength v < 30 ->
  exists d, appendChunks initialLoader v = Normal d.
Proof.
  intros Hv Hs. rewrite appendChunks_pass by done.
  change (carry initialLoader ++ v) with v.
  change (set_trailingChunkData None initialLoader) with initialLoader.
  cbn zeta. unfold stageList. rewrite runStages_append.
  destruct (headerStages_total v Hv) as ([d j] & E & Hj & Hr).
  rewrite E. cbn [bindC].
  pose proof (runStages_good _ _ _ _ headerStages_ranked E (good_initial v))
    as ((_ & Hle) & _).
  simpl in Hj, Hle. unfold prank in Hr. simpl in Hr.
  rewrite runStages_skip; [by eexists| |].
  - apply payloadStages_ranked.
  - unfold payloadStages, prank. simpl.
    destruct (readState d); simpl in *;
      repeat (apply Forall_cons; split); simpl; try lia; by apply Forall_nil.
Qed.


(** When the pass over every prefix of the chunk list completes, the run
    over the chunks is the pass over all their bytes. *)
Lemma feedChunks_by_prefixes (chunks : list (list byte)) :
  (forall i, (i <= length chunks)%nat ->
     exists d, appendChunks initialLoader (concat (take i chunks))
               = Normal d) ->
  feedChunks initialLoader chunks
  = appendChunks initialLoader (concat chunks).
Proof.
  induction chunks as [|c chunks IH] using rev_ind; intros H; [done|].
  rewrite feedChunks_snoc, IH.
  - destruct (H (length chunks)) as [d0 E].
    { rewrite length_app. lia. }
    rewrite take_app_length in E. rewrite E. cbn [bindC].
    rewrite concat_app. cbn [concat]. rewrite app_nil_r.
    symmetry. by apply appendChunks_app, E; apply initialLoader_wellFormed.
  - intros i Hi. destruct (H i) as [d E].
    { rewrite length_app. lia. }
    exists d. by rewrite take_app_le in E.
Qed.

Lemma firstChunkOk_prefix (chunks : list (list byte)) (i : nat) :
  firstChunkOk chunks -> byteLength (concat (take i chunks)) <> 1.
Proof.
  revert i. induction chunks as [|c chunks IH]; intros i H.
  { by rewrite take_nil. }
  destruct i as [|i]; [done|]. cbn [take concat].
  destruct c as [|x [|y c]]; cbn [firstChunkOk] in H.
  - by apply IH.
  - done.
  - unfold byteLength. simpl. lia.
Qed.

Lemma concat_take_drop (chunks : list (list byte)) (i : nat) :
  concat chunks = concat (take i chunks) ++ concat (drop i chunks).
Proof. by rewrite <- concat_app, take_drop. Qed.

(** *** Chunkings of a stream that decode alike *)

Lemma onVertexData_total (v : list byte) (p : Pass) :
  0 <= snd p -> is_Some (vertices (fst p)) ->
  exists p', onVertexData v p = Normal p'.
Proof.
  apply (onVertexData_ind v (fun p r =>
    0 <= snd p -> is_Some (vertices (fst p)) -> exists p', r = Normal p')).
  - intros q _ _ _. by eexists.
  - intros q _ _ _ _. by eexists.
  - intros q e G _ Hthrow Hj [a Ha].
    apply vertexGuard_true in G as [_ G].
    destruct Hthrow as [E|(vertex & _ & St)].
    + unfold getUint32 in E. by rewrite getUint_inside in E by (simpl; lia).
    + by rewrite Ha in St.
  - intros q vertex buffer _ _ _ _ p1 IH Hj _.
    apply IH; simpl; [lia|by eexists].
Qed.

Lemma getIndex_inside (v : list byte) (size j : Z) :
  safeSize size -> 0 <= j -> size <= byteLength v - j ->
  exists index, getIndex v size j = Normal index.
Proof.
  intros Hs Hj Hv. unfold getIndex, getUint8, getUint16, getUint32.
  destruct (Z.eqb_spec size 1); [|destruct (Z.eqb_spec size 2)];
    (rewrite getUint_inside; [by eexists|done|simpl]);
    unfold safeSize in Hs; lia.
Qed.

Lemma onIndexData_total (v : list byte) (p : Pass) :
  0 <= snd p -> is_Some (indices (fst p)) ->
  (forall size, indexSize (fst p) = Some size -> safeSize size) ->
  exists p', onIndexData v p = Normal p'.
Proof.
  apply (onIndexData_ind v (fun p r =>
    0 <= snd p -> is_Some (indices (fst p)) ->
    (forall size, indexSize (fst p) = Some size -> safeSize size) ->
    exists p', r = Normal p')).
  - intros q _ _ _ _. by eexists.
  - intros q e G Hthrow Hj [a Ha] Hs.
    apply indexGuard_true
      in G as (_ & (size & Hsz & G)%enoughForIndex_true & _).
    rewrite Hsz in Hthrow. simpl in Hthrow.
    destruct (getIndex_inside v size _ (Hs _ Hsz) Hj G) as [index E].
    destruct Hthrow as [E'|(index' & _ & St)]; [congruence|].
    by rewrite Ha in St.
  - intros q index buffer G _ _ p1 IH Hj _ Hs.
    apply indexGuard_true
      in G as (_ & (size & Hsz & G)%enoughForIndex_true & _).
    assert (0 <= size) by (specialize (Hs _ Hsz); unfold safeSize in Hs; lia).
    apply IH; subst p1; cbn [fst snd].
    + rewrite Hsz. simpl. lia.
    + unfold afterIndex. destruct (geNumber _ _); by eexists.
    + by rewrite afterIndex_indexSize.
Qed.

(** A pass from the initial state over at least 30 bytes completes when the
    index size is safe. *)
Lemma long_pass (v : list byte) :
  30 <= byteLength v -> safeSize (fieldAt v 0 1) ->
  exists d, appendChunks initialLoader v = Normal d.
Proof.
  intros Hv Hs. rewrite appendChunks_pass by done.
  change (carry initialLoader ++ v) with v.
  change (set_trailingChunkData None initialLoader) with initialLoader.
  cbn zeta. unfold stageList.
  rewrite runStages_append, (header_pass v Hv). cbn [bindC].
  unfold payloadStages. cbn [runStages].
  destruct (onVertexData_total v (headerLoader v, 30)) as [p1 E1];
    [simpl; lia|by eexists|].
  rewrite E1. cbn [bindC].
  pose proof (onVertexData_header _ _ _ E1) as Hh. unfold headerFields in Hh.
  injection Hh as Hsz _ _ _ _ _ _ _ _ _ Hw. cbn [fst headerLoader] in Hsz, Hw.
  assert (good v (headerLoader v, 30)) as Hg.
  { repeat split; simpl; try done; try lia. intros size [= <-].
    pose proof (fieldAt_bound v 0 1). lia. }
  pose proof (ranked_good _ _ onVertexData_ranked _ _ _ E1 Hg)
    as ((Hj & _) & _).
  destruct (onIndexData_total v p1) as [p2 E2].
  - done.
  - destruct (indices p1.1); [by eexists|done].
  - intros size. rewrite Hsz. by intros [= <-].
  - rewrite E2. cbn [bindC]. by eexists.
Qed.

(** However a stream with a safe index size is cut into chunks, the first
    chunk that is not empty holding more than one byte, the run completes
    and ends in the state the pass over the whole stream ends in. *)
Theorem chunked_run_is_single_pass (chunks : list (list byte)) :
  firstChunkOk chunks ->
  safeSize (fieldAt (concat chunks) 0 1) ->
  exists d, feedChunks initialLoader chunks = Normal d /\
            appendChunks initialLoader (concat chunks) = Normal d.
Proof.
  intros Hok Hs.
  assert (forall i, exists d,
            appendChunks initialLoader (concat (take i chunks)) = Normal d)
    as Hpre.
  { intros i.
    pose proof (firstChunkOk_prefix chunks i Hok) as H1.
    destruct (Z.lt_ge_cases (byteLength (concat (take i chunks))) 30)
      as [Hlt|Hge]; [by apply short_pass|].
    apply long_pass; [done|].
    rewrite (concat_take_drop chunks i) in Hs. unfold fieldAt in *.
    by rewrite sliceBytes_app in Hs by (simpl; lia). }
  rewrite feedChunks_by_prefixes by (intros i _; apply Hpre).
  destruct (Hpre (length chunks)) as [d E]. rewrite firstn_all in E.
  by exists d.
Qed.



(** ** The statements of the specification, one by one *)

(** C1, on the code — the six-index stream decodes in one chunk, with every
    vertex word and index in place; cut into one-byte chunks, or just after
    its first byte, the same bytes make the pass over the first chunk throw
    a [RangeError]: the flags stage tests [chunkSize >= 1] where its
    siblings test [chunkSize - readIndex], and reads the byte at offset 1 of
    a one-byte chunk. *)
Theorem one_byte_first_chunk_throws :
  loadBOBJ (delivered [sixIndexStream])
    = Resolved (scenarioData [0; 1; 0; 0; 1; 0]) /\
  loadBOBJ (delivered (byteChunks sixIndexStream)) = Rejected RangeError /\
  loadBOBJ (delivered [take 1 sixIndexStream; drop 1 sixIndexStream])
    = Rejected RangeError.
Proof. repeat split; vm_compute; reflexivity. Qed.




(** C3, on the code — the scenario stream resolves with the expected vertex
    words, index type, scale and offset, but with the indices 0,0,0: the
    three index bytes stay in the kept tail. That holds for the one-chunk
    delivery, for the cut at bytes 10 and 24 and for the payload in one-byte
    chunks behind the header; the delivery of the whole stream in one-byte
    chunks is rejected. *)
Theorem scenario_indices_stay_zero :
  loadBOBJ (delivered [scenarioStream]) = Resolved (scenarioData [0; 0; 0]) /\
  loadBOBJ (delivered (cutAt 10 24 scenarioStream))
    = Resolved (scenarioData [0; 0; 0]) /\
  loadBOBJ (delivered (scenarioHeader :: byteChunks scenarioPayload))
    = Resolved (scenarioData [0; 0; 0]) /\
  loadBOBJ (delivered (byteChunks scenarioStream)) = Rejected RangeError /\
  readState afterScenario = VertexData /\
  carry afterScenario = bytesOf [0; 1; 0].
Proof. repeat split; vm_compute; reflexivity. Qed.

(** C4, on the code — the vertex loop tests for the full buffer only inside
    a turn, and a turn needs four bytes. With every declared vertex word
    written and fewer than four bytes left, the two payload loops leave the
    pass as it is, in [VertexData]; only with four bytes or more left does
    the pass switch to [IndexData] and run the index loop on the same
    bytes. *)
Theorem vertex_stage_waits_for_four_bytes (v : list byte) (d : Loader)
    (readIndex : Z) :
  readState d = VertexData ->
  geNumber (vertexWriteIndex d) (vertexBufferSize d) = true ->
  (byteLength v - readIndex < 4 ->
   runStages payloadStages v (d, readIndex) = Normal (d, readIndex)) /\
  (4 <= byteLength v - readIndex ->
   runStages payloadStages v (d, readIndex)
   = onIndexData v (set_readState IndexData d, readIndex)).
Proof.
  intros HS Hfull. unfold payloadStages. cbn [runStages].
  rewrite onVertexData_unfold. unfold vertexGuard, vertexTurn.
  cbn [fst snd]. rewrite (proj2 (inState_true _ _) HS), Hfull. cbn [andb].
  split; intros Hb.
  - rewrite (geb_false _ _ Hb). cbn [bindC].
    rewrite onIndexData_skip; [done|]. unfold prank. simpl. by rewrite HS.
  - rewrite (geb_true _ _ Hb). cbn [bindC]. apply bindC_Normal_r.
Qed.

Lemma vertex_stage_waits_for_four_bytes_witness :
  readState afterScenario = VertexData /\
  vertexWriteIndex afterScenario = 6 /\
  vertexBufferSize afterScenario = Some 6 /\
  byteLength scenarioStream - 54 = 3 /\
  runStages payloadStages scenarioStream
    (set_trailingChunkData None afterScenario, 54)
  = Normal (set_trailingChunkData None afterScenario, 54).
Proof.
  do 4 (split; [reflexivity|]).
  refine (proj1 (vertex_stage_waits_for_four_bytes scenarioStream
                   (set_trailingChunkData None afterScenario) 54
                   eq_refl eq_refl) _).
  vm_compute. reflexivity.
Defined.

(** C5, as the code has it — an index size byte other than 1 and 2 raises
    nothing: on a first chunk that holds the header the header stages
    complete, the index array is allocated with 32-bit elements, and a load
    that resolves reports [UNSIGNED_INT] and hands over a 32-bit index
    array. *)
Theorem unknown_index_size_falls_back (c : list byte) :
  30 <= byteLength c ->
  fieldAt c 0 1 <> 1 -> fieldAt c 0 1 <> 2 ->
  (exists d,
     runStages headerStages c (initialLoader, 0) = Normal (d, 30) /\
     readState d = VertexData /\
     indexSize d = Some (fieldAt c 0 1) /\
     indices d = Some (Uint32Array (zeros (fieldAt c 26 4)))) /\
  (forall rest m,
     loadBOBJ (delivered (c :: rest)) = Resolved m ->
     md_indexType m = UNSIGNED_INT /\
     option_map bytesPerElement (indexData m) = Some 4).
Proof.
  intros Hc H1 H2.
  destruct (newIndices_fallback _ (fieldAt c 26 4) H1 H2) as [Hn Ht].
  split.
  - exists (headerLoader c). rewrite (header_pass c Hc).
    repeat split. unfold headerLoader. cbn [indices]. by rewrite Hn.
  - intros rest m H. unfold loadBOBJ, readChunks in H. simpl in H.
    destruct (appendChunks initialLoader c) as [d1|] eqn:E1;
      simpl in H; [|done].
    destruct (readChunk rest d1 _) as [[d log]|] eqn:E2; [|done].
    injection H as <-.
    destruct (readChunk_feedChunks _ _ _ _ _ E2) as (Hf & _ & _).
    destruct (first_chunk_header c d1 Hc E1) as [Hh Hr].
    pose proof (feedChunks_header rest d1 d
                  (appendChunks_wellFormed _ _ _ initialLoader_wellFormed E1)
                  Hr Hf) as Hh'.
    rewrite Hh in Hh'. unfold headerFields in Hh'.
    injection Hh' as Ei _ _ _ _ _ _ _ _ _ Ew.
    unfold modelDataOf. cbn [md_indexType indexData].
    rewrite Ei, Ew. unfold headerLoader. cbn [indexSize indices].
    unfold newIndices in Hn. by rewrite Ht, Hn.
Qed.

Lemma unknown_index_size_falls_back_witness :
  30 <= byteLength widthSevenStream /\
  exists d,
    runStages headerStages widthSevenStream (initialLoader, 0)
      = Normal (d, 30)
    /\ indexSize d = Some 7 /\ indices d = Some (Uint32Array [0]).
Proof.
  assert (30 <= byteLength widthSevenStream) as Hc
    by (vm_compute; discriminate).
  assert (fieldAt widthSevenStream 0 1 <> 1) as H1
    by (vm_compute; discriminate).
  assert (fieldAt widthSevenStream 0 1 <> 2) as H2
    by (vm_compute; discriminate).
  split; [exact Hc|].
  destruct (unknown_index_size_falls_back widthSevenStream Hc H1 H2)
    as [(d & Hrun & _ & Hs & Hi) _].
  exists d. repeat split; [exact Hrun| |].
  - rewrite Hs. vm_compute. reflexivity.
  - rewrite Hi. vm_compute. reflexivity.
Defined.

(** C5, counterexample — a stream whose first byte is 7 is not rejected:
    the load resolves, with the one index read as a 32-bit value. *)
Lemma width_seven_resolves :
  fieldAt widthSevenStream 0 1 = 7 /\
  (exists m, loadBOBJ (delivered [widthSevenStream]) = Resolved m /\
             indexData m = Some (Uint32Array [5]) /\
             md_indexType m = UNSIGNED_INT) /\
  forall e, loadBOBJ (delivered [widthSevenStream]) <> Rejected e.
Proof.
  split; [vm_compute; reflexivity|]. split.
  - eexists. vm_compute. repeat split.
  - intros e. vm_compute. discriminate.
Qed.




(** C7, as the code has it — the loader never looks at [Done] before it
    reads on: a load that completes has issued one [reader.read()] per
    delivered chunk and one more that met the end of the stream, the last of
    them in the state the load resolves from; and a chunk that arrives in
    state [Done] changes nothing but the kept tail, which grows by it. *)
Theorem reads_until_end_of_stream (chunks : list (list byte)) (d : Loader)
    (log : ReadLog) :
  readChunks (delivered chunks) = Normal (d, log) ->
  length log = S (length chunks) /\
  last log = Some (readState d) /\
  loadBOBJ (delivered chunks) = Resolved (modelDataOf d) /\
  forall value, readState d = Done ->
    appendChunks d value
    = Normal (if 0 <? byteLength (carry d ++ value)
              then set_trailingChunkData (Some (carry d ++ value)) d
              else d).
Proof.
  intros H. unfold loadBOBJ. rewrite H. unfold readChunks in H. simpl in H.
  destruct (readChunk_feedChunks _ _ _ _ _ H) as (Hf & Hl & Hlast).
  repeat split; try done.
  intros value HD.
  assert (wellFormed d) as (_ & Ht & _).
  { by apply (feedChunks_wellFormed chunks initialLoader d
                initialLoader_wellFormed). }
  rewrite appendChunks_pass by done. cbn zeta.
  rewrite runStages_skip.
  - cbn [bindC]. unfold keepTrailing. f_equal.
    destruct (Z.ltb_spec 0 (byteLength (carry d ++ value))) as [Hlt|Hge];
      [done|].
    apply set_trailing_None.
    unfold byteLength, carry in Hge. rewrite length_app in Hge.
    destruct (trailingChunkData d) as [[|x t]|]; simpl in Hge; try done; lia.
  - apply stageList_ranked.
  - unfold prank. simpl. rewrite HD. simpl.
    unfold stageList, headerStages, payloadStages. simpl.
    repeat (apply Forall_cons; split); simpl; try lia. by apply Forall_nil.
Qed.

Lemma reads_until_end_of_stream_witness :
  readChunks (delivered [scenarioStream ++ bytesOf [9]; bytesOf [7]])
  = Normal (set_trailingChunkData (Some (bytesOf [9; 7])) afterScenarioAndOne,
            [IndexSize; Done; Done]) /\
  length [IndexSize; Done; Done] = 3%nat /\
  loadBOBJ (delivered [scenarioStream ++ bytesOf [9]; bytesOf [7]])
  = Resolved (modelDataOf afterScenarioAndOne).
Proof.
  assert (readChunks (delivered [scenarioStream ++ bytesOf [9]; bytesOf [7]])
          = Normal (set_trailingChunkData (Some (bytesOf [9; 7]))
                      afterScenarioAndOne,
                    [IndexSize; Done; Done])) as H
    by (vm_compute; reflexivity).
  destruct (reads_until_end_of_stream _ _ _ H) as (Hl & _ & Hload & _).
  split; [exact H|]. split; [exact Hl | exact Hload].
Defined.

(** C7, counterexample — the scenario stream with one more byte behind it
    reaches [Done] inside the first chunk; the loader then reads twice
    more in state [Done], taking a second chunk and then the end of the
    stream. *)
Lemma reads_issued_in_Done :
  exists d log,
    readChunks (delivered [scenarioStream ++ bytesOf [9]; bytesOf [7]])
    = Normal (d, log) /\
    log = [IndexSize; Done; Done] /\
    log !! 1%nat = Some Done /\ log !! 2%nat = Some Done /\
    readState d = Done /\ carry d = bytesOf [9; 7].
Proof. eexists _, _. vm_compute. repeat split. Qed.

(** C8 — when the first chunk holds the 30 header bytes, the six header
    stages complete at offset 30 with the fields of the wire format: byte 0
    the index width; bits 0, 1, 2 of byte 1 the UV, normal and colour flags;
    bytes 2-9 the little-endian double scale; bytes 10-21 three
    little-endian floats; bytes 22-25 and 26-29 the little-endian vertex
    word count and index count; the vertex count is the word count divided
    by the stride, 4 with normal and UV, 3 with one of them, 2 with
    neither. A load that resolves after such a first chunk resolves with
    these values. *)
Theorem header_decodes_per_wire_format (c : list byte) :
  30 <= byteLength c ->
  let h := wireHeader c in
  (exists d,
     runStages headerStages c (initialLoader, 0) = Normal (d, 30) /\
     readState d = VertexData /\
     indexSize d = Some (wh_indexWidth h) /\
     hasUV d = Some (wh_hasUV h) /\
     hasNormal d = Some (wh_hasNormal h) /\
     hasColor d = Some (wh_hasColor h) /\
     scale d = wh_scale h /\
     offset d = wh_offset h /\
     vertexBufferSize d = Some (wh_vertexWordCount h) /\
     indexCount d = Some (wh_indexCount h) /\
     vertexCount d
     = Some (numberDiv (wh_vertexWordCount h) (wireStride h))) /\
  (forall rest m,
     loadBOBJ (delivered (c :: rest)) = Resolved m ->
     md_hasUV m = Some (wh_hasUV h) /\
     md_hasNormal m = Some (wh_hasNormal h) /\
     md_hasColor m = Some (wh_hasColor h) /\
     md_scale m = wh_scale h /\
     md_offset m = wh_offset h /\
     md_indexCount m = Some (wh_indexCount h) /\
     md_vertexCount m
     = Some (numberDiv (wh_vertexWordCount h) (wireStride h))).
Proof.
  intros Hc h.
  destruct (headerLoader_wire c)
    as (H1 & H2 & H3 & H4 & H5 & H6 & H7 & H8 & H9 & H10).
  split.
  - exists (headerLoader c). rewrite (header_pass c Hc). by repeat split.
  - intros rest m H. unfold loadBOBJ, readChunks in H. simpl in H.
    destruct (appendChunks initialLoader c) as [d1|] eqn:E1;
      simpl in H; [|done].
    destruct (readChunk rest d1 _) as [[d log]|] eqn:E2; [|done].
    injection H as <-.
    destruct (readChunk_feedChunks _ _ _ _ _ E2) as (Hf & _ & _).
    destruct (first_chunk_header c d1 Hc E1) as [Hh Hr].
    pose proof (feedChunks_header rest d1 d
                  (appendChunks_wellFormed _ _ _ initialLoader_wellFormed E1)
                  Hr Hf) as Hh'.
    rewrite Hh in Hh'. unfold headerFields in Hh'.
    injection Hh' as _ E4 E3 E2' E5 E6 E9 _ _ E8 _.
    unfold modelDataOf. cbn [md_hasUV md_hasNormal md_hasColor md_scale
      md_offset md_indexCount md_vertexCount].
    rewrite E2', E3, E4, E5, E6, E8, E9. by repeat split.
Qed.

Lemma header_decodes_per_wire_format_witness :
  30 <= byteLength scenarioStream /\
  exists d,
    runStages headerStages scenarioStream (initialLoader, 0) = Normal (d, 30)
    /\ scale d = SF_1_5 /\ vertexBufferSize d = Some 6
    /\ indexCount d = Some 3 /\ vertexCount d = Some (numberOfZ 2).
Proof.
  assert (30 <= byteLength scenarioStream) as Hc by (vm_compute; discriminate).
  split; [exact Hc|].
  destruct (header_decodes_per_wire_format scenarioStream Hc)
    as [(d & Hrun & _ & _ & _ & _ & _ & Hs & _ & Hv & Hi & Hn) _].
  exists d. repeat split; [exact Hrun| | | |].
  - rewrite Hs. vm_compute. reflexivity.
  - rewrite Hv. vm_compute. reflexivity.
  - rewrite Hi. vm_compute. reflexivity.
  - rewrite Hn. vm_compute. reflexivity.
Defined.



(** C10 — a zero-length chunk is an identity step: in every loader state a
    load can reach between two reads, [appendChunks] on the empty chunk
    completes and returns the state unchanged — read state, header fields,
    write indices, buffers and the kept tail. *)
Theorem empty_chunk_is_identity (d : Loader) :
  reachable d -> appendChunks d [] = Normal d.
Proof.
  intros [chunks H].
  destruct chunks as [|c chunks _] using rev_ind.
  - injection H as <-. reflexivity.
  - rewrite feedChunks_snoc in H.
    destruct (feedChunks initialLoader chunks) as [d0|] eqn:E;
      cbn [bindC] in H; [|done].
    pose proof (feedChunks_wellFormed _ _ _ initialLoader_wellFormed E)
      as Hwf.
    pose proof (appendChunks_app d0 d c [] Hwf H) as Happ.
    rewrite app_nil_r in Happ. congruence.
Qed.

Lemma empty_chunk_is_identity_witness :
  reachable afterScenario /\ appendChunks afterScenario [] = Normal afterScenario.
Proof.
  assert (reachable afterScenario) as H.
  { exists [scenarioStream]. vm_compute. reflexivity. }
  split; [exact H | exact (empty_chunk_is_identity afterScenario H)].
Defined.
(** ** The stream and the state of a run

    *** What a pass from the first byte of the stream has decoded *)

Lemma runStages_invariant (P : Pass -> Prop) (l : list (nat * Stage))
    (v : list byte) (p p' : Pass) :
  AllRanked l ->
  Forall (fun rf => forall q q', snd rf v q = Normal q' ->
                      good v q -> P q -> P q') l ->
  runStages l v p = Normal p' -> good v p -> P p -> P p'.
Proof.
  revert p. induction l as [|[r f] l IH]; simpl; intros p.
  { by intros _ _ [= <-]. }
  intros [Hf Hl]%Forall_cons [Hp Hps]%Forall_cons H Hg HP. simpl in *.
  destruct (f v p) as [p1|] eqn:E; simpl in H; [|done].
  apply (IH p1 Hl Hps H).
  - by apply (ranked_good _ _ Hf _ _ _ E).
  - by apply (Hp p p1).
Qed.

Lemma getUint_fieldAt (n : nat) (v : list byte) (i x : Z) :
  getUint n v i = Normal x -> x = fieldAt v i n.
Proof.
  unfold getUint, fieldAt. destruct (inBounds v i n); [|done].
  by intros [= <-].
Qed.

Lemma decodedPass_initial (s : list byte) : decodedPass s (initialLoader, 0).
Proof.
  split; [|done]. unfold decoded. simpl.
  repeat split; try done; try lia.
Qed.

(** Using what the invariant says at the rank of the read state. *)
Ltac feed_ranks :=
  repeat match goal with
  | H : (?a <= ?b)%nat -> _ |- _ =>
      first [ specialize (H ltac:(simpl; lia)) | clear H ]
  | H : _ = Done -> _ |- _ =>
      first [ specialize (H eq_refl) | clear H ]
  end.

Ltac field_reads :=
  repeat match goal with
  | E : getUint _ _ _ = Normal _ |- _ => apply getUint_fieldAt in E; subst
  end.

Ltac decoded_header_tac :=
  let G := fresh "G" in
  intros s [d j] p' H _ [Hd Hj];
  match type of H with (if ?g then _ else _) = _ => destruct g eqn:G end;
    [|by injection H as <-];
  fired H G; field_reads;
  unfold decoded, consumed in *; cbn [fst snd] in *;
  rewrite G in Hd, Hj; cbn [rank headerOffset] in Hd, Hj;
  destruct Hd as ((Hv0 & Hi0) & Hv & Hi & H2 & H3 & H4 & H5 & Hvn & H6
                  & Hin & H7 & H8 & H9 & Hrd);
  feed_ranks.

Ltac loader_simpl :=
  cbn [readState indexSize hasColor hasUV hasNormal scale offset vertexCount
       vertexBufferSize vertices vertexWriteIndex triangleCount indexCount
       indices indicesWriteIndex trailingChunkData
       set_readState set_indexSize set_components set_scale set_offset
       set_vertexBuffer set_indexBuffer set_vertexWritten set_indexWritten
       set_trailingChunkData headerLoader rank headerOffset fst snd default
       from_option id] in *.

Ltac decoded_header_finish :=
  loader_simpl;
  match goal with
  | Hv : vertexWriteIndex _ = 0, Hi : indicesWriteIndex _ = 0,
    Hj : _ = _ + _ + _ |- _ =>
      rewrite Hv, Hi in *; rewrite ?Z.mul_0_r, ?Z.add_0_r in Hj;
      cbn in Hj; subst
  end;
  destruct_and?;
  repeat split; intros; try lia; try done.

Lemma onIndexSize_decoded :
  forall s p p', onIndexSize s p = Normal p' -> good s p ->
  decodedPass s p -> decodedPass s p'.
Proof.
  unfold decodedPass; unfold_stage. decoded_header_tac.
  decoded_header_finish.
Qed.

Lemma onVertexComponents_decoded :
  forall s p p', onVertexComponents s p = Normal p' -> good s p ->
  decodedPass s p -> decodedPass s p'.
Proof.
  unfold decodedPass; unfold_stage. decoded_header_tac.
  decoded_header_finish.
Qed.

Lemma onScaleFactor_decoded :
  forall s p p', onScaleFactor s p = Normal p' -> good s p ->
  decodedPass s p -> decodedPass s p'.
Proof.
  unfold decodedPass; unfold_stage. decoded_header_tac.
  decoded_header_finish.
Qed.

Lemma onModelOffset_decoded :
  forall s p p', onModelOffset s p = Normal p' -> good s p ->
  decodedPass s p -> decodedPass s p'.
Proof.
  unfold decodedPass; unfold_stage. decoded_header_tac.
  decoded_header_finish.
Qed.

Lemma onVertexCount_decoded :
  forall s p p', onVertexCount s p = Normal p' -> good s p ->
  decodedPass s p -> decodedPass s p'.
Proof.
  unfold decodedPass; unfold_stage. decoded_header_tac.
  decoded_header_finish.
  - unfold stride. loader_simpl. by rewrite H1, H3.
  - apply fieldAt_bound.
  - by rewrite Z.sub_0_r.
Qed.

(** The header stages keep the invariant. *)
Lemma newIndices_indexArray (size count : Z) :
  newIndices (Some size) count = indexArray size (zeros count).
Proof.
  unfold newIndices, indexArray.
  destruct size as [|[p|p|]|p]; try done; by destruct p.
Qed.

Lemma onIndexCount_decoded :
  forall s p p', onIndexCount s p = Normal p' -> good s p ->
  decodedPass s p -> decodedPass s p'.
Proof.
  unfold decodedPass; unfold_stage. decoded_header_tac.
  decoded_header_finish.
  - apply fieldAt_bound.
  - by rewrite H2, newIndices_indexArray, Z.sub_0_r.
Qed.
(** The payload loops keep it. *)
Lemma wordsFrom_snoc (v : list byte) (j : Z) (k : nat) :
  wordsFrom v j (S k)
  = wordsFrom v j k ++ [fieldAt v (j + 4 * Z.of_nat k) 4].
Proof. unfold wordsFrom. by rewrite seq_S, map_app. Qed.

Lemma indicesFrom_snoc (v : list byte) (j size : Z) (k : nat) :
  indicesFrom v j size (S k)
  = indicesFrom v j size k
    ++ [fieldAt v (j + size * Z.of_nat k) (indexWidth size)].
Proof. unfold indicesFrom. by rewrite seq_S, map_app. Qed.

Lemma indicesFrom_length (v : list byte) (j size : Z) (k : nat) :
  length (indicesFrom v j size k) = k.
Proof. unfold indicesFrom. by rewrite length_map, length_seq. Qed.

Lemma insert_zeros (pre : list Z) (m x : Z) :
  0 < m ->
  <[length pre := x]> (pre ++ zeros m) = (pre ++ [x]) ++ zeros (m - 1).
Proof.
  intros Hm. unfold zeros.
  replace (Z.to_nat m) with (S (Z.to_nat (m - 1))) by lia.
  rewrite insert_app_r_alt, Nat.sub_diag by lia. simpl.
  by rewrite <- app_assoc.
Qed.

Lemma getIndex_fieldAt (v : list byte) (size j x : Z) :
  getIndex v size j = Normal x -> x = fieldAt v j (indexWidth size).
Proof.
  unfold getIndex, indexWidth, getUint8, getUint16, getUint32.
  destruct (size =? 1); [|destruct (size =? 2)]; apply getUint_fieldAt.
Qed.

Lemma getIndex_bound (v : list byte) (size j x : Z) :
  getIndex v size j = Normal x ->
  j + Z.of_nat (indexWidth size) <= byteLength v.
Proof.
  unfold getIndex, indexWidth, getUint8, getUint16, getUint32, getUint.
  destruct (size =? 1); [|destruct (size =? 2)];
    match goal with
    | |- (if ?b then _ else _) = _ -> _ => destruct b eqn:E; [|done]
    end; apply inBounds_true in E; lia.
Qed.

Lemma storeElement_indexArray (size : Z) (l : list Z) (i x : Z) :
  0 <= i -> 0 <= x < 256 ^ Z.of_nat (indexWidth size) ->
  storeElement (indexArray size l) i x
  = indexArray size (<[Z.to_nat i := x]> l).
Proof.
  intros Hi Hx. unfold indexArray, indexWidth in *.
  destruct (size =? 1); [|destruct (size =? 2)]; cbn [storeElement];
    destruct (Z.leb_spec 0 i); try lia;
    rewrite Z.mod_small; try done; simpl in Hx; lia.
Qed.

Lemma vertexTurn_decoded (s : list byte) (d : Loader) (j vertex : Z)
    (buffer : TypedArray) :
  vertexGuard s (d, j) = true ->
  geNumber (vertexWriteIndex d) (vertexBufferSize d) = false ->
  getUint32 s j = Normal vertex ->
  storeInto (vertices d) (vertexWriteIndex d) vertex = Normal buffer ->
  decodedPass s (d, j) -> decodedPass s (set_vertexWritten buffer d, j + 4).
Proof.
  intros G Hlt E St [Hd Hj].
  apply vertexGuard_true in G as [G Hb]. cbn [fst snd] in *.
  apply getUint_fieldAt in E. subst vertex.
  unfold decodedPass, decoded, consumed in *; cbn [fst snd] in *.
  rewrite G in Hd, Hj; cbn [rank headerOffset] in Hd, Hj.
  destruct Hd as ((Hv0 & Hi0) & Hv & Hi & H2 & H3 & H4 & H5 & Hvn & H6
                  & Hin & H7 & H8 & H9 & Hrd).
  feed_ranks. destruct_and?.
  rewrite H7 in Hlt. cbn [geNumber] in Hlt.
  destruct (Z.geb_spec (vertexWriteIndex d) (fieldAt s 22 4)); [done|].
  rewrite H11 in St. cbn [storeInto storeElement] in St.
  destruct (Z.leb_spec 0 (vertexWriteIndex d)); [|lia].
  injection St as <-.
  cbn [set_vertexWritten readState indexSize hasColor hasUV hasNormal scale
       offset vertexCount vertexBufferSize vertices vertexWriteIndex
       triangleCount indexCount indices indicesWriteIndex rank
       headerOffset].
  rewrite G. cbn [rank headerOffset].
  rewrite Hi in *. rewrite Z.mul_0_r, Z.add_0_r in *.
  repeat split; intros; try lia; try done.
  pose proof (fieldAt_bound s j 4) as Hb4.
  change (256 ^ Z.of_nat 4) with (2 ^ 32) in Hb4.
  rewrite Z.mod_small by done.
  replace (Z.to_nat (vertexWriteIndex d + 1))
    with (S (Z.to_nat (vertexWriteIndex d))) by lia.
  rewrite wordsFrom_snoc.
  pose proof (insert_zeros (wordsFrom s 30 (Z.to_nat (vertexWriteIndex d)))
                (fieldAt s 22 4 - vertexWriteIndex d) (fieldAt s j 4))
    as Hins.
  rewrite wordsFrom_length in Hins. rewrite Hins by lia.
  replace (30 + 4 * Z.of_nat (Z.to_nat (vertexWriteIndex d))) with j by lia.
  by replace (fieldAt s 22 4 - (vertexWriteIndex d + 1))
    with (fieldAt s 22 4 - vertexWriteIndex d - 1) by lia.
Qed.

Lemma onVertexData_decoded :
  forall s p p', onVertexData s p = Normal p' -> good s p ->
  decodedPass s p -> decodedPass s p'.
Proof.
  intros s p p' H _. revert p' H.
  apply (onVertexData_ind s (fun p r =>
    forall p', r = Normal p' -> decodedPass s p -> decodedPass s p')).
  - by intros q _ p' [= <-].
  - intros [d j] G Hge p' [= <-] [Hd Hj].
    apply vertexGuard_true in G as [G Hb]. cbn [fst snd] in *.
    unfold decodedPass, decoded, consumed in *; cbn [fst snd] in *.
    rewrite G in Hd, Hj; cbn [rank headerOffset] in Hd, Hj.
    destruct Hd as ((Hv0 & Hi0) & Hv & Hi & H2 & H3 & H4 & H5 & Hvn & H6
                    & Hin & H7 & H8 & H9 & Hrd).
    feed_ranks. destruct_and?.
    rewrite H7 in Hge. cbn [geNumber] in Hge. apply Z.geb_le in Hge.
    cbn [set_readState readState indexSize hasColor hasUV hasNormal scale
         offset vertexCount vertexBufferSize vertices vertexWriteIndex
         triangleCount indexCount indices indicesWriteIndex rank
         headerOffset].
    rewrite Hi in *. rewrite Z.mul_0_r, Z.add_0_r in *.
    repeat split; intros; try lia; try done.
  - done.
  - intros [d j] vertex buffer G Hlt E St p1 IH p' Hr Hd.
    apply IH; [done|]. by apply (vertexTurn_decoded s d j vertex buffer).
Qed.

Lemma indexTurn_decoded (s : list byte) (d : Loader) (j index : Z)
    (buffer : TypedArray) :
  indexGuard s (d, j) = true ->
  getIndex s (default 0 (indexSize d)) j = Normal index ->
  storeInto (indices d) (indicesWriteIndex d) index = Normal buffer ->
  decodedPass s (d, j) ->
  decodedPass s (afterIndex buffer d, j + default 0 (indexSize d)).
Proof.
  intros G E St [Hd Hj].
  apply indexGuard_true in G as (G & Hb & Hlt). cbn [fst snd] in *.
  pose proof (getIndex_bound _ _ _ _ E) as Hbd.
  apply getIndex_fieldAt in E. subst index.
  unfold decodedPass, decoded, consumed in *; cbn [fst snd] in *.
  rewrite G in Hd, Hj; cbn [rank headerOffset] in Hd, Hj.
  destruct Hd as ((Hv0 & Hi0) & Hv & Hi & H2 & H3 & H4 & H5 & Hvn & H6
                  & Hin & H7 & H8 & H9 & Hrd).
  feed_ranks. destruct_and?.
  rewrite H2 in *. cbn [default from_option] in *. unfold id in *.
  rewrite H1 in Hlt. cbn [ltNumber] in Hlt. apply Z.ltb_lt in Hlt.
  set (size := fieldAt s 0 1) in *.
  pose proof (fieldAt_bound s j (indexWidth size)) as Hbx.
  rewrite H10 in St. cbn [storeInto] in St.
  rewrite storeElement_indexArray in St by done.
  injection St as <-.
  pose proof (insert_zeros
                (indicesFrom s (30 + 4 * fieldAt s 22 4) size
                   (Z.to_nat (indicesWriteIndex d)))
                (fieldAt s 26 4 - indicesWriteIndex d)
                (fieldAt s j (indexWidth size))) as Hins.
  rewrite indicesFrom_length in Hins. rewrite Hins by lia. clear Hins.
  assert (indicesFrom s (30 + 4 * fieldAt s 22 4) size
            (Z.to_nat (indicesWriteIndex d))
          ++ [fieldAt s j (indexWidth size)]
          = indicesFrom s (30 + 4 * fieldAt s 22 4) size
              (Z.to_nat (indicesWriteIndex d + 1))) as ->.
  { replace (Z.to_nat (indicesWriteIndex d + 1))
      with (S (Z.to_nat (indicesWriteIndex d))) by lia.
    rewrite indicesFrom_snoc, Z2Nat.id by done. do 3 f_equal. lia. }
  replace (fieldAt s 26 4 - indicesWriteIndex d - 1)
    with (fieldAt s 26 4 - (indicesWriteIndex d + 1)) by lia.
  unfold afterIndex.
  cbn [set_indexWritten readState indexSize hasColor hasUV hasNormal scale
       offset vertexCount vertexBufferSize vertices vertexWriteIndex
       triangleCount indexCount indices indicesWriteIndex].
  rewrite H1. cbn [geNumber].
  destruct (Z.geb_spec (indicesWriteIndex d + 1) (fieldAt s 26 4));
    cbn [set_readState set_indexWritten readState indexSize hasColor hasUV
         hasNormal scale offset vertexCount vertexBufferSize vertices
         vertexWriteIndex triangleCount indexCount indices
         indicesWriteIndex];
    rewrite ?G; cbn [rank headerOffset default]; rewrite ?H2;
    cbn [default from_option]; unfold id;
    repeat split; intros; try lia; try done.
Qed.

Lemma onIndexData_decoded :
  forall s p p', onIndexData s p = Normal p' -> good s p ->
  decodedPass s p -> decodedPass s p'.
Proof.
  intros s p p' H _. revert p' H.
  apply (onIndexData_ind s (fun p r =>
    forall p', r = Normal p' -> decodedPass s p -> decodedPass s p')).
  - by intros q _ p' [= <-].
  - done.
  - intros [d j] index buffer G E St p1 IH p' Hr Hd.
    apply IH; [done|]. by apply (indexTurn_decoded s d j index buffer).
Qed.

Lemma stageList_decoded (s : list byte) :
  Forall (fun rf => forall q q', snd rf s q = Normal q' ->
                      good s q -> decodedPass s q -> decodedPass s q')
         stageList.
Proof.
  unfold stageList, headerStages, payloadStages. cbn [app].
  repeat (apply Forall_cons; split); cbn [snd]; try by apply Forall_nil.
  - apply onIndexSize_decoded.
  - apply onVertexComponents_decoded.
  - apply onScaleFactor_decoded.
  - apply onModelOffset_decoded.
  - apply onVertexCount_decoded.
  - apply onIndexCount_decoded.
  - apply onVertexData_decoded.
  - apply onIndexData_decoded.
Qed.

Lemma decoded_trailing (s : list byte) (d : Loader)
    (t : option (list byte)) :
  decoded s (set_trailingChunkData t d) <-> decoded s d.
Proof. done. Qed.

Lemma canAdvance_Done_or_stuck (v : list byte) (p p' : Pass) :
  runStages stageList v p = Normal p' -> canAdvance v p' = false.
Proof.
  intros H. destruct (decide (prank p' = 9%nat)) as [HD|HD].
  - destruct p' as [d j]. unfold prank in HD. cbn [fst] in HD.
    unfold canAdvance. by destruct (readState d).
  - apply (runStages_stuck _ _ _ _ _ stageList_ranked
             stageList_ascending H).
    unfold prank, stageList, headerStages, payloadStages in *. simpl.
    destruct (readState p'.1); simpl in *; try done;
      repeat first [ by apply Exists_cons_hd | apply Exists_cons_tl ].
Qed.

(** The pass over a stream delivered as one chunk: the loader it leaves is
    as decoded from the stream, the kept tail is the stream from the
    position consumed on, and the stage of the read state cannot go on with
    the bytes that are left. *)
Lemma single_pass_decoded (s : list byte) (d : Loader) :
  appendChunks initialLoader s = Normal d ->
  decoded s d /\ 0 <= consumed d <= byteLength s /\
  carry d = drop (Z.to_nat (consumed d)) s /\
  canAdvance s (d, consumed d) = false.
Proof.
  intros H.
  destruct (appendChunks_inv _ _ _ initialLoader_wellFormed H)
    as (d' & j & E & Hg & Ht & ->).
  change (carry initialLoader ++ s) with s in *.
  change (set_trailingChunkData None initialLoader) with initialLoader in E.
  pose proof (runStages_invariant (decodedPass s) _ _ _ _ stageList_ranked
                (stageList_decoded s) E (good_initial s)
                (decodedPass_initial s)) as [Hd Hj].
  cbn [fst snd] in Hd, Hj.
  pose proof (canAdvance_Done_or_stuck _ _ _ E) as Hstuck.
  destruct Hg as (Hb & _). cbn [snd] in Hb.
  destruct (keepTrailing_carry _ _ _ Hb Ht) as (Hc & _ & _).
  assert (consumed (keepTrailing s (d', j)) = j) as Hk.
  { rewrite Hj. unfold keepTrailing. by destruct (_ <? _). }
  rewrite Hk, Hc. split; [|split; [lia|split; [done|]]].
  - unfold keepTrailing. by destruct (_ <? _).
  - unfold keepTrailing. by destruct (_ <? _).
Qed.

Lemma run_decoded (chunks : list (list byte)) (d : Loader) :
  feedChunks initialLoader chunks = Normal d ->
  decoded (concat chunks) d /\
  0 <= consumed d <= byteLength (concat chunks) /\
  carry d = drop (Z.to_nat (consumed d)) (concat chunks) /\
  canAdvance (concat chunks) (d, consumed d) = false.
Proof.
  intros H. by apply single_pass_decoded, completed_run_is_single_pass.
Qed.
(** *** What a pass can throw *)

Lemma getUint_throws (n : nat) (v : list byte) (i : Z) (e : JsError) :
  getUint n v i = Throw e -> e = RangeError.
Proof. unfold getUint. destruct (inBounds v i n); congruence. Qed.

Ltac header_throws_tac :=
  let G := fresh "G" in
  intros s [d j] e H; unfold_stage;
  match type of H with (if ?g then _ else _) = _ => destruct g eqn:G end;
    [|done];
  repeat match type of H with
  | context [getUint ?n ?v ?i] =>
      let E := fresh "E" in
      destruct (getUint n v i) eqn:E; cbn [bindC] in H;
        [|apply getUint_throws in E; congruence]
  end;
  done.

Lemma headerStages_throw (s : list byte) :
  Forall (fun rf => forall q e, snd rf s q = Throw e -> e = RangeError)
         headerStages.
Proof.
  unfold headerStages.
  repeat (apply Forall_cons; split); cbn [snd]; try by apply Forall_nil.
  all: revert s; header_throws_tac.
Qed.

Lemma onVertexData_throws (s : list byte) (p : Pass) (e : JsError) :
  onVertexData s p = Throw e -> decodedPass s p -> e = RangeError.
Proof.
  revert e.
  apply (onVertexData_ind s (fun p r =>
    forall e, r = Throw e -> decodedPass s p -> e = RangeError)); try done.
  - intros [d j] e G _ Hthrow e' [= <-] [Hd _].
    destruct Hthrow as [E|(vertex & _ & St)].
    + by apply getUint_throws in E.
    + apply vertexGuard_true in G as [G _]. cbn [fst snd] in *.
      unfold decoded in Hd. rewrite G in Hd. cbn [rank] in Hd.
      destruct Hd as (_ & _ & _ & _ & _ & _ & _ & _ & H6 & _).
      destruct H6 as (_ & _ & _ & Hv); [lia|]. by rewrite Hv in St.
  - intros [d j] vertex buffer G Hlt E St p1 IH e Hr Hd.
    apply IH; [done|]. by apply (vertexTurn_decoded s d j vertex buffer).
Qed.

Lemma getIndex_throws (v : list byte) (size j : Z) (e : JsError) :
  getIndex v size j = Throw e -> e = RangeError.
Proof.
  unfold getIndex, getUint8, getUint16, getUint32.
  destruct (size =? 1); [|destruct (size =? 2)]; apply getUint_throws.
Qed.

Lemma onIndexData_throws (s : list byte) (p : Pass) (e : JsError) :
  onIndexData s p = Throw e -> decodedPass s p -> e = RangeError.
Proof.
  revert e.
  apply (onIndexData_ind s (fun p r =>
    forall e, r = Throw e -> decodedPass s p -> e = RangeError)); try done.
  - intros [d j] e G Hthrow e' [= <-] [Hd _].
    destruct Hthrow as [E|(index & _ & St)].
    + by apply getIndex_throws in E.
    + apply indexGuard_true in G as (G & _). cbn [fst snd] in *.
      unfold decoded in Hd. rewrite G in Hd. cbn [rank] in Hd.
      destruct Hd as (_ & _ & _ & _ & _ & _ & _ & _ & _ & _ & H7 & _).
      destruct H7 as (_ & _ & _ & Hv); [lia|]. by rewrite Hv in St.
  - intros [d j] index buffer G E St p1 IH e Hr Hd.
    apply IH; [done|]. by apply (indexTurn_decoded s d j index buffer).
Qed.

Lemma stageList_throw (s : list byte) :
  Forall (fun rf => forall q e, snd rf s q = Throw e ->
                      decodedPass s q -> e = RangeError) stageList.
Proof.
  unfold stageList. apply Forall_app. split.
  - eapply Forall_impl; [apply headerStages_throw|]. simpl. eauto.
  - unfold payloadStages.
    repeat (apply Forall_cons; split); cbn [snd]; try by apply Forall_nil.
    + intros q e. apply onVertexData_throws.
    + intros q e. apply onIndexData_throws.
Qed.

Lemma runStages_throws (P : Pass -> Prop) (l : list (nat * Stage))
    (v : list byte) (p : Pass) (e : JsError) :
  AllRanked l ->
  Forall (fun rf => forall q q', snd rf v q = Normal q' ->
                      good v q -> P q -> P q') l ->
  Forall (fun rf => forall q e, snd rf v q = Throw e -> P q ->
                      e = RangeError) l ->
  runStages l v p = Throw e -> good v p -> P p -> e = RangeError.
Proof.
  revert p. induction l as [|[r f] l IH]; simpl; intros p; [done|].
  intros [Hf Hl]%Forall_cons [Hp Hps]%Forall_cons [Ht Hts]%Forall_cons
    H Hg HP. simpl in *.
  destruct (f v p) as [p1|e1] eqn:E; simpl in H.
  - apply (IH p1 Hl Hps Hts H).
    + by apply (ranked_good _ _ Hf _ _ _ E).
    + by apply (Hp p p1).
  - injection H as <-. by apply (Ht p).
Qed.

(** A pass over the stream from its first byte throws nothing but a
    [RangeError]. *)
Lemma single_pass_throws (s : list byte) (e : JsError) :
  appendChunks initialLoader s = Throw e -> e = RangeError.
Proof.
  intros H. rewrite appendChunks_pass in H by done.
  change (carry initialLoader ++ s) with s in H.
  change (set_trailingChunkData None initialLoader) with initialLoader in H.
  cbn zeta in H.
  destruct (runStages stageList s (initialLoader, 0)) as [p|e'] eqn:E;
    cbn [bindC] in H; [done|]. injection H as <-.
  apply (runStages_throws (decodedPass s) _ _ _ _ stageList_ranked
           (stageList_decoded s) (stageList_throw s) E (good_initial s)
           (decodedPass_initial s)).
Qed.

(** What a run throws, the pass over the bytes of its chunks up to some
    chunk throws. *)
Lemma feedChunks_throws (chunks : list (list byte)) (e : JsError) :
  feedChunks initialLoader chunks = Throw e ->
  exists i, (i <= length chunks)%nat /\
    appendChunks initialLoader (concat (take i chunks)) = Throw e.
Proof.
  induction chunks as [|c chunks IH] using rev_ind; [done|].
  rewrite feedChunks_snoc.
  destruct (feedChunks initialLoader chunks) as [d|e'] eqn:E; cbn [bindC].
  - intros H. exists (length (chunks ++ [c])). split; [done|].
    rewrite firstn_all, concat_app. cbn [concat]. rewrite app_nil_r.
    rewrite (appendChunks_app initialLoader d (concat chunks) c); try done.
    + apply initialLoader_wellFormed.
    + by apply completed_run_is_single_pass.
  - intros [= <-]. destruct (IH eq_refl) as (i & Hi & H).
    exists i. rewrite length_app. split; [lia|].
    by rewrite take_app_le.
Qed.
(** *** How far a run gets *)

Lemma geb_false_lt (a b : Z) : (a >=? b) = false -> a < b.
Proof. intros H. destruct (Z.geb_spec a b); [done|lia]. Qed.

Lemma run_progress (chunks : list (list byte)) (d : Loader) :
  feedChunks initialLoader chunks = Normal d ->
  let s := concat chunks in
  30 <= byteLength s ->
  (7 <= rank (readState d))%nat /\
  vertexWriteIndex d = wordsReceived s /\
  indicesWriteIndex d = indicesReceived s /\
  ((8 <= rank (readState d))%nat <-> 34 + 4 * fieldAt s 22 4 <= byteLength s).
Proof.
  intros H s Hlen.
  destruct (run_decoded _ _ H) as (Hd & Hc & _ & Hstuck). fold s in Hd, Hc, Hstuck.
  unfold decoded, consumed, canAdvance, wordsReceived, indicesReceived in *.
  destruct Hd as ((Hv0 & Hi0) & Hv & Hi & H2 & H3 & H4 & H5 & Hvn & H6
                  & Hin & H7 & H8 & H9 & Hrd).
  pose proof (fieldAt_bound s 0 1) as Hsz.
  destruct (readState d) eqn:R; cbn [rank headerOffset] in *; feed_ranks;
    destruct_and?; rewrite ?Hv, ?Hi, ?Z.mul_0_r in *; try lia.
  - apply geb_false_lt in Hstuck.
    assert ((byteLength s - 30) / 4 = vertexWriteIndex d) as ->.
    { symmetry.
      apply (Z.div_unique _ 4 _ (byteLength s - 30 - 4 * vertexWriteIndex d));
        lia. }
    destruct (Z.ltb_spec (byteLength s) (34 + 4 * fieldAt s 22 4)); lia.
  - assert (fieldAt s 22 4 <= (byteLength s - 30) / 4)
      by (apply Z.div_le_lower_bound; lia).
    destruct (Z.ltb_spec (byteLength s) (34 + 4 * fieldAt s 22 4)); [lia|].
    split; [lia|]. split; [lia|]. split; [|lia].
    unfold enoughForIndex in Hstuck.
    repeat match goal with
    | E : indexSize d = Some _ |- _ => rewrite E in *; clear E
    | E : indexCount d = Some _ |- _ => rewrite E in *; clear E
    end.
    cbn [default from_option ltNumber] in *. unfold id in *.
    set (size := fieldAt s 0 1) in *. set (c := fieldAt s 26 4) in *.
    set (i := indicesWriteIndex d) in *.
    apply andb_false_iff in Hstuck as [Hs%geb_false_lt|Hs].
    + destruct (Z.eqb_spec size 0) as [Hz|Hz]; [rewrite Hz in *; lia|].
      assert ((byteLength s - 30 - 4 * fieldAt s 22 4) / size = i) as ->; [|lia].
      symmetry.
      apply (Z.div_unique _ size i
               (byteLength s - 30 - 4 * fieldAt s 22 4 - size * i)); lia.
    + destruct (Z.ltb_spec i c); [done|]. assert (i = c) as -> by lia.
      destruct (Z.eqb_spec size 0) as [Hz|Hz]; [done|].
      assert (c <= (byteLength s - 30 - 4 * fieldAt s 22 4) / size); [|lia].
      apply Z.div_le_lower_bound; lia.
  - assert (fieldAt s 22 4 <= (byteLength s - 30) / 4)
      by (apply Z.div_le_lower_bound; lia).
    destruct (Z.ltb_spec (byteLength s) (34 + 4 * fieldAt s 22 4)); [lia|].
    split; [lia|]. split; [lia|]. split; [|lia].
    repeat match goal with
    | E : indexSize d = Some _ |- _ => rewrite E in *; clear E
    | E : indicesWriteIndex d = _ |- _ => rewrite E in *; clear E
    end.
    cbn [default from_option] in *. unfold id in *.
    set (size := fieldAt s 0 1) in *. set (c := fieldAt s 26 4) in *.
    destruct (Z.eqb_spec size 0) as [Hz|Hz]; [done|].
    assert (c <= (byteLength s - 30 - 4 * fieldAt s 22 4) / size); [|lia].
    apply Z.div_le_lower_bound; lia.
Qed.
(** *** The promise and the run *)

Lemma readChunk_outcome (reader : list (list byte)) (d : Loader)
    (log : ReadLog) :
  match readChunk reader d log with
  | Normal (d', _) => feedChunks d reader = Normal d'
  | Throw e => feedChunks d reader = Throw e
  end.
Proof.
  revert d log. induction reader as [|c reader IH]; intros d log; [done|].
  cbn [readChunk feedChunks].
  destruct (appendChunks d c) as [d1|e]; cbn [bindC]; [apply IH|done].
Qed.

Lemma loadBOBJ_delivered (chunks : list (list byte)) :
  loadBOBJ (delivered chunks)
  = match feedChunks initialLoader chunks with
    | Normal d => Resolved (modelDataOf d)
    | Throw e => Rejected e
    end.
Proof.
  unfold loadBOBJ, readChunks. cbn [ok body delivered].
  pose proof (readChunk_outcome chunks initialLoader []) as H.
  destruct (readChunk chunks initialLoader []) as [[d log]|e]; by rewrite H.
Qed.

Lemma loadBOBJ_resolved (chunks : list (list byte)) (m : ModelData) :
  loadBOBJ (delivered chunks) = Resolved m ->
  exists d, feedChunks initialLoader chunks = Normal d /\ m = modelDataOf d.
Proof.
  rewrite loadBOBJ_delivered.
  destruct (feedChunks initialLoader chunks) as [d|e]; [|done].
  intros [= <-]. by exists d.
Qed.

Lemma one_byte_pass (b : byte) :
  appendChunks initialLoader [b] = Throw RangeError.
Proof. reflexivity. Qed.

Lemma firstChunk_one_byte (chunks : list (list byte)) :
  ~ firstChunkOk chunks ->
  feedChunks initialLoader chunks = Throw RangeError.
Proof.
  induction chunks as [|c chunks IH]; cbn [firstChunkOk]; [done|].
  destruct c as [|x [|y c]]; [|done..].
  intros H. cbn [feedChunks].
  change (appendChunks initialLoader []) with (Normal initialLoader).
  cbn [bindC]. by apply IH.
Qed.

Lemma indexType_indexArray (size : Z) (l : list Z) :
  glTypeSize (indexTypeOf (Some size)) = bytesPerElement (indexArray size l).
Proof.
  unfold indexTypeOf, indexArray.
  destruct size as [|[p|p|]|p]; try done; by destruct p.
Qed.

Lemma appendChunks_rank (d d' : Loader) (c : list byte) :
  wellFormed d -> appendChunks d c = Normal d' ->
  (rank (readState d) <= rank (readState d'))%nat.
Proof.
  intros Hwf H.
  destruct (appendChunks_inv _ _ _ Hwf H) as (d1 & i1 & E & _ & _ & ->).
  destruct (runStages_fire _ _ _ _ stageList_ranked E) as [Hm _].
  unfold prank in Hm. cbn [fst] in Hm.
  unfold keepTrailing. by destruct (_ <? _).
Qed.
Lemma readChunk_log (reader : list (list byte)) (d d' : Loader)
    (log log' : ReadLog) :
  readChunk reader d log = Normal (d', log') -> wellFormed d ->
  exists l, log' = log ++ l /\
    (forall a, a ∈ l -> (rank (readState d) <= rank a)%nat) /\
    (forall i j a b, (i <= j)%nat -> l !! i = Some a -> l !! j = Some b ->
       (rank a <= rank b)%nat).
Proof.
  revert d log. induction reader as [|c reader IH]; intros d log H Hwf.
  - injection H as <- <-. exists [readState d]. split; [done|]. split.
    + by intros a ->%list_elem_of_singleton.
    + intros [|i] [|j] a b _ Ha Hb; simpl in *; try done.
      by injection Ha as <-; injection Hb as <-.
  - cbn [readChunk] in H.
    destruct (appendChunks d c) as [d1|] eqn:E; cbn [bindC] in H; [|done].
    pose proof (appendChunks_rank _ _ _ Hwf E) as Hr.
    destruct (IH _ _ H (appendChunks_wellFormed _ _ _ Hwf E))
      as (l & -> & Hall & Hsorted).
    exists (readState d :: l). split; [by rewrite <- app_assoc|]. split.
    + intros a [->|Ha]%elem_of_cons; [done|]. specialize (Hall a Ha). lia.
    + intros [|i] [|j] a b Hij Ha Hb; simpl in *.
      * by injection Ha as <-; injection Hb as <-.
      * injection Ha as <-.
        specialize (Hall b (list_elem_of_lookup_2 _ _ _ Hb)). lia.
      * lia.
      * apply (Hsorted i j); (done || lia).
Qed.

Lemma firstChunkOk_dec (chunks : list (list byte)) :
  firstChunkOk chunks \/ ~ firstChunkOk chunks.
Proof.
  induction chunks as [|[|x [|y c]] chunks IH]; cbn [firstChunkOk]; tauto.
Qed.

Lemma run_vertices (chunks : list (list byte)) (d : Loader) :
  feedChunks initialLoader chunks = Normal d ->
  let s := concat chunks in
  30 <= byteLength s ->
  vertices d
  = Some (Uint32Array (wordsFrom s 30 (Z.to_nat (wordsReceived s))
                       ++ zeros (fieldAt s 22 4 - wordsReceived s))).
Proof.
  intros H s Hlen.
  destruct (run_progress _ _ H Hlen) as (Hr & Hv & _).
  destruct (run_decoded _ _ H) as (Hd & _).
  destruct Hd as (_ & _ & _ & _ & _ & _ & _ & _ & H6 & _).
  destruct H6 as (_ & _ & _ & Hvs); [lia|].
  subst s. by rewrite <- Hv.
Qed.

Lemma run_indices (chunks : list (list byte)) (d : Loader) :
  feedChunks initialLoader chunks = Normal d ->
  let s := concat chunks in
  let size := fieldAt s 0 1 in
  30 <= byteLength s ->
  indices d
  = Some (indexArray size
            (indicesFrom s (30 + 4 * fieldAt s 22 4) size
               (Z.to_nat (indicesReceived s))
             ++ zeros (fieldAt s 26 4 - indicesReceived s))).
Proof.
  intros H s size Hlen.
  destruct (run_progress _ _ H Hlen) as (Hr & _ & Hi & _).
  destruct (run_decoded _ _ H) as (Hd & _).
  destruct Hd as (_ & _ & _ & _ & _ & _ & _ & _ & _ & _ & H7 & _).
  destruct H7 as (_ & _ & _ & His); [lia|].
  subst s size. by rewrite <- Hi.
Qed.

Lemma wordsReceived_all (s : list byte) :
  30 + 4 * fieldAt s 22 4 <= byteLength s ->
  wordsReceived s = fieldAt s 22 4.
Proof.
  intros H. unfold wordsReceived. apply Z.min_l.
  apply Z.div_le_lower_bound; lia.
Qed.

Lemma indicesReceived_none (s : list byte) :
  byteLength s < 34 + 4 * fieldAt s 22 4 -> indicesReceived s = 0.
Proof.
  intros H. unfold indicesReceived.
  by destruct (Z.ltb_spec (byteLength s) (34 + 4 * fieldAt s 22 4)); [|lia].
Qed.

Lemma indicesReceived_all (s : list byte) :
  34 + 4 * fieldAt s 22 4 <= byteLength s ->
  30 + 4 * fieldAt s 22 4 + fieldAt s 0 1 * fieldAt s 26 4 <= byteLength s ->
  indicesReceived s = fieldAt s 26 4.
Proof.
  intros H4 Hall. unfold indicesReceived.
  destruct (Z.ltb_spec (byteLength s) (34 + 4 * fieldAt s 22 4)); [lia|].
  destruct (Z.eqb_spec (fieldAt s 0 1) 0); [done|].
  pose proof (fieldAt_bound s 0 1).
  apply Z.min_l. apply Z.div_le_lower_bound; lia.
Qed.

Lemma elements_indexArray (size : Z) (l : list Z) :
  elements (indexArray size l) = l.
Proof.
  unfold indexArray. by destruct (size =? 1); [|destruct (size =? 2)].
Qed.

Lemma zeros_length (n : Z) : length (zeros n) = Z.to_nat n.
Proof. unfold zeros. apply length_replicate. Qed.
(** ** Further properties of the loader

    Read off [appendChunks], [readChunk], [readChunks] and [loadBOBJ]. *)

(** X1 — chunk invariance, where the code has it. Two ways of cutting the
    same bytes into chunks resolve with the same model data, when in both
    the first chunk that is not empty holds more than one byte and the index
    size of the stream is 1, 2 or at least 4. *)
Theorem chunkings_agree (chunks1 chunks2 : list (list byte)) :
  concat chunks1 = concat chunks2 ->
  firstChunkOk chunks1 -> firstChunkOk chunks2 ->
  safeSize (fieldAt (concat chunks1) 0 1) ->
  exists m, loadBOBJ (delivered chunks1) = Resolved m /\
            loadBOBJ (delivered chunks2) = Resolved m.
Proof.
  intros Heq H1 H2 Hs.
  destruct (chunked_run_is_single_pass chunks1 H1 Hs) as (d1 & F1 & P1).
  rewrite Heq in Hs, P1.
  destruct (chunked_run_is_single_pass chunks2 H2 Hs) as (d2 & F2 & P2).
  assert (d2 = d1) as -> by congruence.
  exists (modelDataOf d1). by rewrite !loadBOBJ_delivered, F1, F2.
Qed.

Lemma chunkings_agree_witness :
  exists m,
    loadBOBJ (delivered (cutAt 10 24 sixIndexStream)) = Resolved m /\
    loadBOBJ (delivered [take 2 sixIndexStream; []; drop 2 sixIndexStream])
    = Resolved m.
Proof.
  apply (chunkings_agree (cutAt 10 24 sixIndexStream)
           [take 2 sixIndexStream; []; drop 2 sixIndexStream]).
  - vm_compute. reflexivity.
  - exact I.
  - exact I.
  - left. vm_compute. reflexivity.
Defined.

(** X2 — the chunking can keep a load from resolving, it cannot change what
    the load resolves with: a load that resolves over any chunks resolves
    with the model data the same bytes give when delivered as one chunk. *)
Theorem resolved_load_is_one_chunk_load (chunks : list (list byte))
    (m : ModelData) :
  loadBOBJ (delivered chunks) = Resolved m ->
  loadBOBJ (delivered [concat chunks]) = Resolved m.
Proof.
  intros (d & H & ->)%loadBOBJ_resolved.
  rewrite loadBOBJ_delivered. cbn [feedChunks].
  by rewrite (completed_run_is_single_pass _ _ H).
Qed.

Lemma resolved_load_is_one_chunk_load_witness :
  loadBOBJ (delivered (cutAt 10 24 scenarioStream))
    = Resolved (scenarioData [0; 0; 0]) /\
  loadBOBJ (delivered [concat (cutAt 10 24 scenarioStream)])
    = Resolved (scenarioData [0; 0; 0]).
Proof.
  assert (loadBOBJ (delivered (cutAt 10 24 scenarioStream))
          = Resolved (scenarioData [0; 0; 0])) as H
    by (vm_compute; reflexivity).
  split; [exact H|].
  exact (resolved_load_is_one_chunk_load _ _ H).
Defined.

(** X3 — when a load is rejected. With an index size of 1, 2 or at least 4
    the load is rejected exactly when the first chunk that is not empty
    holds a single byte; in every other case it resolves. *)
Theorem rejected_iff_first_chunk_is_one_byte (chunks : list (list byte)) :
  safeSize (fieldAt (concat chunks) 0 1) ->
  (loadBOBJ (delivered chunks) = Rejected RangeError
   <-> ~ firstChunkOk chunks) /\
  ((exists m, loadBOBJ (delivered chunks) = Resolved m)
   <-> firstChunkOk chunks).
Proof.
  intros Hs. rewrite loadBOBJ_delivered. split; split.
  - intros H Hok.
    destruct (chunked_run_is_single_pass chunks Hok Hs) as (d & F & _).
    by rewrite F in H.
  - intros H. by rewrite (firstChunk_one_byte chunks H).
  - intros [m H]. destruct (firstChunkOk_dec chunks) as [|Hn]; [done|].
    by rewrite (firstChunk_one_byte chunks Hn) in H.
  - intros Hok.
    destruct (chunked_run_is_single_pass chunks Hok Hs) as (d & F & _).
    exists (modelDataOf d). by rewrite F.
Qed.

Lemma rejected_iff_first_chunk_is_one_byte_witness :
  loadBOBJ (delivered (byteChunks sixIndexStream)) = Rejected RangeError.
Proof.
  refine (proj2 (proj1 (rejected_iff_first_chunk_is_one_byte
                          (byteChunks sixIndexStream) _)) _).
  - left. vm_compute. reflexivity.
  - intros H. exact H.
Defined.

(** X4 — what a load can be rejected with. Whatever the chunks of an
    accepted response hold, the passes throw nothing but the [RangeError]
    of a [DataView] read: the loader never stores through [vertices] or
    [indices] before it has allocated them. *)
Theorem load_rejects_only_with_RangeError (chunks : list (list byte))
    (e : JsError) :
  loadBOBJ (delivered chunks) = Rejected e -> e = RangeError.
Proof.
  rewrite loadBOBJ_delivered.
  destruct (feedChunks initialLoader chunks) as [d|e'] eqn:E; [done|].
  intros [= <-]. destruct (feedChunks_throws _ _ E) as (i & _ & H).
  by apply (single_pass_throws _ _ H).
Qed.

Lemma load_rejects_only_with_RangeError_witness :
  loadBOBJ (delivered [take 1 widthSevenStream; drop 1 widthSevenStream])
    = Rejected RangeError.
Proof.
  assert (exists e,
            loadBOBJ (delivered [take 1 widthSevenStream;
                                 drop 1 widthSevenStream]) = Rejected e)
    as [e H] by (eexists; vm_compute; reflexivity).
  rewrite H. f_equal.
  exact (load_rejects_only_with_RangeError _ _ H).
Defined.

(** X5 — no byte is lost between two reads. After any chunks the kept tail
    is the stream received so far from the position consumed on, and that
    position is the end of the header fields read plus four bytes for every
    vertex word stored plus [indexSize] bytes for every index stored. *)
Theorem kept_tail_is_unread_stream (chunks : list (list byte)) (d : Loader)
    (log : ReadLog) :
  readChunks (delivered chunks) = Normal (d, log) ->
  0 <= consumed d <= byteLength (concat chunks) /\
  carry d = drop (Z.to_nat (consumed d)) (concat chunks).
Proof.
  intros H. unfold readChunks in H. cbn [ok body delivered] in H.
  destruct (readChunk_feedChunks _ _ _ _ _ H) as (Hf & _ & _).
  by destruct (run_decoded _ _ Hf) as (_ & Hc & Ht & _).
Qed.

Lemma kept_tail_is_unread_stream_witness :
  exists d log,
    readChunks (delivered (cutAt 10 24 scenarioStream)) = Normal (d, log) /\
    consumed d = 54 /\ carry d = bytesOf [0; 1; 0].
Proof.
  assert (exists d log,
            readChunks (delivered (cutAt 10 24 scenarioStream))
            = Normal (d, log)) as (d & log & H)
    by (eexists _, _; vm_compute; reflexivity).
  exists d, log. split; [exact H|].
  destruct (kept_tail_is_unread_stream _ _ _ H) as [_ Hc].
  revert Hc. vm_compute in H. injection H as <- <-. intros Hc.
  split; [vm_compute; reflexivity|]. rewrite Hc. vm_compute. reflexivity.
Defined.

(** X6 — the header under any chunking. However the first 30 bytes are
    spread over the chunks, a load that resolves over a stream of at least
    30 bytes resolves with the header of the wire format: flags, scale,
    offset, index count, the vertex count as word count by stride, the
    triangle count as a third of the index count, and the GL index type of
    the index size. *)
Theorem header_decodes_under_any_chunking (chunks : list (list byte))
    (m : ModelData) :
  loadBOBJ (delivered chunks) = Resolved m ->
  30 <= byteLength (concat chunks) ->
  let h := wireHeader (concat chunks) in
  md_hasUV m = Some (wh_hasUV h) /\
  md_hasNormal m = Some (wh_hasNormal h) /\
  md_hasColor m = Some (wh_hasColor h) /\
  md_scale m = wh_scale h /\
  md_offset m = wh_offset h /\
  md_indexCount m = Some (wh_indexCount h) /\
  md_vertexCount m = Some (numberDiv (wh_vertexWordCount h) (wireStride h)) /\
  md_triangleCount m = Some (numberDiv (wh_indexCount h) 3) /\
  md_indexType m = indexTypeOf (Some (wh_indexWidth h)).
Proof.
  intros (d & H & ->)%loadBOBJ_resolved Hlen h.
  destruct (run_progress _ _ H Hlen) as (Hr & _).
  destruct (run_decoded _ _ H) as (Hd & _).
  destruct Hd as (_ & _ & _ & H2 & H3 & H4 & H5 & _ & H6 & _ & H7 & _).
  destruct H3 as (Hc & Hu & Hn); [lia|].
  destruct H6 as (_ & Hvc & _); [lia|].
  destruct H7 as (Hic & Htc & _); [lia|].
  destruct (headerLoader_wire (concat chunks))
    as (W1 & W2 & W3 & W4 & W5 & W6 & W7 & W8 & W9 & W10).
  unfold modelDataOf.
  cbn [md_hasUV md_hasNormal md_hasColor md_scale md_offset md_indexCount
       md_vertexCount md_triangleCount md_indexType].
  rewrite Hu, Hn, Hc, H4, H5, Hic, Hvc, Htc, H2 by lia.
  by rewrite W2, W3, W4, W5, W6, W9, W10.
Qed.

Lemma header_decodes_under_any_chunking_witness :
  exists m,
    loadBOBJ (delivered (scenarioHeader :: byteChunks scenarioPayload))
      = Resolved m /\
    md_hasUV m = Some true /\ md_scale m = SF_1_5 /\
    md_indexCount m = Some 3 /\ md_vertexCount m = Some (numberOfZ 2).
Proof.
  assert (exists m,
            loadBOBJ (delivered (scenarioHeader :: byteChunks scenarioPayload))
            = Resolved m) as [m H] by (eexists; vm_compute; reflexivity).
  exists m. split; [exact H|].
  assert (30 <= byteLength
                  (concat (scenarioHeader :: byteChunks scenarioPayload)))
    as Hlen by (vm_compute; discriminate).
  destruct (header_decodes_under_any_chunking _ _ H Hlen)
    as (Hu & _ & _ & Hs & _ & Hi & Hv & _).
  rewrite Hu, Hs, Hi, Hv. repeat split; vm_compute; reflexivity.
Defined.

(** X7 — the vertex words a load resolves with. For every four bytes the
    stream holds behind its header the vertex array holds one word, the
    little-endian value of those bytes, up to the declared count; the rest
    of the array is zero. *)
Theorem vertex_words_as_far_as_received (chunks : list (list byte))
    (m : ModelData) :
  loadBOBJ (delivered chunks) = Resolved m ->
  let s := concat chunks in
  30 <= byteLength s ->
  vertexData m
  = Some (Uint32Array (wordsFrom s 30 (Z.to_nat (wordsReceived s))
                       ++ zeros (fieldAt s 22 4 - wordsReceived s))).
Proof.
  intros (d & H & ->)%loadBOBJ_resolved s Hlen.
  by apply run_vertices.
Qed.

Lemma vertex_words_as_far_as_received_witness :
  loadBOBJ (delivered [scenarioHeader ++ take 9 scenarioPayload])
    = Resolved (modelDataOf afterTwoWords) /\
  vertexData (modelDataOf afterTwoWords)
    = Some (Uint32Array [1; 2; 0; 0; 0; 0]).
Proof.
  assert (loadBOBJ (delivered [scenarioHeader ++ take 9 scenarioPayload])
          = Resolved (modelDataOf afterTwoWords)) as H
    by (vm_compute; reflexivity).
  split; [exact H|].
  rewrite (vertex_words_as_far_as_received _ _ H);
    vm_compute; [reflexivity|discriminate].
Defined.

(** X8 — the indices a load resolves with. The index loop is entered only
    with four bytes or more behind the last vertex word; from there it takes
    one index for every [indexSize] bytes of the stream, up to the declared
    count, each read with the width the [switch] gives its size; the rest of
    the array is zero. *)
Theorem indices_as_far_as_received (chunks : list (list byte))
    (m : ModelData) :
  loadBOBJ (delivered chunks) = Resolved m ->
  let s := concat chunks in
  let size := fieldAt s 0 1 in
  30 <= byteLength s ->
  indexData m
  = Some (indexArray size
            (indicesFrom s (30 + 4 * fieldAt s 22 4) size
               (Z.to_nat (indicesReceived s))
             ++ zeros (fieldAt s 26 4 - indicesReceived s))).
Proof.
  intros (d & H & ->)%loadBOBJ_resolved s size Hlen.
  by apply run_indices.
Qed.

Lemma indices_as_far_as_received_witness :
  exists m,
    loadBOBJ (delivered (cutAt 10 24 (sixIndexStream ++ bytesOf [9])))
      = Resolved m /\
    indexData m = Some (Uint8Array [0; 1; 0; 0; 1; 0]).
Proof.
  assert (exists m,
            loadBOBJ (delivered (cutAt 10 24 (sixIndexStream ++ bytesOf [9])))
            = Resolved m) as [m H] by (eexists; vm_compute; reflexivity).
  exists m. split; [exact H|].
  rewrite (indices_as_far_as_received _ _ H);
    vm_compute; [reflexivity|discriminate].
Defined.

(** X9 — an index section of fewer than four bytes is never decoded. When
    the stream holds every declared vertex word and fewer than four bytes
    behind them, the load resolves with the whole vertex array and an index
    array of zeros, whatever the index bytes are: the vertex loop looks for
    the full buffer only in a turn that has four bytes before it. *)
Theorem short_index_section_is_lost (chunks : list (list byte)) :
  let s := concat chunks in
  let n := fieldAt s 22 4 in
  firstChunkOk chunks -> safeSize (fieldAt s 0 1) ->
  30 + 4 * n <= byteLength s < 34 + 4 * n ->
  exists m,
    loadBOBJ (delivered chunks) = Resolved m /\
    vertexData m = Some (Uint32Array (wordsFrom s 30 (Z.to_nat n))) /\
    indexData m = Some (indexArray (fieldAt s 0 1) (zeros (fieldAt s 26 4))).
Proof.
  intros s n Hok Hs Hlen.
  destruct (chunked_run_is_single_pass chunks Hok Hs) as (d & F & _).
  exists (modelDataOf d). rewrite loadBOBJ_delivered, F. split; [done|].
  pose proof (fieldAt_bound s 22 4) as Hn. fold n in Hn.
  cbn [modelDataOf vertexData indexData].
  rewrite (run_vertices _ _ F), (run_indices _ _ F) by (fold s; lia).
  fold s. rewrite wordsReceived_all, indicesReceived_none by (fold n; lia).
  fold n. rewrite Z.sub_diag, Z.sub_0_r.
  change (zeros 0) with (@nil Z). by rewrite app_nil_r.
Qed.

Lemma short_index_section_is_lost_witness :
  exists m,
    loadBOBJ (delivered (cutAt 10 24 scenarioStream)) = Resolved m /\
    vertexData m = Some (Uint32Array [1; 2; 3; 4; 5; 6]) /\
    indexData m = Some (Uint8Array [0; 0; 0]).
Proof.
  destruct (short_index_section_is_lost (cutAt 10 24 scenarioStream))
    as (m & H & Hv & Hi).
  - exact I.
  - left. vm_compute. reflexivity.
  - vm_compute. split; [discriminate|reflexivity].
  - exists m. split; [exact H|]. rewrite Hv, Hi.
    split; vm_compute; reflexivity.
Defined.

(** X10 — a whole mesh decodes. When the stream holds every declared vertex
    word and index, with four bytes or more behind the vertex words unless
    no index is declared, the index size is 1, 2 or at least 4 and the first
    chunk that is not empty holds more than one byte, then the load resolves
    with every vertex word and every index of the stream, however the bytes
    are cut into chunks. *)
Theorem complete_mesh_decodes (chunks : list (list byte)) :
  let s := concat chunks in
  let size := fieldAt s 0 1 in
  let n := fieldAt s 22 4 in
  let c := fieldAt s 26 4 in
  firstChunkOk chunks -> safeSize size ->
  30 + 4 * n + size * c <= byteLength s ->
  c = 0 \/ 34 + 4 * n <= byteLength s ->
  exists m,
    loadBOBJ (delivered chunks) = Resolved m /\
    vertexData m = Some (Uint32Array (wordsFrom s 30 (Z.to_nat n))) /\
    indexData m
    = Some (indexArray size (indicesFrom s (30 + 4 * n) size (Z.to_nat c))).
Proof.
  intros s size n c Hok Hs Hall Hfour.
  destruct (chunked_run_is_single_pass chunks Hok Hs) as (d & F & _).
  exists (modelDataOf d). rewrite loadBOBJ_delivered, F. split; [done|].
  pose proof (fieldAt_bound s 22 4) as Hn. fold n in Hn.
  pose proof (fieldAt_bound s 26 4) as Hc. fold c in Hc.
  assert (1 <= size) as Hsize by (unfold safeSize in Hs; lia).
  assert (0 <= size * c) by nia.
  cbn [modelDataOf vertexData indexData].
  rewrite (run_vertices _ _ F), (run_indices _ _ F) by (fold s; lia).
  fold s. rewrite wordsReceived_all by (fold n; lia). fold n size c.
  rewrite Z.sub_diag. change (zeros 0) with (@nil Z). rewrite app_nil_r.
  split; [done|].
  assert (indicesReceived s = c) as ->.
  { destruct (Z.lt_ge_cases (byteLength s) (34 + 4 * n)) as [Hlt|Hge].
    - rewrite indicesReceived_none by (fold n; lia). lia.
    - apply indicesReceived_all; fold n size c; lia. }
  rewrite Z.sub_diag. change (zeros 0) with (@nil Z). by rewrite app_nil_r.
Qed.

Lemma complete_mesh_decodes_witness :
  exists m,
    loadBOBJ (delivered (cutAt 10 24 sixIndexStream)) = Resolved m /\
    vertexData m = Some (Uint32Array [1; 2; 3; 4; 5; 6]) /\
    indexData m = Some (Uint8Array [0; 1; 0; 0; 1; 0]).
Proof.
  destruct (complete_mesh_decodes (cutAt 10 24 sixIndexStream))
    as (m & H & Hv & Hi).
  - exact I.
  - left. vm_compute. reflexivity.
  - vm_compute. discriminate.
  - right. vm_compute. discriminate.
  - exists m. split; [exact H|]. rewrite Hv, Hi.
    split; vm_compute; reflexivity.
Defined.

(** X11 — what is handed to [drawElements] fits what is uploaded. In every
    load that resolves with an index array, the GL index type has the
    element size of that array and the index count is its length. *)
Theorem index_type_and_count_fit_the_array (chunks : list (list byte))
    (m : ModelData) (a : TypedArray) :
  loadBOBJ (delivered chunks) = Resolved m ->
  indexData m = Some a ->
  glTypeSize (md_indexType m) = bytesPerElement a /\
  md_indexCount m = Some (Z.of_nat (length (elements a))).
Proof.
  intros (d & H & ->)%loadBOBJ_resolved Ha.
  cbn [modelDataOf indexData md_indexType md_indexCount] in *.
  destruct (run_decoded _ _ H) as (Hd & _).
  destruct Hd as ((_ & Hi0) & _ & _ & H2 & _ & _ & _ & _ & _ & Hin & H7 & _).
  destruct (le_lt_dec (rank (readState d)) 6) as [Hr|Hr].
  { by rewrite Hin in Ha. }
  destruct H7 as (Hc & _ & Hle & Hi); [lia|].
  rewrite H2, Hc by lia. rewrite Hi in Ha. injection Ha as <-.
  split; [apply indexType_indexArray|].
  rewrite elements_indexArray, length_app, indicesFrom_length, zeros_length.
  f_equal. lia.
Qed.

Lemma index_type_and_count_fit_the_array_witness :
  exists m,
    loadBOBJ (delivered [widthSevenStream]) = Resolved m /\
    indexData m = Some (Uint32Array [5]) /\
    glTypeSize (md_indexType m) = 4 /\ md_indexCount m = Some 1.
Proof.
  assert (exists m, loadBOBJ (delivered [widthSevenStream]) = Resolved m /\
                    indexData m = Some (Uint32Array [5])) as (m & H & Ha)
    by (eexists; split; vm_compute; reflexivity).
  exists m. split; [exact H|]. split; [exact Ha|].
  exact (index_type_and_count_fit_the_array _ _ _ H Ha).
Defined.

(** X12 — the read state only moves forward. The states in which a load
    issues its reads, in the order of the reads, never go back in the order
    of the enumeration. *)
Theorem read_states_never_go_back (chunks : list (list byte)) (d : Loader)
    (log : ReadLog) (i j : nat) (a b : ModelReadState) :
  readChunks (delivered chunks) = Normal (d, log) ->
  (i <= j)%nat -> log !! i = Some a -> log !! j = Some b ->
  (rank a <= rank b)%nat.
Proof.
  intros H. unfold readChunks in H. cbn [ok body delivered] in H.
  destruct (readChunk_log _ _ _ _ _ H initialLoader_wellFormed)
    as (l & -> & _ & Hsorted).
  apply Hsorted.
Qed.

Lemma read_states_never_go_back_witness :
  exists d log,
    readChunks (delivered (cutAt 10 24 sixIndexStream)) = Normal (d, log) /\
    log = [IndexSize; ModelOffset; VertexCount; Done] /\
    (rank ModelOffset <= rank Done)%nat.
Proof.
  assert (exists d log,
            readChunks (delivered (cutAt 10 24 sixIndexStream))
            = Normal (d, log) /\
            log = [IndexSize; ModelOffset; VertexCount; Done])
    as (d & log & H & Hl)
    by (eexists _, _; split; vm_compute; reflexivity).
  exists d, log. split; [exact H|]. split; [exact Hl|].
  refine (read_states_never_go_back _ d log 1 3 _ _ H _ _ _).
  - repeat constructor.
  - rewrite Hl. reflexivity.
  - rewrite Hl. reflexivity.
Defined.

(** X13 — empty chunks do not count. A load over a list of chunks settles
    as the load over the same list without its empty chunks: resolved with
    the same data or rejected with the same exception. *)
Theorem empty_chunks_are_ignored (chunks : list (list byte)) :
  loadBOBJ (delivered (nonEmptyChunks chunks)) = loadBOBJ (delivered chunks).
Proof.
  rewrite !loadBOBJ_delivered.
  assert (feedChunks initialLoader (nonEmptyChunks chunks)
          = feedChunks initialLoader chunks) as ->; [|done].
  induction chunks as [|c chunks IH] using rev_ind; [done|].
  unfold nonEmptyChunks in *. rewrite filter_app, !feedChunks_snoc.
  destruct c as [|x c].
  - rewrite filter_cons_False, filter_nil, app_nil_r, IH by (by intros ?).
    destruct (feedChunks initialLoader chunks) as [d|e] eqn:E; [|done].
    cbn [bindC].
    pose proof (appendChunks_app initialLoader d (concat chunks) []
                  initialLoader_wellFormed
                  (completed_run_is_single_pass _ _ E)) as Happ.
    rewrite app_nil_r in Happ.
    by rewrite <- Happ, (completed_run_is_single_pass _ _ E).
  - rewrite filter_cons_True, filter_nil by done.
    by rewrite feedChunks_snoc, IH.
Qed.

(** X14 — a stream that ends inside the header. When the stream holds fewer
    than the 26 bytes up to the vertex word count, and its first chunk that
    is not empty more than one byte, the load still resolves, and it
    resolves with a vertex array and an index array that are [undefined]. *)
Theorem truncated_header_resolves_without_buffers
    (chunks : list (list byte)) :
  firstChunkOk chunks -> byteLength (concat chunks) < 26 ->
  exists m, loadBOBJ (delivered chunks) = Resolved m /\
            vertexData m = None /\ indexData m = None.
Proof.
  intros Hok Hlen.
  assert (feedChunks initialLoader chunks
          = appendChunks initialLoader (concat chunks)) as Hfeed.
  { apply feedChunks_by_prefixes. intros i _. apply short_pass.
    - by apply firstChunkOk_prefix.
    - rewrite (concat_take_drop chunks i), byteLength_app in Hlen.
      pose proof (byteLength_nonneg (concat (drop i chunks))). lia. }
  destruct (short_pass (concat chunks)) as [d Hd]; [|lia|].
  { pose proof (firstChunkOk_prefix chunks (length chunks) Hok) as H.
    by rewrite firstn_all in H. }
  rewrite Hd in Hfeed. exists (modelDataOf d).
  rewrite loadBOBJ_delivered, Hfeed. split; [done|].
  destruct (run_decoded _ _ Hfeed) as (Hdec & Hc & _).
  destruct Hdec as ((Hv0 & Hi0) & Hv & Hi & H2 & _ & _ & _ & Hvn & _ & Hin
                    & _).
  assert (rank (readState d) <= 5)%nat as Hr.
  { unfold consumed in Hc.
    destruct (readState d) eqn:R; cbn [rank headerOffset] in *; try lia;
      rewrite H2 in Hc by lia; cbn [default from_option] in Hc;
      unfold id in Hc; pose proof (fieldAt_bound (concat chunks) 0 1); nia. }
  cbn [modelDataOf vertexData indexData]. split; [apply Hvn|apply Hin]; lia.
Qed.

Lemma truncated_header_resolves_without_buffers_witness :
  exists m,
    loadBOBJ (delivered [take 7 scenarioStream; take 12 (drop 7 scenarioStream)])
      = Resolved m /\
    vertexData m = None /\ indexData m = None.
Proof.
  apply (truncated_header_resolves_without_buffers
           [take 7 scenarioStream; take 12 (drop 7 scenarioStream)]).
  - exact I.
  - vm_compute. reflexivity.
Defined.

(** X15 — what the fallback for an index size of 3 does. The [switch]
    reads four bytes for every index size but 1 and 2, while the loop asks
    for [indexSize] bytes and moves on by as many: when the index bytes of
    a stream with index size 3 end after a whole number of indices, two or
    more and no more than declared, the read of the last of them goes
    past the end, and the load is rejected however the bytes are cut into
    chunks. *)
Theorem index_size_three_rejects_a_whole_stream (chunks : list (list byte))
    (k : Z) :
  let s := concat chunks in
  let n := fieldAt s 22 4 in
  let c := fieldAt s 26 4 in
  fieldAt s 0 1 = 3 -> 2 <= k <= c ->
  byteLength s = 30 + 4 * n + 3 * k ->
  loadBOBJ (delivered chunks) = Rejected RangeError.
Proof.
  intros s n c Hsize Hk Hlen. rewrite loadBOBJ_delivered.
  pose proof (fieldAt_bound s 22 4) as Hn. fold n in Hn.
  destruct (feedChunks initialLoader chunks) as [d|e] eqn:F.
  - exfalso.
    assert (30 <= byteLength s) as H30 by lia.
    destruct (run_progress _ _ F H30) as (_ & _ & Hi & _).
    destruct (run_decoded _ _ F) as (Hd & _).
    destruct Hd as (_ & _ & _ & _ & _ & _ & _ & _ & _ & _ & _ & _ & _ & Hrd).
    fold s in Hi, Hrd. fold n in Hrd.
    assert (indicesReceived s = k) as Hr.
    { unfold indicesReceived. fold n c. rewrite Hsize, Hlen.
      destruct (Z.ltb_spec (30 + 4 * n + 3 * k) (34 + 4 * n)); [lia|].
      cbn [Z.eqb].
      replace (30 + 4 * n + 3 * k - 30 - 4 * n) with (k * 3) by lia.
      rewrite Z.div_mul by done. lia. }
    rewrite Hi, Hr, Hsize in Hrd. cbn [indexWidth Z.eqb] in Hrd.
    specialize (Hrd ltac:(lia)). cbn in Hrd. lia.
  - f_equal. destruct (feedChunks_throws _ _ F) as (i & _ & H).
    by apply (single_pass_throws _ _ H).
Qed.

Lemma index_size_three_rejects_a_whole_stream_witness :
  loadBOBJ (delivered (cutAt 10 24 widthThreeStream)) = Rejected RangeError.
Proof.
  apply (index_size_three_rejects_a_whole_stream
           (cutAt 10 24 widthThreeStream) 2).
  - vm_compute. reflexivity.
  - vm_compute. split; discriminate.
  - vm_compute. reflexivity.
Defined.
(** ** The failed response, the upload, the model and the scene *)

(** X16 — the error of a failed response. When the response is not [ok] or
    has no body, [readChunks] throws before any read and the load is
    rejected; the text it is rejected with names the file and the status
    and nothing else: [+] binds tighter than [&&], so the [Failed to load
    model] part of the message is only ever tested for truth, and the
    status sentence stands also for an [ok] response without a body. *)
Theorem failed_response_reports_only_the_status (url : String.string)
    (response : Response) (status : N) :
  responseFails response = true ->
  readChunks response = Throw FetchError /\
  loadBOBJ response = Rejected FetchError /\
  failureMessage url (ok response) status
  = String.append ". Server responded with status "
      (String.append (numberToString status) ".") /\
  rejectionText url (failureMessage url (ok response) status)
  = String.append "Error loading file "
      (String.append url
         (String.append ", Error: . Server responded with status "
            (String.append (numberToString status) "."))).
Proof.
  intros Hf.
  assert (readChunks response = Throw FetchError) as Hr.
  { unfold responseFails in Hf. unfold readChunks.
    destruct (ok response); [|done].
    destruct (body response); [|done].
    by rewrite bool_decide_eq_false_2 in Hf. }
  split; [done|]. split; [unfold loadBOBJ; by rewrite Hr|].
  assert (failureMessage url (ok response) status
          = String.append ". Server responded with status "
              (String.append (numberToString status) ".")) as ->
    by reflexivity.
  split; reflexivity.
Qed.

Lemma failed_response_reports_only_the_status_witness :
  rejectionText "/scene.bobj"%string
    (failureMessage "/scene.bobj"%string true 200)
  = "Error loading file /scene.bobj, Error: . Server responded with status 200."%string.
Proof.
  destruct (failed_response_reports_only_the_status "/scene.bobj"%string
              (mkResponse true None) 200 eq_refl) as (_ & _ & _ & H).
  cbn [ok] in H. rewrite H. vm_compute. reflexivity.
Defined.

(** X17 — the attribute layout fits the stride. In the vertex array object
    of a model the attribute pointers that are set follow one another
    without gap or overlap from byte 0 to the stride, all with the same
    stride; the stride in bytes is four times the words per vertex that
    the vertex count is computed with; and the depth pass reads the first
    eight bytes of the same records. *)
Theorem attribute_layout_tiles_the_vertex (shader depthShader : Shader)
    (d : Loader) (vao vertexBuffer indexBuffer depthVAO depthBuffer : nat) :
  let m := modelDataOf d in
  let calls := uploadVAO shader m vao vertexBuffer indexBuffer in
  let depthCalls :=
    uploadDepthVAO depthShader m depthVAO depthBuffer indexBuffer in
  byteStride m = 4 * stride d /\
  consecutive 0 (attributeSpans calls) (byteStride m) /\
  Forall (fun st => st = byteStride m) (attributeStrides calls) /\
  attributeSpans depthCalls = [(0, 8)] /\
  attributeStrides depthCalls = [byteStride m].
Proof.
  unfold uploadVAO, uploadDepthVAO, byteStride, stride.
  cbn [modelDataOf md_hasUV md_hasNormal].
  destruct (truthy (hasUV d)), (truthy (hasNormal d)); cbn;
    repeat split; try done; repeat constructor.
Qed.

Lemma bindIfUsable_flags (isTexture : nat -> bool) (texture : option nat)
    (unit : TextureUnit) (bit : Z) (acc : list GLCall * Z) :
  snd (bindIfUsable isTexture texture unit bit acc)
  = if usable isTexture texture then Z.lor (snd acc) bit else snd acc.
Proof.
  unfold bindIfUsable, usable.
  destruct texture as [t|]; [|done]. by destruct (isTexture t).
Qed.

Lemma bindIfUsable_binds (isTexture : nat -> bool) (texture : option nat)
    (unit : TextureUnit) (bit : Z) (acc : list GLCall * Z) (t : nat) :
  BindTexture2D t ∈ fst (bindIfUsable isTexture texture unit bit acc)
  <-> BindTexture2D t ∈ fst acc \/
      (isTexture t = true /\ texture = Some t).
Proof.
  unfold bindIfUsable.
  destruct texture as [t'|].
  2:{ split; [by left|]. by intros [H|[_ H]]. }
  destruct (isTexture t') eqn:E; cbn [fst].
  - rewrite elem_of_app, !elem_of_cons, elem_of_nil. split.
    + intros [H|[H|[[= <-]|[]]]]; [by left|done|by right].
    + intros [H|[Ht [= <-]]]; [by left|]. right. right. by left.
  - split; [by left|]. intros [H|[Ht [= <-]]]; [done|congruence].
Qed.

(** X18 — the texture flags name the textures that are bound. In a draw
    that is not depth only, bit 0, 1, 2, 3 of the flags handed to
    [texture_component_flags] is set exactly when the albedo, normal,
    metallic, roughness texture is an object [gl.isTexture] accepts, no
    other bit is set, and [bindTexture] is called with exactly those
    textures. *)
Theorem texture_flags_name_the_bound_textures (isTexture : nat -> bool)
    (model : Model) (gm : GpuModel) :
  m_modelData model = Some gm ->
  let textures := m_textures model in
  let calls := draw isTexture model false in
  exists flags,
    Uniform1ui (uni_texture_component_flags (m_shader model)) flags ∈ calls /\
    Z.testbit flags 0 = usable isTexture (tex_albedo textures) /\
    Z.testbit flags 1 = usable isTexture (tex_normal textures) /\
    Z.testbit flags 2 = usable isTexture (tex_metallic textures) /\
    Z.testbit flags 3 = usable isTexture (tex_roughness textures) /\
    0 <= flags < 16 /\
    forall t, BindTexture2D t ∈ calls <->
      isTexture t = true /\
      (tex_albedo textures = Some t \/ tex_normal textures = Some t \/
       tex_metallic textures = Some t \/ tex_roughness textures = Some t).
Proof.
  intros Hm textures calls. subst calls. unfold draw. rewrite Hm.
  fold textures.
  destruct (bindTextures isTexture textures) as [binds flags] eqn:E.
  assert (flags = snd (bindTextures isTexture textures)) as Hflags
    by (by rewrite E).
  assert (binds = fst (bindTextures isTexture textures)) as Hbinds
    by (by rewrite E).
  clear E. exists flags. split.
  { rewrite !elem_of_app, !elem_of_cons. tauto. }
  unfold bindTextures in Hflags. cbn zeta in Hflags.
  rewrite !bindIfUsable_flags in Hflags. cbn [snd] in Hflags.
  split; [|split; [|split; [|split; [|split]]]].
  1-5: subst flags;
    destruct (usable isTexture (tex_albedo textures)),
             (usable isTexture (tex_normal textures)),
             (usable isTexture (tex_metallic textures)),
             (usable isTexture (tex_roughness textures)); by vm_compute.
  intros t. rewrite !elem_of_app, !elem_of_cons, !elem_of_nil.
  assert (BindTexture2D t ∈ binds <->
          isTexture t = true /\
          (tex_albedo textures = Some t \/ tex_normal textures = Some t \/
           tex_metallic textures = Some t \/ tex_roughness textures = Some t))
    as <-.
  { subst binds. unfold bindTextures. cbn zeta.
    rewrite !bindIfUsable_binds. cbn [fst]. rewrite elem_of_nil. tauto. }
  intuition discriminate.
Qed.

Lemma texture_flags_name_the_bound_textures_witness :
  let isTexture := fun t => Nat.even t in
  let textures :=
    mkTextureResource (Some 2%nat) None (Some 3%nat) (Some 4%nat) in
  let sh := mkShader 0 0 1 2 0 1 2 3 4 5 6 in
  let model :=
    mkModel sh sh (Some (mkGpuModel 7 8 (modelDataOf afterScenario)))
      textures (mkTransform [] []) SF_zero SF_one SF_one in
  exists flags,
    Uniform1ui 4%nat flags ∈ draw isTexture model false /\
    Z.testbit flags 0 = true /\ Z.testbit flags 1 = false /\
    Z.testbit flags 2 = false /\ Z.testbit flags 3 = true.
Proof.
  intros isTexture textures sh model.
  destruct (texture_flags_name_the_bound_textures isTexture model _ eq_refl)
    as (flags & Hin & H0 & H1 & H2 & H3 & _).
  exists flags. split; [exact Hin|].
  rewrite H0, H1, H2, H3. repeat split.
Defined.

Lemma draw_calls_of_draw (isTexture : nat -> bool) (model : Model)
    (depthOnly : bool) :
  filter isDrawCall (draw isTexture model depthOnly)
  = match m_modelData model with
    | Some gm =>
      [DrawElementsTriangles (md_indexCount (gm_data gm))
         (md_indexType (gm_data gm)) 0]
    | None => []
    end.
Proof.
  unfold draw. destruct (m_modelData model) as [gm|]; [|done].
  rewrite filter_app. destruct depthOnly; [done|].
  destruct (bindTextures isTexture (m_textures model)) as [binds flags] eqn:E.
  assert (filter isDrawCall binds = []) as Hb.
  { assert (binds = fst (bindTextures isTexture (m_textures model))) as ->
      by (by rewrite E).
    unfold bindTextures, bindIfUsable.
    destruct (tex_albedo _) as [a|]; [destruct (isTexture a)|];
      (destruct (tex_normal _) as [n|]; [destruct (isTexture n)|]);
      (destruct (tex_metallic _) as [k|]; [destruct (isTexture k)|]);
      (destruct (tex_roughness _) as [r|]; [destruct (isTexture r)|]);
      reflexivity. }
  rewrite !filter_app, Hb. reflexivity.
Qed.

(** X19 — what a model draws. A model whose stream of at least 30 bytes
    arrives with an index size of 1, 2 or at least 4 and a first chunk of
    more than one byte makes one draw call in [draw], depth only or not:
    [drawElements] of the index count the header declares, whether or not
    that many indices were received, with the index type of the index
    size. A model whose first chunk holds one byte never draws. *)
Theorem model_draws_what_the_header_declares (isTexture : nat -> bool)
    (textures : TextureResource) (shader depthShader : Shader)
    (transform : Transform) (vao depthVAO : nat)
    (chunks : list (list byte)) (depthOnly : bool) :
  let s := concat chunks in
  let model :=
    settle (newModel textures shader depthShader transform) vao depthVAO
      (loadBOBJ (delivered chunks)) in
  safeSize (fieldAt s 0 1) -> 30 <= byteLength s ->
  (firstChunkOk chunks ->
   filter isDrawCall (draw isTexture model depthOnly)
   = [DrawElementsTriangles (Some (fieldAt s 26 4))
        (indexTypeOf (Some (fieldAt s 0 1))) 0]) /\
  (~ firstChunkOk chunks -> draw isTexture model depthOnly = []).
Proof.
  intros s model Hs Hlen. subst model. split; intros Hok.
  - destruct (chunked_run_is_single_pass chunks Hok Hs) as (d & F & _).
    rewrite loadBOBJ_delivered, F. cbn [settle].
    rewrite draw_calls_of_draw. cbn [m_modelData gm_data].
    destruct (run_progress _ _ F Hlen) as (Hr & _).
    destruct (run_decoded _ _ F) as (Hd & _).
    destruct Hd as (_ & _ & _ & H2 & _ & _ & _ & _ & _ & _ & H7 & _).
    destruct H7 as (Hc & _); [lia|].
    cbn [modelDataOf md_indexCount md_indexType].
    by rewrite Hc, H2 by lia.
  - rewrite loadBOBJ_delivered, (firstChunk_one_byte chunks Hok).
    reflexivity.
Qed.

Lemma model_draws_what_the_header_declares_witness :
  let sh := mkShader 0 0 1 2 0 1 2 3 4 5 6 in
  let model :=
    settle (newModel (mkTextureResource None None None None) sh sh
              (mkTransform [] [])) 7 8
      (loadBOBJ (delivered (cutAt 10 24 scenarioStream))) in
  filter isDrawCall (draw (fun _ => true) model true)
  = [DrawElementsTriangles (Some 3) UNSIGNED_BYTE 0].
Proof.
  intros sh model.
  refine (proj1 (model_draws_what_the_header_declares (fun _ => true)
                   (mkTextureResource None None None None) sh sh
                   (mkTransform [] []) 7 8 (cutAt 10 24 scenarioStream) true
                   _ _) I).
  - left. vm_compute. reflexivity.
  - vm_compute. discriminate.
Defined.

(** *** The objects of the scene *)

Lemma indexOfFrom_absent {A : Type} `{EqDecision A} (objects : list A)
    (obj : A) (i : Z) :
  obj ∉ objects -> indexOfFrom objects obj i = -1.
Proof.
  revert i. induction objects as [|x objects IH]; intros i H; [done|].
  apply not_elem_of_cons in H as [Hx H]. cbn [indexOfFrom].
  destruct (decide (x = obj)); [done|]. by apply IH.
Qed.

Lemma indexOfFrom_first {A : Type} `{EqDecision A} (before after : list A)
    (obj : A) (i : Z) :
  obj ∉ before ->
  indexOfFrom (before ++ obj :: after) obj i = i + Z.of_nat (length before).
Proof.
  revert i. induction before as [|x before IH]; intros i H; cbn [app].
  - cbn [indexOfFrom length]. destruct (decide (obj = obj)); [lia|done].
  - apply not_elem_of_cons in H as [Hx H]. cbn [indexOfFrom].
    destruct (decide (x = obj)); [done|]. rewrite IH by done.
    cbn [length]. lia.
Qed.

Lemma remove_first {A : Type} `{EqDecision A} (before after : list A)
    (obj : A) :
  obj ∉ before -> remove (before ++ obj :: after) obj = before ++ after.
Proof.
  intros H. unfold remove, indexOf, splice.
  rewrite indexOfFrom_first by done. rewrite length_app. cbn [length].
  destruct (Z.ltb_spec (0 + Z.of_nat (length before)) 0); [lia|].
  rewrite Z.min_l by lia. rewrite Z.max_l by lia.
  rewrite Z.min_l by lia.
  replace (Z.to_nat (0 + Z.of_nat (length before))) with (length before)
    by lia.
  replace (Z.to_nat (0 + Z.of_nat (length before) + 1))
    with (length before + 1)%nat by lia.
  rewrite take_app_length, <- drop_drop, drop_app_length. reflexivity.
Qed.

(** X20 — removing an object of the scene. [remove] takes out the first
    occurrence of the object and leaves every other object in place and in
    order. *)
Theorem remove_takes_out_the_first_occurrence {A : Type} `{EqDecision A}
    (before after : list A) (obj : A) :
  obj ∉ before ->
  remove (before ++ obj :: after) obj = before ++ after.
Proof. apply remove_first. Qed.

Lemma remove_takes_out_the_first_occurrence_witness :
  remove [3%nat; 1%nat; 2%nat; 1%nat] 1%nat = [3%nat; 2%nat; 1%nat].
Proof.
  apply (remove_takes_out_the_first_occurrence [3%nat] [2%nat; 1%nat] 1%nat).
  intros H%list_elem_of_singleton. discriminate H.
Defined.

(** X21 — removing an object that is not in the scene. [indexOf] answers
    -1 and [splice(-1, 1)] counts from the end: the object added last is
    the one removed, and only an empty scene stays as it is. *)
Theorem remove_of_an_absent_object_drops_the_last {A : Type}
    `{EqDecision A} (objects : list A) (obj : A) :
  obj ∉ objects ->
  remove objects obj = take (length objects - 1) objects.
Proof.
  intros H. unfold remove, indexOf, splice.
  rewrite indexOfFrom_absent by done. cbn [Z.ltb Z.compare].
  destruct objects as [|x objects]; [done|].
  set (l := x :: objects). assert (1 <= length l)%nat by (cbn; lia).
  rewrite Z.max_l by lia. rewrite Z.max_l by lia. rewrite Z.min_l by lia.
  replace (Z.to_nat (Z.of_nat (length l) + -1)) with (length l - 1)%nat
    by lia.
  replace (Z.to_nat (Z.of_nat (length l) + -1 + 1)) with (length l) by lia.
  by rewrite drop_all, app_nil_r.
Qed.

Lemma remove_of_an_absent_object_drops_the_last_witness :
  remove [3%nat; 1%nat; 2%nat] 7%nat = [3%nat; 1%nat].
Proof.
  apply (remove_of_an_absent_object_drops_the_last [3%nat; 1%nat; 2%nat]
           7%nat).
  rewrite !not_elem_of_cons. repeat split; try discriminate.
  apply not_elem_of_nil.
Defined.

(** X22 — adding and removing. [remove] undoes an [add] of an object that
    was not in the scene; for an object that was, add and remove commute:
    the first occurrence goes and the new one stays at the end. *)
Theorem add_then_remove {A : Type} `{EqDecision A} (objects : list A)
    (obj : A) :
  remove (add objects obj) obj
  = if decide (obj ∈ objects) then add (remove objects obj) obj
    else objects.
Proof.
  unfold add. destruct (decide (obj ∈ objects)) as [Hin|Hout].
  - apply list_elem_of_split_l in Hin as (before & after & -> & Hb).
    rewrite <- app_assoc. cbn [app].
    by rewrite !remove_first, app_assoc by done.
  - rewrite remove_first by done. apply app_nil_r.
Qed.

(** X23 — the passes of the scene. In both passes [drawScene] makes one
    draw call for every model whose load has resolved, in the order the
    models were added, and none for a model that is still loading or whose
    load was rejected; the lighting draws only in the pass that is not
    depth only, and the depth pass selects and binds no texture. *)
Theorem scene_draws_each_loaded_model_once (isTexture : nat -> bool)
    (objects : list Model) (lightingDraw : list GLCall) (depthOnly : bool) :
  filter isDrawCall (drawScene isTexture objects lightingDraw depthOnly)
  = flat_map (fun obj => filter isDrawCall (draw isTexture obj true)) objects
    ++ (if depthOnly then [] else filter isDrawCall lightingDraw) /\
  length (filter isDrawCall (drawScene isTexture objects lightingDraw true))
  = length (filter (fun obj => is_Some (m_modelData obj)) objects) /\
  Forall (fun call => touchesTextures call = false)
         (drawScene isTexture objects lightingDraw true).
Proof.
  unfold drawScene. split; [|split].
  - rewrite filter_app. f_equal; [|by destruct depthOnly].
    induction objects as [|obj objects IH]; [done|].
    cbn [flat_map]. rewrite filter_app, IH. f_equal.
    by rewrite !draw_calls_of_draw.
  - rewrite app_nil_r.
    induction objects as [|obj objects IH]; [done|].
    cbn [flat_map]. rewrite filter_app, length_app, IH, draw_calls_of_draw.
    rewrite filter_cons.
    destruct (m_modelData obj) as [gm|] eqn:E.
    + rewrite decide_True by (by eexists). reflexivity.
    + rewrite decide_False by (by intros [? ?]). reflexivity.
  - rewrite app_nil_r.
    induction objects as [|obj objects IH]; [by apply Forall_nil|].
    cbn [flat_map]. apply Forall_app. split; [|done].
    unfold draw. destruct (m_modelData obj); [|by apply Forall_nil].
    repeat (apply Forall_cons; split; [done|]). by apply Forall_nil.
Qed.

(** *** The camera *)

Lemma SFltb_leb (a b : spec_float) : SFltb a b = true -> SFleb a b = true.
Proof. unfold SFltb, SFleb. by destruct (SFcompare a b) as [[]|]. Qed.

Lemma SFleb_finite_refl (s : bool) (m : positive) (e : Z) :
  SFleb (S754_finite s m e) (S754_finite s m e) = true.
Proof.
  unfold SFleb, SFcompare.
  destruct s; rewrite Z.compare_refl, ?Pos.compare_cont_refl; cbn;
    by rewrite ?Pos.compare_refl.
Qed.

(** [Math.min(hi, Math.max(lo, x))] for finite bounds that are not zero. *)
Lemma clamp_between (s1 s2 : bool) (m1 m2 : positive) (e1 e2 : Z)
    (x : spec_float) :
  let lo := S754_finite s1 m1 e1 in
  let hi := S754_finite s2 m2 e2 in
  SFleb lo hi = true ->
  let r := mathMin hi (mathMax lo x) in
  isNaN r = isNaN x /\
  (isNaN x = false -> SFleb lo r = true /\ SFleb r hi = true).
Proof.
  intros lo hi Hle r. subst r. unfold mathMax.
  cbn [isNaN lo orb].
  destruct (isNaN x) eqn:Hx; [done|].
  assert (exists y, (if SFltb lo x then x else lo) = y /\ isNaN y = false /\
                    SFleb lo y = true) as (y & Hy & Hny & Hly).
  { destruct (SFltb lo x) eqn:E; eexists; split; try done; split; try done.
    - by apply SFltb_leb.
    - apply SFleb_finite_refl. }
  assert (mathMax lo x = y) as Hm.
  { unfold mathMax. cbn [isNaN lo orb]. by rewrite Hx. }
  unfold mathMax in Hm. cbn [isNaN lo orb] in Hm. rewrite Hx in Hm.
  rewrite Hm. unfold mathMin. cbn [isNaN hi orb]. rewrite Hny.
  destruct (SFltb y hi) eqn:E.
  - split; [done|]. intros _. split; [done|by apply SFltb_leb].
  - split; [done|]. intros _. split; [done|apply SFleb_finite_refl].
Qed.

(** X24 — the velocity of the camera stays clamped. Every component the
    camera step hands to [vec3.set] lies between [-MAX_VEL] and [MAX_VEL],
    unless the value before clamping is [NaN]: [Math.max] and [Math.min]
    hand a [NaN] on, and a velocity that is [NaN] once is [NaN] in every
    later frame. *)
Theorem velocity_is_clamped_or_NaN (vel accel deltaTime : spec_float) :
  let u := unclampedVelocity vel accel deltaTime in
  let v := nextVelocity vel accel deltaTime in
  isNaN v = isNaN u /\
  (isNaN u = false ->
   SFleb (SFopp MAX_VEL) v = true /\ SFleb v MAX_VEL = true) /\
  (isNaN vel = true -> isNaN v = true).
Proof.
  intros u v.
  destruct (clamp_between true false 4503599627370496 4503599627370496
              (-52) (-52) u eq_refl) as [Hn Hb].
  split; [exact Hn|]. split; [exact Hb|].
  intros Hv.
  change (isNaN v) with
    (isNaN (mathMin (S754_finite false 4503599627370496 (-52))
              (mathMax (S754_finite true 4503599627370496 (-52)) u))).
  rewrite Hn. subst u. unfold unclampedVelocity, fadd. by destruct vel.
Qed.

(** X25 — the pitch of the camera stays clamped. With the pointer locked
    the new pitch lies between [-Math.PI / 2] and [Math.PI / 2], unless
    the pitch or the pointer movement makes the difference [NaN]. *)
Theorem pitch_is_clamped_or_NaN (pitch dy : spec_float) :
  let u := fsub pitch (fmul dy MOUSE_SENSITIVITY) in
  let p := nextPitch pitch dy in
  isNaN p = isNaN u /\
  (isNaN u = false ->
   SFleb (fdiv (SFopp Math_PI) (numberOfZ 2)) p = true /\
   SFleb p (fdiv Math_PI (numberOfZ 2)) = true).
Proof.
  intros u p.
  exact (clamp_between true false 7074237752028440 7074237752028440
           (-52) (-52) u eq_refl).
Qed.

(** *** The sample kernel *)

(** X26 — the lengths of the kernel samples. For every [i] the loop of the
    constructor runs through, the scale of the [i]th sample is at least 0.1
    and less than 1, and it grows with [i]. *)
Theorem kernel_scales_grow_from_a_tenth (i : nat) :
  (i < SSAO_KERNEL_SIZE)%nat ->
  SFleb SF_tenth (kernelScale i) = true /\
  SFltb (kernelScale i) SF_one = true /\
  ((i + 1 < SSAO_KERNEL_SIZE)%nat ->
   SFltb (kernelScale i) (kernelScale (i + 1)) = true).
Proof.
  intros Hi.
  assert (forallb (fun i =>
            SFleb SF_tenth (kernelScale i) && SFltb (kernelScale i) SF_one
            && ((SSAO_KERNEL_SIZE <=? i + 1)%nat
                || SFltb (kernelScale i) (kernelScale (i + 1))))
            (seq 0 SSAO_KERNEL_SIZE) = true) as Hall
    by (vm_compute; reflexivity).
  rewrite forallb_forall in Hall.
  assert (In i (seq 0 SSAO_KERNEL_SIZE)) as Hin by (apply in_seq; lia).
  specialize (Hall i Hin).
  apply andb_true_iff in Hall as [[H1 H2]%andb_true_iff H3].
  split; [done|]. split; [done|]. intros Hn.
  apply orb_true_iff in H3 as [H3%Nat.leb_le|H3]; [lia|done].
Qed.

Lemma kernel_scales_grow_from_a_tenth_witness :
  SFleb SF_tenth (kernelScale 0) = true /\
  SFltb (kernelScale 0) SF_one = true /\
  ((0 + 1 < SSAO_KERNEL_SIZE)%nat ->
   SFltb (kernelScale 0) (kernelScale (0 + 1)) = true).
Proof.
  apply (kernel_scales_grow_from_a_tenth 0). unfold SSAO_KERNEL_SIZE. lia.
Defined.
